(** * Zogwine metadata: the TV-show reconciliation engine

    A shallow embedding of [internal/scraper] (the match selector, the
    filename identifier extractor, the selection applier, the per-show
    reconciliation and the scan orchestrator) together with the properties
    its specification states about them.

    Store, provider, plugin, filesystem, clock and logger calls are the
    program's interface to the outside world.  A Go function that performs
    such calls is embedded as a term of the free monad [Prog] over the type
    [call] of those calls; [run] executes a term against an arbitrary
    environment and records every call with its answer in a trace.  The
    goroutines of the concurrent scan are run by the step relation [step]. *)

From stdpp Require Import gmap strings list fin_maps.
From Stdlib Require Import ZArith Lia Ascii.

Local Open Scope Z_scope.

(** ** Go values *)

(** A Go [error]: [None] is [nil], [Some msg] an error with text [msg]. *)
Definition error := string.

(** A Go result pair [(value, err)]. *)
Definition goret (A : Type) : Type := (A * option error)%type.

(** A pure Go expression either yields a value or panics at run time. *)
Inductive may_panic (A : Type) : Type :=
| Normal (a : A)
| RuntimePanic (msg : string).
Arguments Normal {A} a.
Arguments RuntimePanic {A} msg.

Definition mp_bind {A B} (m : may_panic A) (f : A -> may_panic B) : may_panic B :=
  match m with
  | Normal a => f a
  | RuntimePanic msg => RuntimePanic msg
  end.

(** [s[i]] on a slice: a run-time panic outside [0 <= i < len(s)]. *)
Definition slice_index {A} (s : list A) (i : Z) : may_panic A :=
  if (i <? 0) || (Z.of_nat (length s) <=? i) then RuntimePanic "index out of range"
  else match s !! Z.to_nat i with
       | Some x => Normal x
       | None => RuntimePanic "index out of range"
       end.

(** ** Data model *)

(** [database.MediaType]; only the two constants the scraper names are
    distinguished, every other kind is carried by its name. *)
Inductive MediaType : Type :=
| MediaTypeTvs
| MediaTypeTvsEpisode
| MediaTypeOther (name : string).

Definition MediaType_eqb (a b : MediaType) : bool :=
  match a, b with
  | MediaTypeTvs, MediaTypeTvs => true
  | MediaTypeTvsEpisode, MediaTypeTvsEpisode => true
  | MediaTypeOther x, MediaTypeOther y => String.eqb x y
  | _, _ => false
  end.

(** [common.SearchData]: a candidate returned by a provider search. *)
Record SearchData : Type := mkSearchData {
  sd_Title : string;
  sd_ScraperName : string;
  sd_ScraperID : string;
  sd_ScraperData : string;
  sd_Premiered : Z
}.

(** The Go zero value [common.SearchData{}]. *)
Definition SearchData_zero : SearchData := mkSearchData "" "" "" "" 0.

(** [SelectionResult] *)
Record SelectionResult : Type := mkSelectionResult {
  sel_ScraperName : string;
  sel_ScraperID : string;
  sel_ScraperData : string
}.

(** [ScraperScanConfig] *)
Record ScraperScanConfig : Type := mkScraperScanConfig {
  AutoAdd : bool;
  AddUnknown : bool;
  Enable3DScan : bool;
  MaxConcurrentScans : Z
}.

(** The fields of [database.ListShowRow] the scraper reads and writes. *)
Record ListShowRow : Type := mkListShowRow {
  row_ID : Z;
  row_Title : string;
  row_Path : string;
  row_UpdateMode : Z;
  row_ScraperID : string;
  row_ScraperName : string;
  row_ScraperData : string;
  row_Premiered : Z
}.

Definition ListShowRow_zero : ListShowRow := mkListShowRow 0 "" "" 0 "" "" "" 0.

(** [common.ScraperInfo], embedded in every provider detail record. *)
Record ScraperInfo : Type := mkScraperInfo {
  si_ScraperName : string;
  si_ScraperID : string;
  si_ScraperData : string;
  si_ScraperLink : string
}.

(** Provider detail records ([common.TVSData] and the like).  A rating is
    only ever copied from a provider answer into a store call. *)
Record TVSData : Type := mkTVSData {
  tvs_Title : string; tvs_Overview : string; tvs_Icon : string;
  tvs_Fanart : string; tvs_Website : string; tvs_Trailer : string;
  tvs_Premiered : Z; tvs_Rating : Z; tvs_ScraperInfo : ScraperInfo
}.

Record TVSSeasonData : Type := mkTVSSeasonData {
  sea_Title : string; sea_Overview : string; sea_Icon : string;
  sea_Fanart : string; sea_Premiered : Z; sea_Rating : Z;
  sea_Trailer : string; sea_ScraperInfo : ScraperInfo
}.

Record TVSEpisodeData : Type := mkTVSEpisodeData {
  ep_Title : string; ep_Overview : string; ep_Icon : string;
  ep_Premiered : Z; ep_Rating : Z; ep_ScraperInfo : ScraperInfo
}.

Record TagData : Type := mkTagData {
  tag_Name : string; tag_Value : string; tag_Icon : string
}.

Record PersonData : Type := mkPersonData { person_Name : string }.

(** [fs.DirEntry], as far as the scan looks at it. *)
Record DirEntry : Type := mkDirEntry {
  de_Name : string;
  de_IsDir : bool
}.

(** ** Store queries ([s.DB.*]) and their parameter records *)

Record AddShowParams : Type := mkAddShowParams {
  as_Title : string; as_IDLib : Z; as_AddDate : Z
}.

Record UpdateShowParams : Type := mkUpdateShowParams {
  us_Title : string; us_Overview : string; us_Icon : string;
  us_Fanart : string; us_Website : string; us_Trailer : string;
  us_Premiered : Z; us_Rating : Z;
  us_ScraperName : string; us_ScraperID : string;
  us_ScraperLink : string; us_ScraperData : string;
  us_UpdateDate : Z; us_ID : Z; us_UpdateMode : Z
}.

(** [database.UpdateShowAllSeasonsParams] and
    [database.UpdateShowAllEpisodesParams] have the same four fields. *)
Record UpdateShowAllParams : Type := mkUpdateShowAllParams {
  ua_IDShow : Z; ua_ScraperName : string; ua_ScraperID : string;
  ua_UpdateMode : Z
}.

(** The key [(MediaType, MediaData)] of tag links, person links and
    candidate batches. *)
Record MediaKey : Type := mkMediaKey {
  mk_MediaType : MediaType; mk_MediaData : Z
}.

Record SeasonParams : Type := mkSeasonParams {
  ss_Title : string; ss_Overview : string; ss_Icon : string;
  ss_Season : Z; ss_Fanart : string; ss_Premiered : Z; ss_Rating : Z;
  ss_Trailer : string; ss_ScraperName : string; ss_ScraperData : string;
  ss_ScraperID : string; ss_ScraperLink : string;
  ss_Date : Z; ss_UpdateMode : Z; ss_IDShow : Z
}.

Record UpdateShowEpisodeParams : Type := mkUpdateShowEpisodeParams {
  ue_Title : string; ue_Overview : string; ue_Icon : string;
  ue_Premiered : Z; ue_Rating : Z;
  ue_ScraperID : string; ue_ScraperName : string;
  ue_ScraperData : string; ue_ScraperLink : string;
  ue_UpdateDate : Z; ue_UpdateMode : Z; ue_ID : Z
}.

Record AddShowEpisodeParams : Type := mkAddShowEpisodeParams {
  ae_Title : string; ae_Overview : string; ae_Icon : string;
  ae_Premiered : Z; ae_Rating : Z; ae_Season : Z; ae_Episode : Z;
  ae_ScraperName : string; ae_ScraperID : string;
  ae_ScraperData : string; ae_ScraperLink : string;
  ae_AddDate : Z; ae_UpdateMode : Z; ae_IDShow : Z
}.

Record AddMultipleResultsParams : Type := mkAddMultipleResultsParams {
  am_MediaType : MediaType; am_MediaData : Z; am_Data : string;
  am_Name : string
}.

(** Rows read back from the store. *)
Record Library : Type := mkLibrary { lib_Path : string }.
Record ShowSeasonRow : Type := mkShowSeasonRow { sr_Season : Z; sr_UpdateMode : Z }.
Record VideoFileRow : Type := mkVideoFileRow { vf_MediaData : Z }.
Record ShowEpisodeRow : Type := mkShowEpisodeRow {
  er_ID : Z; er_Season : Z; er_Episode : Z; er_UpdateMode : Z
}.
Record MultipleResultsRow : Type := mkMultipleResultsRow { mr_Data : string }.
Record TagRow : Type := mkTagRow { tr_ID : Z; tr_Name : string }.
Record PersonRow : Type := mkPersonRow { pr_ID : Z; pr_Name : string }.
Record ScraperRow : Type := mkScraperRow {
  sc_Provider : string; sc_Enabled : bool; sc_Settings : string
}.

Inductive query : Type :=
| GetLibrary (id : Z)
| ListShow (idUser : Z)
| AddShow (p : AddShowParams)
| UpdateShow (p : UpdateShowParams)
| UpdateShowAllSeasons (p : UpdateShowAllParams)
| UpdateShowAllEpisodes (p : UpdateShowAllParams)
| DeleteAllTagLinks (k : MediaKey)
| DeleteAllPersonLinks (k : MediaKey)
| ListShowSeason (idUser idShow : Z)
| UpdateShowSeason (p : SeasonParams)
| AddShowSeason (p : SeasonParams)
| GetVideoFileFromPath (idLib : Z) (path : string)
| GetShowEpisode (idUser id : Z)
| UpdateShowEpisode (p : UpdateShowEpisodeParams)
| AddShowEpisode (p : AddShowEpisodeParams)
| GetMultipleResultsByMedia (k : MediaKey)
| DeleteMultipleResultsByMedia (k : MediaKey)
| AddMultipleResultsQ (p : AddMultipleResultsParams)
| GetTagByValue (name value : string)
| AddTagQ (name value icon : string)
| AddTagLink (idTag : Z) (k : MediaKey)
| GetPersonByName (name : string)
| AddPersonQ (name : string)
| AddPersonLink (idPerson : Z) (k : MediaKey)
| ListScraperForType (mt : MediaType).

(** What each query hands back to its caller. *)
Definition query_resp (q : query) : Type :=
  match q with
  | GetLibrary _ => goret Library
  | ListShow _ => goret (list ListShowRow)
  | AddShow _ => goret Z
  | UpdateShow _ => option error
  | UpdateShowAllSeasons _ => option error
  | UpdateShowAllEpisodes _ => option error
  | DeleteAllTagLinks _ => option error
  | DeleteAllPersonLinks _ => option error
  | ListShowSeason _ _ => goret (list ShowSeasonRow)
  | UpdateShowSeason _ => option error
  | AddShowSeason _ => option error
  | GetVideoFileFromPath _ _ => goret VideoFileRow
  | GetShowEpisode _ _ => goret ShowEpisodeRow
  | UpdateShowEpisode _ => option error
  | AddShowEpisode _ => goret Z
  | GetMultipleResultsByMedia _ => goret MultipleResultsRow
  | DeleteMultipleResultsByMedia _ => option error
  | AddMultipleResultsQ _ => option error
  | GetTagByValue _ _ => goret TagRow
  | AddTagQ _ _ _ => goret Z
  | AddTagLink _ _ => option error
  | GetPersonByName _ => goret PersonRow
  | AddPersonQ _ => goret Z
  | AddPersonLink _ _ => option error
  | ListScraperForType _ => goret (list ScraperRow)
  end.

(** ** Provider, plugin, filesystem, clock and logger calls *)

(** A provider instance ([common.TVShowProvider]) is known by the
    reference its plugin factory returned. *)
Definition ProviderRef := Z.

Inductive provider_call : Type :=
| Setup (config : gmap string string)
| SearchTVS (title : string)
| Configure (scraperID scraperData : string)
| GetTVS
| GetTVSSeason (season : Z)
| GetTVSEpisode (season episode : Z)
| ListTVSTag
| ListTVSPerson.

Definition provider_resp (m : provider_call) : Type :=
  match m with
  | Setup _ => unit
  | SearchTVS _ => goret (list SearchData)
  | Configure _ _ => unit
  | GetTVS => goret TVSData
  | GetTVSSeason _ => goret TVSSeasonData
  | GetTVSEpisode _ _ => goret TVSEpisodeData
  | ListTVSTag => goret (list TagData)
  | ListTVSPerson => goret (list PersonData)
  end.

(** The symbol [util.LoadPlugin] found: the type assertion
    [pl.(func() common.TVShowProvider)] succeeds on a factory only. *)
Inductive PluginSymbol : Type :=
| NotAFactory
| Factory (f : Z).

Inductive LogLevel : Type := LTrace | LDebug | LInfo | LWarn | LError.

(** An argument of a log line or a value of a [log.Fields] entry. *)
Inductive LogArg : Type :=
| AStr (s : string)
| AInt (n : Z)
| AErr (e : option error).

Record LogEntry : Type := mkLogEntry {
  log_level : LogLevel;
  log_fields : list (string * LogArg);
  log_format : string;
  log_args : list LogArg
}.

(** The calls a scraper makes to the world around it.  [ListFiles] (of
    this package), [file.IsVideo], [file.UpdateVideoFile],
    [file.AddVideoFile] and [util.LoadPlugin] are functions of packages
    whose sources are not at hand; like the store and the providers they
    are answered by the environment. *)
Inductive call : Type :=
| DB (q : query)
| Provider (p : ProviderRef) (m : provider_call)
| LoadPlugin (kind path : string)
| CallFactory (f : Z)
| ReadDir (path : string)
| ListFiles (path : string) (recursive : bool)
| IsVideo (path : string)
| UpdateVideoFile (idLib : Z) (path : string)
| AddVideoFile (idLib : Z) (path : string) (mt : MediaType) (mediaData : Z) (flag : bool)
| Now
| Log (e : LogEntry).

Definition resp (c : call) : Type :=
  match c with
  | DB q => query_resp q
  | Provider _ m => provider_resp m
  | LoadPlugin _ _ => goret PluginSymbol
  | CallFactory _ => ProviderRef
  | ReadDir _ => goret (list DirEntry)
  | ListFiles _ _ => list string
  | IsVideo _ => bool
  | UpdateVideoFile _ _ => option error
  | AddVideoFile _ _ _ _ _ => goret Z
  | Now => Z
  | Log _ => unit
  end.

(** ** The scraper object *)

(** The two patterns [NewTVSScraper] compiles. *)
Inductive Regexp : Type :=
| SeasonPattern    (** [(?i)(?:s)(\d+)(?:e)] *)
| EpisodePattern.  (** [(?i)(?:s\d+e)(\d+)] *)

(** [TVSScraper].  Its [App] field, the handle on store and logger, is
    the environment the programs below run in. *)
Record TVSScraper : Type := mkTVSScraper {
  t_MediaType : MediaType;
  t_IDLib : Z;
  t_LibPath : string;
  t_AutoAdd : bool;
  t_AddUnknown : bool;
  t_Providers : gmap string ProviderRef;
  t_ProviderNames : list string;
  t_RegexSeason : Regexp;
  t_RegexEpisode : Regexp
}.

(** ** Programs *)

(** What a goroutine of the concurrent scan is started with: the scraper
    its closure captures and the three arguments of the call. *)
Definition GoArgs : Type :=
  (TVSScraper * DirEntry * list string * list ListShowRow)%type.

(** Operations on the weighted semaphore and the wait group of a scan,
    and the [go] statement. *)
Inductive sync_op : Type :=
| SemNew (n : Z)
| SemAcquire (n : Z)
| SemRelease (n : Z)
| WgAdd (n : Z)
| WgDone
| WgWait
| Go (args : GoArgs).

(** A program is a tree: it returns, panics, performs a call and goes on
    with the answer, or synchronises and goes on. *)
Inductive Prog (A : Type) : Type :=
| Ret (a : A)
| Panic (msg : string)
| Op (c : call) (k : resp c -> Prog A)
| Sync (s : sync_op) (k : Prog A).
Arguments Ret {A} a.
Arguments Panic {A} msg.
Arguments Op {A} c k.
Arguments Sync {A} s k.

Fixpoint bind {A B} (m : Prog A) (f : A -> Prog B) : Prog B :=
  match m with
  | Ret a => f a
  | Panic msg => Panic msg
  | Op c k => Op c (fun r => bind (k r) f)
  | Sync s k => Sync s (bind k f)
  end.

Definition perform (c : call) : Prog (resp c) := Op c Ret.

Definition sync (s : sync_op) : Prog unit := Sync s (Ret tt).

Definition lift {A} (m : may_panic A) : Prog A :=
  match m with
  | Normal a => Ret a
  | RuntimePanic msg => Panic msg
  end.

Declare Scope prog_scope.
Delimit Scope prog_scope with prog.
Notation "x <- m ;; k" := (bind m (fun x => k))
  (at level 20, m at level 99, k at level 200, only parsing) : prog_scope.
Notation "' pat <- m ;; k" := (bind m (fun x => match x with pat => k end))
  (at level 20, pat pattern, m at level 99, k at level 200, only parsing) : prog_scope.
Notation "m ;; k" := (bind m (fun _ => k))
  (at level 100, k at level 200, only parsing, right associativity) : prog_scope.
Local Open Scope prog_scope.

(** [for _, x := range xs { body x }] *)
Fixpoint for_each {A} (xs : list A) (body : A -> Prog unit) : Prog unit :=
  match xs with
  | [] => Ret tt
  | x :: rest => body x ;; for_each rest body
  end.

(** A loop that threads an accumulator through its iterations. *)
Fixpoint fold_each {A S} (xs : list A) (acc : S) (body : S -> A -> Prog S) : Prog S :=
  match xs with
  | [] => Ret acc
  | x :: rest => acc' <- body acc x ;; fold_each rest acc' body
  end.

(** ** What the scraper takes from the Go runtime and third-party code *)

(** The functions of the Go standard library and of go-fuzzywuzzy whose
    results the scraper uses without looking inside them. *)
Class Runtime : Type := {
  (** the score go-fuzzywuzzy's default scorer gives a choice for a query
      (both run through its default processor) *)
  fuzzy_score : string -> string -> Z;
  (** [time.Unix(sec, 0).Year()], in the time zone of the process *)
  unix_year : Z -> Z;
  (** [json.Marshal] of a candidate batch *)
  json_Marshal : list SearchData -> goret string;
  (** [json.Unmarshal] of a candidate batch into an empty slice *)
  json_Unmarshal_batch : string -> goret (list SearchData);
  (** [json.Unmarshal] of provider settings into an empty map *)
  json_Unmarshal_settings : string -> goret (gmap string string);
  (** [filepath.Join] of two elements *)
  filepath_Join : string -> string -> string
}.

(** ** Helpers of [internal/util] *)

Fixpoint Index_from (s : list string) (x : string) (i : Z) : Z :=
  match s with
  | [] => -1
  | y :: rest => if String.eqb y x then i else Index_from rest x (i + 1)
  end.

(** Modelled from the spec: [util.Index], whose source file is not among
    the sources.  A folder is matched against the known catalog paths
    (section 4.3) and the callers test the result with [> -1]: the position
    of the first occurrence of [x] in [s], and -1 when there is none. *)
Definition Index (s : list string) (x : string) : Z := Index_from s x 0.

(** Modelled from the spec: [util.Contains], whose source file is not among
    the sources: whether the season number is one of the known seasons
    (section 4.3, "if the season is new, create it"). *)
Definition Contains (s : list Z) (x : Z) : bool := existsb (Z.eqb x) s.

(** ** Match selector *)

(** [fuzzy.MatchPair] *)
Record MatchPair : Type := mkMatchPair { Match : string; Score : Z }.

Fixpoint best_of `{Runtime} (query : string) (choices : list string) (best : MatchPair) : MatchPair :=
  match choices with
  | [] => best
  | c :: rest =>
      let sc := fuzzy_score query c in
      if Score best <? sc then best_of query rest (mkMatchPair c sc)
      else best_of query rest best
  end.

(** Modelled from the spec: [fuzzy.ExtractOne] of go-fuzzywuzzy, a
    third-party package.  It scores every choice against the query and
    returns the top-scoring one, the first of them in input order on a tie
    (section 4.1); with nothing to choose from it returns an error and a
    nil pair. *)
Definition ExtractOne `{Runtime} (query : string) (choices : list string)
  : goret (option MatchPair) :=
  match choices with
  | [] => (None, Some "no match found")
  | c :: rest => (Some (best_of query rest (mkMatchPair c (fuzzy_score query c))), None)
  end.

(** [SelectBestItem] *)
Definition SelectBestItem `{Runtime} (items : list SearchData) (title : string) (year : Z)
  : may_panic (goret SearchData) :=
  let searchItems :=
    if 0 <? year
    then filter (fun i => unix_year (sd_Premiered i) = year) items
    else items in
  let names := map sd_Title searchItems in
  let '(match_, err) := ExtractOne title names in
  match err, match_ with
  | None, Some m =>
      if 85 <? Score m
      then mp_bind (slice_index searchItems (Index names (Match m)))
                   (fun it => Normal (it, None))
      else Normal (SearchData_zero, Some "no data")
  | None, None => RuntimePanic "nil pointer dereference"
  | Some _, _ => Normal (SearchData_zero, Some "no data")
  end.

(** ** Filename identifier extractor *)

Definition is_digit (c : ascii) : bool :=
  let n := N_of_ascii c in ((48 <=? n) && (n <=? 57))%N.

(** The literal [s] under [(?i)]: Go folds case with [unicode.SimpleFold],
    whose orbit of [s] is [s], [S] and U+017F (the long s, the two bytes
    0xC5 0xBF in UTF-8).  Yields the text matched and the rest. *)
Definition lit_s (s : string) : option (string * string) :=
  match s with
  | String c rest =>
      if Ascii.eqb c "s"%char || Ascii.eqb c "S"%char then Some (String c "", rest)
      else if Ascii.eqb c (ascii_of_N 197) then
        match rest with
        | String d rest' =>
            if Ascii.eqb d (ascii_of_N 191) then Some (String c (String d ""), rest')
            else None
        | EmptyString => None
        end
      else None
  | EmptyString => None
  end.

(** The literal [e] under [(?i)]: [e] or [E]. *)
Definition lit_e (s : string) : option (string * string) :=
  match s with
  | String c rest =>
      if Ascii.eqb c "e"%char || Ascii.eqb c "E"%char then Some (String c "", rest) else None
  | EmptyString => None
  end.

(** Greedy [\d*]: the longest run of ASCII digits and what follows it. *)
Fixpoint digits (s : string) : string * string :=
  match s with
  | String c rest =>
      if is_digit c then let '(d, r) := digits rest in (String c d, r)
      else (EmptyString, s)
  | EmptyString => (EmptyString, EmptyString)
  end.

(** [\d+] *)
Definition digits1 (s : string) : option (string * string) :=
  let '(d, r) := digits s in
  if String.eqb d "" then None else Some (d, r).

(** A match of [pattern] that begins at the first byte of [s]:
    the whole match followed by the captured group. *)
Definition match_here (pattern : Regexp) (s : string) : option (list string) :=
  match lit_s s with
  | None => None
  | Some (ms, r1) =>
    match digits1 r1 with
    | None => None
    | Some (d1, r2) =>
      match lit_e r2 with
      | None => None
      | Some (me, r3) =>
        match pattern with
        | SeasonPattern => Some [ms +:+ d1 +:+ me; d1]
        | EpisodePattern =>
          match digits1 r3 with
          | None => None
          | Some (d2, _) => Some [ms +:+ d1 +:+ me +:+ d2; d2]
          end
        end
      end
    end
  end.

(** [FindStringSubmatch] of a compiled pattern: the leftmost match, [nil]
    (the empty slice) when there is none. *)
Fixpoint FindStringSubmatch (pattern : Regexp) (s : string) : list string :=
  match match_here pattern s with
  | Some m => m
  | None =>
      match s with
      | String _ rest => FindStringSubmatch pattern rest
      | EmptyString => []
      end
  end.

Definition digit_val (c : ascii) : Z := Z.of_N (N_of_ascii c) - 48.

Fixpoint decimal_value (s : string) (acc : Z) : Z :=
  match s with
  | String c rest => decimal_value rest (10 * acc + digit_val c)
  | EmptyString => acc
  end.

Fixpoint all_digits (s : string) : bool :=
  match s with
  | String c rest => is_digit c && all_digits rest
  | EmptyString => true
  end.

Definition MaxInt64 : Z := 2 ^ 63 - 1.
Definition MinInt64 : Z := - 2 ^ 63.

(** [strconv.Atoi] on a 64-bit platform: an optional sign and decimal
    digits; out of range it returns the nearest bound with a range error. *)
Definition Atoi (s : string) : goret Z :=
  let '(neg, body) :=
    match s with
    | String "+"%char rest => (false, rest)
    | String "-"%char rest => (true, rest)
    | _ => (false, s)
    end in
  if String.eqb body "" || negb (all_digits body) then (0, Some "invalid syntax")
  else
    let v := decimal_value body 0 in
    if neg then
      if 2 ^ 63 <? v then (MinInt64, Some "value out of range") else (- v, None)
    else
      if MaxInt64 <? v then (MaxInt64, Some "value out of range") else (v, None).

Fixpoint Itoa_digits (fuel : nat) (n : Z) (acc : string) : string :=
  match fuel with
  | O => acc
  | S fuel' =>
      let acc' := String (ascii_of_N (Z.to_N (48 + n mod 10))) acc in
      if n <? 10 then acc' else Itoa_digits fuel' (n / 10) acc'
  end.

(** [strconv.Itoa] *)
Definition Itoa (n : Z) : string :=
  if n <? 0 then String "-"%char (Itoa_digits 20 (- n) "")
  else Itoa_digits 20 n "".

Fixpoint drop_while {A} (f : A -> bool) (l : list A) : list A :=
  match l with
  | x :: rest => if f x then drop_while f rest else l
  | [] => []
  end.

Fixpoint take_while {A} (f : A -> bool) (l : list A) : list A :=
  match l with
  | x :: rest => if f x then x :: take_while f rest else []
  | [] => []
  end.

(** [path.Base]: the last element of a slash-separated path, trailing
    slashes removed first. *)
Definition path_Base (p : string) : string :=
  if String.eqb p "" then "."
  else
    let is_slash := fun c : ascii => Ascii.eqb c "/"%char in
    let stripped := drop_while is_slash (rev (String.list_ascii_of_string p)) in
    let last := rev (take_while (fun c => negb (is_slash c)) stripped) in
    if String.eqb (String.string_of_list_ascii last) "" then "/"
    else String.string_of_list_ascii last.

(** ** Logging *)

(** [t.App.Log.WithFields(fields).<Level>f(format, args...)] *)
Definition logf (lvl : LogLevel) (fields : list (string * LogArg))
    (format : string) (args : list LogArg) : Prog unit :=
  perform (Log (mkLogEntry lvl fields format args)).

(** [t.App.Log.WithFields(fields).<Level>(msg)] *)
Definition logm (lvl : LogLevel) (fields : list (string * LogArg)) (msg : string) : Prog unit :=
  logf lvl fields msg [].

(** [log.Fields{"entity": "scraper", "file": "tvshow", "function": fn}] *)
Definition fields_fn (fn : string) : list (string * LogArg) :=
  [("entity", AStr "scraper"); ("file", AStr "tvshow"); ("function", AStr fn)].

(** ... with a fourth entry ["tvs": v] *)
Definition fields_tvs (fn : string) (v : LogArg) : list (string * LogArg) :=
  fields_fn fn ++ [("tvs", v)].

(** ** Common scraper functions *)

Fixpoint ListScraperConfiguration_loop `{Runtime} (data : list ScraperRow)
    (names : list string) (config : gmap string (gmap string string))
  : list string * gmap string (gmap string string) * option error :=
  match data with
  | [] => (names, config, None)
  | i :: rest =>
      if sc_Enabled i then
        let names' := names ++ [sc_Provider i] in
        let '(x, err) := json_Unmarshal_settings (sc_Settings i) in
        match err with
        | Some e => (names', config, Some e)
        | None => ListScraperConfiguration_loop rest names' (<[sc_Provider i := x]> config)
        end
      else ListScraperConfiguration_loop rest names config
  end.

(** [ListScraperConfiguration] *)
Definition ListScraperConfiguration `{Runtime} (mediaType : MediaType)
  : Prog (list string * gmap string (gmap string string) * option error) :=
  '(data, err) <- perform (DB (ListScraperForType mediaType)) ;;
  match err with
  | Some e => Ret ([], ∅, Some e)
  | None => Ret (ListScraperConfiguration_loop data [] ∅)
  end.

(** [AddMultipleResults] *)
Definition AddMultipleResults `{Runtime} (mediaType : MediaType) (mediaData : Z)
    (searchResults : list SearchData) (name : string) : Prog (option error) :=
  err <- perform (DB (DeleteMultipleResultsByMedia (mkMediaKey mediaType mediaData))) ;;
  match err with
  | Some e => Ret (Some e)
  | None =>
      let '(jsonData, err) := json_Marshal searchResults in
      match err with
      | Some e => Ret (Some e)
      | None =>
          perform (DB (AddMultipleResultsQ
                         (mkAddMultipleResultsParams mediaType mediaData jsonData name)))
      end
  end.

(** [AddTag] *)
Definition AddTag (mediaType : MediaType) (mediaData : Z) (tag : TagData)
  : Prog (option error) :=
  '(tagData, err) <- perform (DB (GetTagByValue (tag_Name tag) (tag_Value tag))) ;;
  if bool_decide (err ≠ None) || String.eqb (tr_Name tagData) "" then
    '(tagID, err) <- perform (DB (AddTagQ (tag_Name tag) (tag_Value tag) (tag_Icon tag))) ;;
    match err with
    | Some e => Ret (Some e)
    | None => perform (DB (AddTagLink tagID (mkMediaKey mediaType mediaData)))
    end
  else
    perform (DB (AddTagLink (tr_ID tagData) (mkMediaKey mediaType mediaData))).

(** [AddPerson] *)
Definition AddPerson (mediaType : MediaType) (mediaData : Z) (person : PersonData)
  : Prog (option error) :=
  '(personData, err) <- perform (DB (GetPersonByName (person_Name person))) ;;
  if bool_decide (err ≠ None) || String.eqb (pr_Name personData) "" then
    '(personID, err) <- perform (DB (AddPersonQ (person_Name person))) ;;
    match err with
    | Some e => Ret (Some e)
    | None => perform (DB (AddPersonLink personID (mkMediaKey mediaType mediaData)))
    end
  else
    perform (DB (AddPersonLink (pr_ID personData) (mkMediaKey mediaType mediaData))).

(** ** Selection applier *)

(** [UpdateWithSelectionResult] of the TV-show scraper: the five store writes, each
    one guarded by the success of the one before. *)
Definition UpdateWithSelectionResult (t : TVSScraper) (id : Z) (selection : SelectionResult)
  : Prog (option error) :=
  err <- perform (DB (UpdateShow
            (mkUpdateShowParams "" "" "" "" "" "" 0 0
               (sel_ScraperName selection) (sel_ScraperID selection)
               "" (sel_ScraperData selection) 0 id 1))) ;;
  match err with
  | Some e => Ret (Some e)
  | None =>
  err <- perform (DB (UpdateShowAllSeasons (mkUpdateShowAllParams id " " "0" 1))) ;;
  match err with
  | Some e => Ret (Some e)
  | None =>
  err <- perform (DB (UpdateShowAllEpisodes (mkUpdateShowAllParams id " " "0" 1))) ;;
  match err with
  | Some e => Ret (Some e)
  | None =>
  err <- perform (DB (DeleteAllTagLinks (mkMediaKey MediaTypeTvs id))) ;;
  match err with
  | Some e => Ret (Some e)
  | None =>
  err <- perform (DB (DeleteAllPersonLinks (mkMediaKey MediaTypeTvs id))) ;;
  match err with
  | Some e => Ret (Some e)
  | None => Ret None
  end end end end end.

(** ** Construction of the TV-show scraper *)

Definition set_Providers (t : TVSScraper) (ps : gmap string ProviderRef)
    (names : list string) : TVSScraper :=
  mkTVSScraper (t_MediaType t) (t_IDLib t) (t_LibPath t) (t_AutoAdd t) (t_AddUnknown t)
    ps names (t_RegexSeason t) (t_RegexEpisode t).

(** [getProviderFromName]: the range over the map stops at the one key
    equal to [pname], if there is one. *)
Definition getProviderFromName (t : TVSScraper) (pname : string) : ProviderRef + error :=
  match t_Providers t !! pname with
  | Some prov => inl prov
  | None => inr ("provider " +:+ pname +:+ " not found")
  end.

(** [loadTVSPlugins] *)
Definition loadTVSPlugins `{Runtime} (t : TVSScraper) : Prog (TVSScraper * option error) :=
  '(names, config, err) <- ListScraperConfiguration MediaTypeTvs ;;
  match err with
  | Some e => Ret (t, Some e)
  | None =>
      t <- fold_each names t (fun t i =>
             '(pl, err) <- perform (LoadPlugin "TVShowProvider" ("./plugins/scraper/" +:+ i)) ;;
             match err, pl with
             | None, Factory p =>
                 prov <- perform (CallFactory p) ;;
                 perform (Provider prov (Setup (default ∅ (config !! i)))) ;;
                 Ret (set_Providers t (<[i := prov]> (t_Providers t)) (t_ProviderNames t ++ [i]))
             | _, _ => Ret t
             end) ;;
      logm LInfo (fields_fn "loadTVSPlugins")
        ("loaded providers: " +:+ String.concat "," (t_ProviderNames t)) ;;
      if bool_decide (size (t_Providers t) = 0%nat)
      then Ret (t, Some "no provider loaded")
      else Ret (t, None)
  end.

(** [NewTVSScraper] *)
Definition NewTVSScraper `{Runtime} : Prog TVSScraper :=
  let t := mkTVSScraper MediaTypeTvs 0 "" false true ∅ [] SeasonPattern EpisodePattern in
  '(t, err) <- loadTVSPlugins t ;;
  match err with
  | Some e => logm LWarn (fields_fn "NewTVSScraper") e ;; Ret t
  | None => Ret t
  end.

(** [getScraperFromMediaType]: the TV-show scraper is the one
    implementation of the [Scraper] interface; [None] is the nil interface. *)
Definition getScraperFromMediaType `{Runtime} (mediaType : MediaType)
  : Prog (goret (option TVSScraper)) :=
  if MediaType_eqb mediaType MediaTypeTvs then
    t <- NewTVSScraper ;; Ret (Some t, None)
  else Ret (None, Some "no registered scraper for this mediatype").

(** ** Manual selection entry point *)

(** [SelectScraperResult] *)
Definition SelectScraperResult `{Runtime} (mediaType : MediaType) (mediaData : Z) (id : Z)
  : Prog (goret SearchData) :=
  '(data, err) <- perform (DB (GetMultipleResultsByMedia (mkMediaKey mediaType mediaData))) ;;
  match err with
  | Some e => Ret (SearchData_zero, Some e)
  | None =>
  let '(searchData, err) := json_Unmarshal_batch (mr_Data data) in
  match err with
  | Some e => Ret (SearchData_zero, Some e)
  | None =>
  '(sc, err) <- getScraperFromMediaType mediaType ;;
  match err with
  | Some e => Ret (SearchData_zero, Some e)
  | None =>
  match sc with
  | None => Panic "nil pointer dereference"
  | Some sc =>
  chosen <- lift (slice_index searchData id) ;;
  err <- UpdateWithSelectionResult sc mediaData
           (mkSelectionResult (sd_ScraperName chosen) (sd_ScraperID chosen)
                              (sd_ScraperData chosen)) ;;
  match err with
  | Some e => Ret (SearchData_zero, Some e)
  | None =>
  if Z.of_nat (length searchData) <? id then Ret (SearchData_zero, Some "invalid id")
  else
  err <- perform (DB (DeleteMultipleResultsByMedia (mkMediaKey mediaType mediaData))) ;;
  match err with
  | Some e => Ret (SearchData_zero, Some e)
  | None =>
  chosen <- lift (slice_index searchData id) ;;
  Ret (chosen, None)
  end end end end end end.

(** ** Reconciliation of one show *)

(** The search loop that opens [addTVS]: the results of every provider,
    in order of preference; a provider that fails contributes nothing. *)
Definition searchProviders (t : TVSScraper) (title : string) : Prog (list SearchData) :=
  fold_each (t_ProviderNames t) [] (fun searchResults i =>
    match t_Providers t !! i with
    | None => Panic "nil pointer dereference"
    | Some prov =>
        '(res, err) <- perform (Provider prov (SearchTVS title)) ;;
        match err with
        | None => Ret (searchResults ++ res)
        | Some _ => Ret searchResults
        end
    end).

Definition set_ID (data : ListShowRow) (id : Z) : ListShowRow :=
  mkListShowRow id (row_Title data) (row_Path data) (row_UpdateMode data)
    (row_ScraperID data) (row_ScraperName data) (row_ScraperData data) (row_Premiered data).

Definition set_Title (data : ListShowRow) (title : string) : ListShowRow :=
  mkListShowRow (row_ID data) title (row_Path data) (row_UpdateMode data)
    (row_ScraperID data) (row_ScraperName data) (row_ScraperData data) (row_Premiered data).

(** The four assignments of [addTVS] after an automatic selection. *)
Definition set_selected (data : ListShowRow) (selected : SearchData) : ListShowRow :=
  mkListShowRow (row_ID data) (row_Title data) (row_Title data) (row_UpdateMode data)
    (sd_ScraperID selected) (sd_ScraperName selected) (sd_ScraperData selected)
    (row_Premiered data).

(** The three assignments of [updateTVS] after the show was written. *)
Definition set_refreshed (data : ListShowRow) (tvsData : TVSData) : ListShowRow :=
  mkListShowRow (row_ID data) (tvs_Title tvsData) (row_Path data) (row_UpdateMode data)
    (row_ScraperID data) (row_ScraperName data)
    (si_ScraperData (tvs_ScraperInfo tvsData)) (tvs_Premiered tvsData).

(** [updateTVS]: update tvs, tags and people metadata. *)
Definition updateTVS (t : TVSScraper) (data : ListShowRow) : Prog (goret ListShowRow) :=
  match getProviderFromName t (row_ScraperName data) with
  | inr e => Ret (data, Some e)
  | inl provider =>
  perform (Provider provider (Configure (row_ScraperID data) (row_ScraperData data))) ;;
  '(tvsData, err) <- perform (Provider provider GetTVS) ;;
  match err with
  | Some e => Ret (data, Some e)
  | None =>
  now <- perform Now ;;
  err <- perform (DB (UpdateShow
            (mkUpdateShowParams (tvs_Title tvsData) (tvs_Overview tvsData) (tvs_Icon tvsData)
               (tvs_Fanart tvsData) (tvs_Website tvsData) (tvs_Trailer tvsData)
               (tvs_Premiered tvsData) (tvs_Rating tvsData) "" ""
               (si_ScraperLink (tvs_ScraperInfo tvsData))
               (si_ScraperData (tvs_ScraperInfo tvsData))
               now (row_ID data) (-1)))) ;;
  match err with
  | Some e => Ret (data, Some e)
  | None =>
  let data := set_refreshed data tvsData in
  '(tagData, err) <- perform (Provider provider ListTVSTag) ;;
  match err with
  | Some e => Ret (data, Some e)
  | None =>
  for_each tagData (fun i => AddTag MediaTypeTvs (row_ID data) i ;; Ret tt) ;;
  '(persData, err) <- perform (Provider provider ListTVSPerson) ;;
  match err with
  | Some e => Ret (data, Some e)
  | None =>
  for_each persData (fun i => AddPerson MediaTypeTvs (row_ID data) i ;; Ret tt) ;;
  Ret (data, None)
  end end end end end.

(** The middle of [addTVS]: a show that has no id yet gets its row. *)
Definition createShow (t : TVSScraper) (data : ListShowRow) : Prog (goret ListShowRow) :=
  if row_ID data =? 0 then
    now <- perform Now ;;
    '(id, err) <- perform (DB (AddShow (mkAddShowParams (row_Title data) (t_IDLib t) now))) ;;
    Ret (set_ID data id, err)
  else Ret (data, None).

(** The end of [addTVS]: bind the show to the best candidate and refresh
    it, or store the candidates for a later manual selection. *)
Definition selectOrStore `{Runtime} (t : TVSScraper) (data : ListShowRow)
    (searchResults : list SearchData) : Prog (goret ListShowRow) :=
  let logF := fields_tvs "addTVS" (AStr (row_Title data)) in
  if t_AutoAdd t then
    '(selected, err) <- lift (SelectBestItem searchResults (row_Title data) 0) ;;
    match err with
    | None =>
        logf LTrace logF "auto select: %s: %s"
          [AStr (sd_ScraperName selected); AStr (sd_ScraperID selected)] ;;
        UpdateWithSelectionResult t (row_ID data)
          (mkSelectionResult (sd_ScraperName selected) (sd_ScraperID selected)
                             (sd_ScraperData selected)) ;;
        updateTVS t (set_selected data selected)
    | Some _ =>
        logm LTrace logF "auto select failed, add multiple results" ;;
        AddMultipleResults MediaTypeTvs (row_ID data) searchResults (row_Title data) ;;
        Ret (data, None)
    end
  else
    logm LTrace logF "add multiple results" ;;
    AddMultipleResults MediaTypeTvs (row_ID data) searchResults (row_Title data) ;;
    Ret (data, None).

(** [addTVS]: search, give up on an unknown show unless unknown shows are
    wanted, create the row, then select or store.  The fields of the log
    lines keep the title the function was called with. *)
Definition addTVS `{Runtime} (t : TVSScraper) (data : ListShowRow) : Prog (goret ListShowRow) :=
  searchResults <- searchProviders t (row_Title data) ;;
  if bool_decide (length searchResults = 0%nat) && negb (t_AddUnknown t) then
    Ret (data, Some ("no data avaiable for show " +:+ row_Title data))
  else
    '(data, err) <- createShow t data ;;
    match err with
    | Some e => Ret (data, Some e)
    | None => selectOrStore t data searchResults
    end.

(** ** Seasons and episodes *)

(** [updateTVSSeasons]: update the existing seasons of a show; returns
    the list of existing season numbers. *)
Definition updateTVSSeasons (t : TVSScraper) (provider : ProviderRef) (idshow : Z)
  : Prog (goret (list Z)) :=
  '(seasonData, err) <- perform (DB (ListShowSeason 0 idshow)) ;;
  match err with
  | Some e => Ret ([], Some e)
  | None =>
  seasons <- fold_each seasonData [] (fun seasons i =>
    (if 0 <? sr_UpdateMode i then
       '(seasonData, err) <- perform (Provider provider (GetTVSSeason (sr_Season i))) ;;
       match err with
       | None =>
           now <- perform Now ;;
           perform (DB (UpdateShowSeason
             (mkSeasonParams (sea_Title seasonData) (sea_Overview seasonData)
                (sea_Icon seasonData) (sr_Season i) (sea_Fanart seasonData)
                (sea_Premiered seasonData) (sea_Rating seasonData) (sea_Trailer seasonData)
                (si_ScraperName (sea_ScraperInfo seasonData))
                (si_ScraperData (sea_ScraperInfo seasonData))
                (si_ScraperID (sea_ScraperInfo seasonData))
                (si_ScraperLink (sea_ScraperInfo seasonData))
                now (-1) idshow))) ;;
           Ret tt
       | Some e => logm LError (fields_tvs "updateTVSSeasons" (AInt idshow)) e
       end
     else Ret tt) ;;
    Ret (seasons ++ [sr_Season i])) ;;
  Ret (seasons, None)
  end.

(** The extraction of season and episode number from a file name in
    [updateTVSEpisode]: both patterns must match with a non-empty group;
    the conversion errors of [strconv.Atoi] are dropped. *)
Definition extractSeasonEpisode (t : TVSScraper) (filename : string) : option (Z * Z) :=
  let searchSeason := FindStringSubmatch (t_RegexSeason t) filename in
  let searchEpisode := FindStringSubmatch (t_RegexEpisode t) filename in
  if bool_decide (1 < length searchSeason)%nat
     && negb (String.eqb (nth 1 searchSeason "") "")
     && bool_decide (1 < length searchEpisode)%nat
     && negb (String.eqb (nth 1 searchEpisode "") "")
  then
    let '(season, _) := Atoi (nth 1 searchSeason "") in
    let '(episode, _) := Atoi (nth 1 searchEpisode "") in
    Some (season, episode)
  else None.

(** Registration of the video file of a freshly added episode (the two
    copies of this code in [updateTVSEpisode] are the same). *)
Definition registerEpisodeFile (t : TVSScraper) (logF : list (string * LogArg))
    (p : string) (added : goret Z) : Prog unit :=
  let '(idEp, err) := added in
  match err with
  | None =>
      '(_, err) <- perform (AddVideoFile (t_IDLib t) p MediaTypeTvsEpisode idEp false) ;;
      match err with
      | Some e => logm LError logF e
      | None => Ret tt
      end
  | Some e => logm LError logF e
  end.

(** [updateTVSEpisode]: update or add the episode of the file at [p].
    The list of known seasons is passed by pointer in the source; the new
    list is returned here. *)
Definition updateTVSEpisode (t : TVSScraper) (provider : ProviderRef) (seasons : list Z)
    (p : string) (idshow : Z) : Prog (list Z) :=
  let filename := path_Base p in
  let logF := fields_tvs "updateTVSEpisode" (AStr filename) in
  '(videoData, err) <- perform (DB (GetVideoFileFromPath (t_IDLib t) p)) ;;
  match err with
  | None =>
      logm LTrace logF "update episode" ;;
      '(episodeData, err) <- perform (DB (GetShowEpisode 0 (vf_MediaData videoData))) ;;
      if bool_decide (err = None) && (0 <? er_UpdateMode episodeData) then
        perform (UpdateVideoFile (t_IDLib t) p) ;;
        '(epData, err) <- perform (Provider provider
                             (GetTVSEpisode (er_Season episodeData) (er_Episode episodeData))) ;;
        match err with
        | None =>
            now <- perform Now ;;
            perform (DB (UpdateShowEpisode
              (mkUpdateShowEpisodeParams (ep_Title epData) (ep_Overview epData)
                 (ep_Icon epData) (ep_Premiered epData) (ep_Rating epData)
                 (si_ScraperID (ep_ScraperInfo epData))
                 (si_ScraperName (ep_ScraperInfo epData))
                 (si_ScraperData (ep_ScraperInfo epData))
                 (si_ScraperLink (ep_ScraperInfo epData))
                 now (-1) (er_ID episodeData)))) ;;
            Ret seasons
        | Some e => logm LError logF e ;; Ret seasons
        end
      else
        logf LTrace logF "no update requested or error: %s" [AErr err] ;;
        Ret seasons
  | Some _ =>
      logm LTrace logF "no existing entry for this episode" ;;
      match extractSeasonEpisode t filename with
      | Some (season, episode) =>
          seasons <-
            (if negb (Contains seasons season) then
               logf LTrace logF "unknown season: %d" [AInt season] ;;
               '(seasonData, err) <- perform (Provider provider (GetTVSSeason season)) ;;
               match err with
               | None =>
                   now <- perform Now ;;
                   perform (DB (AddShowSeason
                     (mkSeasonParams (sea_Title seasonData) (sea_Overview seasonData)
                        (sea_Icon seasonData) season (sea_Fanart seasonData)
                        (sea_Premiered seasonData) (sea_Rating seasonData)
                        (sea_Trailer seasonData)
                        (si_ScraperName (sea_ScraperInfo seasonData))
                        (si_ScraperData (sea_ScraperInfo seasonData))
                        (si_ScraperID (sea_ScraperInfo seasonData))
                        (si_ScraperLink (sea_ScraperInfo seasonData))
                        now (-1) idshow))) ;;
                   Ret (seasons ++ [season])
               | Some e =>
                   logm LError logF e ;;
                   now <- perform Now ;;
                   perform (DB (AddShowSeason
                     (mkSeasonParams ("Season " +:+ Itoa season) "" "" season "" 0 0 ""
                        (si_ScraperName (sea_ScraperInfo seasonData))
                        (si_ScraperData (sea_ScraperInfo seasonData))
                        (si_ScraperID (sea_ScraperInfo seasonData))
                        (si_ScraperLink (sea_ScraperInfo seasonData))
                        now (-1) idshow))) ;;
                   Ret (seasons ++ [season])
               end
             else Ret seasons) ;;
          '(epData, err) <- perform (Provider provider (GetTVSEpisode season episode)) ;;
          match err with
          | None =>
              logf LTrace logF "add episode: %d for season: %d" [AInt episode; AInt season] ;;
              now <- perform Now ;;
              added <- perform (DB (AddShowEpisode
                (mkAddShowEpisodeParams (ep_Title epData) (ep_Overview epData)
                   (ep_Icon epData) (ep_Premiered epData) (ep_Rating epData)
                   season episode
                   (si_ScraperName (ep_ScraperInfo epData))
                   (si_ScraperID (ep_ScraperInfo epData))
                   (si_ScraperData (ep_ScraperInfo epData))
                   (si_ScraperLink (ep_ScraperInfo epData))
                   now (-1) idshow))) ;;
              registerEpisodeFile t logF p added ;;
              Ret seasons
          | Some _ =>
              if t_AddUnknown t then
                logm LWarn logF ("no data found for s" +:+ Itoa season +:+ "e"
                                 +:+ Itoa episode +:+ ", adding empty val") ;;
                now <- perform Now ;;
                added <- perform (DB (AddShowEpisode
                  (mkAddShowEpisodeParams filename "" "" 0 0 season episode
                     "" "" "" "" now (-1) idshow))) ;;
                registerEpisodeFile t logF p added ;;
                Ret seasons
              else
                logm LWarn logF ("no data found for s" +:+ Itoa season +:+ "e"
                                 +:+ Itoa episode) ;;
                Ret seasons
          end
      | None =>
          logm LWarn logF ("unable to extract season/episode info for: " +:+ filename) ;;
          Ret seasons
      end
  end.

(** [updateTVSEpisodes]: update tvs seasons and episodes metadata.
    [ListFiles] (of this package) and [file.IsVideo] are calls to the
    environment. *)
Definition updateTVSEpisodes `{Runtime} (t : TVSScraper) (data : ListShowRow)
  : Prog (option error) :=
  let logF := fields_tvs "updateTVSEpisodes" (AStr (row_Title data)) in
  let tvsPath := filepath_Join (t_LibPath t) (row_Path data) in
  logf LTrace logF "processing episodes in: %s" [AStr tvsPath] ;;
  match getProviderFromName t (row_ScraperName data) with
  | inr e => Ret (Some e)
  | inl provider =>
  perform (Provider provider (Configure (row_ScraperID data) (row_ScraperData data))) ;;
  '(seasons, err) <- updateTVSSeasons t provider (row_ID data) ;;
  match err with
  | Some e => Ret (Some e)
  | None =>
  files <- perform (ListFiles tvsPath true) ;;
  fold_each files seasons (fun seasons i =>
    logf LTrace logF "processing episode: %s" [AStr i] ;;
    let p := filepath_Join (row_Path data) i in
    isVideo <- perform (IsVideo p) ;;
    if isVideo then updateTVSEpisode t provider seasons p (row_ID data)
    else Ret seasons) ;;
  Ret None
  end end.

(** ** Scan orchestrator *)

(** The reconciliation of one folder in [processItemScan], up to the
    error it ends with: an existing show is searched again or refreshed
    when its update mode allows, a new one is added; the episodes follow
    when a provider is bound. *)
Definition reconcileItem `{Runtime} (t : TVSScraper) (i : DirEntry)
    (tvsPaths : list string) (tvsData : list ListShowRow) : Prog (option error) :=
  let currentShow := Index tvsPaths (de_Name i) in
  let logF := fields_tvs "Scan" (AStr (de_Name i)) in
  logf LDebug logF "processing tvs: %q" [AStr (de_Name i)] ;;
  '(data, err) <-
     (if -1 <? currentShow then
        logm LTrace logF "tvs already in database" ;;
        data <- lift (slice_index tvsData currentShow) ;;
        if 0 <? row_UpdateMode data then
          if String.eqb (row_ScraperID data) "" || String.eqb (row_ScraperName data) ""
             || String.eqb (row_ScraperName data) " "
          then logm LTrace logF "add tvs" ;; addTVS t data
          else logm LTrace logF "update tvs" ;; updateTVS t data
        else
          logm LTrace logF "no update needed" ;; Ret (data, None)
      else
        logm LTrace logF ("new tvs: " +:+ de_Name i) ;;
        addTVS t (set_Title ListShowRow_zero (de_Name i))) ;;
  if bool_decide (err = None) && negb (String.eqb (row_ScraperID data) "") then
    logm LTrace logF "update episodes" ;;
    updateTVSEpisodes t data
  else Ret err.

(** [processItemScan]: process one entry found at the root of the
    library, i.e. one tv show; only the folders are kept, and the error of
    the reconciliation goes to the log. *)
Definition processItemScan `{Runtime} (t : TVSScraper) (i : DirEntry)
    (tvsPaths : list string) (tvsData : list ListShowRow) : Prog unit :=
  if de_IsDir i then
    err <- reconcileItem t i tvsPaths tvsData ;;
    match err with
    | Some e => logm LError (fields_tvs "Scan" (AStr (de_Name i))) e
    | None => Ret tt
    end
  else Ret tt.

(** The body of the goroutine [Scan] starts for an entry:
    [processItemScan], then [sem.Release(1)], then the deferred
    [wg.Done()]. *)
Definition goroutine `{Runtime} (args : GoArgs) : Prog unit :=
  let '(t, i, tvsPaths, tvsData) := args in
  processItemScan t i tvsPaths tvsData ;;
  sync (SemRelease 1) ;;
  sync WgDone.

Definition set_scan (t : TVSScraper) (idlib : Z) (conf : ScraperScanConfig) : TVSScraper :=
  mkTVSScraper (t_MediaType t) idlib (t_LibPath t) (AutoAdd conf) (AddUnknown conf)
    (t_Providers t) (t_ProviderNames t) (t_RegexSeason t) (t_RegexEpisode t).

Definition set_LibPath (t : TVSScraper) (path : string) : TVSScraper :=
  mkTVSScraper (t_MediaType t) (t_IDLib t) path (t_AutoAdd t) (t_AddUnknown t)
    (t_Providers t) (t_ProviderNames t) (t_RegexSeason t) (t_RegexEpisode t).

(** The loop of the concurrent branch of [Scan]. *)
Definition spawn_all (t : TVSScraper) (items : list DirEntry)
    (tvsPaths : list string) (tvsData : list ListShowRow) : Prog unit :=
  for_each items (fun i =>
    sync (WgAdd 1) ;;
    sync (SemAcquire 1) ;;
    sync (Go (t, i, tvsPaths, tvsData))).

(** The second half of [Scan]: the entries one after the other below two
    concurrent scans, else one goroutine per entry, let in by the
    semaphore and awaited through the wait group. *)
Definition Scan_entries `{Runtime} (t : TVSScraper) (conf : ScraperScanConfig)
    (items : list DirEntry) (tvsPaths : list string) (tvsData : list ListShowRow)
  : Prog unit :=
  if MaxConcurrentScans conf <? 2 then
    for_each items (fun i => processItemScan t i tvsPaths tvsData)
  else
    sync (SemNew (MaxConcurrentScans conf)) ;;
    spawn_all t items tvsPaths tvsData ;;
    sync WgWait.

(** [Scan] of the TV-show scraper.  The receiver is a pointer: the scraper
    as the call leaves it is returned with the error. *)
Definition Scan `{Runtime} (t : TVSScraper) (idlib : Z) (conf : ScraperScanConfig)
  : Prog (TVSScraper * option error) :=
  let t := set_scan t idlib conf in
  '(lib, err) <- perform (DB (GetLibrary (t_IDLib t))) ;;
  match err with
  | Some e => Ret (t, Some ("unable to retreive library path: " +:+ e))
  | None =>
  let t := set_LibPath t (lib_Path lib) in
  '(tvsData, err) <- perform (DB (ListShow 0)) ;;
  match err with
  | Some e => Ret (t, Some e)
  | None =>
  let tvsPaths := map row_Path tvsData in
  '(items, err) <- perform (ReadDir (t_LibPath t)) ;;
  match err with
  | Some e => Ret (t, Some e)
  | None =>
  Scan_entries t conf items tvsPaths tvsData ;;
  Ret (t, None)
  end end end.

(** [StartScan] *)
Definition StartScan `{Runtime} (mediaType : MediaType) (lib : Z) (conf : ScraperScanConfig)
  : Prog (option error) :=
  match mediaType with
  | MediaTypeTvs =>
      if lib =? 0 then Ret (Some "library id is required for tvshow scan")
      else
        tv <- NewTVSScraper ;;
        '(_, err) <- Scan tv lib conf ;;
        Ret err
  | _ => Ret (Some "unsupported media type")
  end.

(** ** Running a program *)

(** A call together with the answer it got. *)
Definition event : Type := { c : call & resp c }.
Definition Ev (c : call) (r : resp c) : event := existT c r.

(** The history of a run, oldest event first. *)
Definition trace : Type := list event.

(** The world outside: it answers a call knowing everything that happened
    before. *)
Definition environment : Type := forall c : call, trace -> resp c.

Inductive outcome (A : Type) : Type :=
| Done (a : A) (w : trace)
| Panicked (msg : string) (w : trace)
| Blocked (s : sync_op) (w : trace).
Arguments Done {A} a w.
Arguments Panicked {A} msg w.
Arguments Blocked {A} s w.

(** Sequential execution.  It stops at the first synchronisation: those
    are run by [step] below. *)
Fixpoint run {A} (h : environment) (p : Prog A) (w : trace) : outcome A :=
  match p with
  | Ret a => Done a w
  | Panic msg => Panicked msg w
  | Op c k => let r := h c w in run h (k r) (w ++ [Ev c r])
  | Sync s _ => Blocked s w
  end.

(** [emits p Q]: whatever the environment answers, [p] returns without
    panic or synchronisation, and the events [tr] of its calls and the
    value [a] it returns satisfy [Q tr a]. *)
Fixpoint emits {A} (p : Prog A) (Q : trace -> A -> Prop) : Prop :=
  match p with
  | Ret a => Q [] a
  | Panic _ => False
  | Op c k => forall r : resp c, emits (k r) (fun tr a => Q (Ev c r :: tr) a)
  | Sync _ _ => False
  end.

(** ** The concurrent scan as a transition system *)

(** The state of a scan with goroutines: the code left to run in the
    calling goroutine and in each goroutine started, the semaphore (its
    size and what is acquired of it), the counter of the wait group and
    the history. *)
Record Config (R : Type) : Type := mkConfig {
  cf_main : Prog R;
  cf_workers : list (Prog unit);
  cf_sem_size : Z;
  cf_sem_cur : Z;
  cf_wg : Z;
  cf_trace : trace
}.
Arguments mkConfig {R}.
Arguments cf_main {R}.
Arguments cf_workers {R}.
Arguments cf_sem_size {R}.
Arguments cf_sem_cur {R}.
Arguments cf_wg {R}.
Arguments cf_trace {R}.

(** The shared state after a synchronisation operation; [None] while the
    operation has to wait ([Acquire] until the semaphore has room, [Wait]
    until the counter is zero) and where Go panics (a release of more
    than is held, a negative counter).  The last component is the code
    of the goroutine a [go] statement starts. *)
Definition sync_effect `{Runtime} (s : sync_op) (size cur wg : Z)
  : option (Z * Z * Z * option (Prog unit)) :=
  match s with
  | SemNew n => Some (n, 0, wg, None)
  | SemAcquire n => if cur + n <=? size then Some (size, cur + n, wg, None) else None
  | SemRelease n => if 0 <=? cur - n then Some (size, cur - n, wg, None) else None
  | WgAdd n => if 0 <=? wg + n then Some (size, cur, wg + n, None) else None
  | WgDone => if 0 <=? wg - 1 then Some (size, cur, wg - 1, None) else None
  | WgWait => if wg =? 0 then Some (size, cur, wg, None) else None
  | Go args => Some (size, cur, wg, Some (goroutine args))
  end.

Definition spawn (ws : list (Prog unit)) (g : option (Prog unit)) : list (Prog unit) :=
  match g with
  | Some p => ws ++ [p]
  | None => ws
  end.

(** One step of a piece of code [p] in the shared state of [cf]: the code
    left, and the shared state after the step.  Code that has returned
    takes no step, nor does code that has panicked: a panic ends the
    process (the goroutines of a scan do not panic, as is shown below). *)
Definition thread_step `{Runtime} {R A : Type} (h : environment) (p : Prog A) (cf : Config R)
  : option (Prog A * (option (Prog unit) * Z * Z * Z * trace)) :=
  match p with
  | Ret _ => None
  | Panic _ => None
  | Op c k =>
      let r := h c (cf_trace cf) in
      Some (k r, (None, cf_sem_size cf, cf_sem_cur cf, cf_wg cf, cf_trace cf ++ [Ev c r]))
  | Sync s k =>
      match sync_effect s (cf_sem_size cf) (cf_sem_cur cf) (cf_wg cf) with
      | Some (size, cur, wg, g) => Some (k, (g, size, cur, wg, cf_trace cf))
      | None => None
      end
  end.

(** A step of the calling goroutine. *)
Definition main_step `{Runtime} {R : Type} (h : environment) (cf : Config R) : option (Config R) :=
  match thread_step h (cf_main cf) cf with
  | Some (m, (g, size, cur, wg, w)) =>
      Some (mkConfig m (spawn (cf_workers cf) g) size cur wg w)
  | None => None
  end.

(** A step of the [j]-th goroutine started. *)
Definition worker_step `{Runtime} {R : Type} (h : environment) (j : nat) (cf : Config R)
  : option (Config R) :=
  match cf_workers cf !! j with
  | Some p =>
      match thread_step h p cf with
      | Some (p', (g, size, cur, wg, w)) =>
          Some (mkConfig (cf_main cf) (spawn (<[j := p']> (cf_workers cf)) g) size cur wg w)
      | None => None
      end
  | None => None
  end.

(** One step of one goroutine, any of them. *)
Inductive step `{Runtime} {R : Type} (h : environment) (cf cf' : Config R) : Prop :=
| step_main : main_step h cf = Some cf' -> step h cf cf'
| step_worker (j : nat) : worker_step h j cf = Some cf' -> step h cf cf'.

(** Any number of steps. *)
Inductive steps `{Runtime} {R : Type} (h : environment) : Config R -> Config R -> Prop :=
| steps_refl cf : steps h cf cf
| steps_more cf1 cf2 cf3 : steps h cf1 cf2 -> step h cf2 cf3 -> steps h cf1 cf3.

(** ** Vocabulary of the specification *)

(** The candidates [SelectBestItem] chooses among. *)
Definition considered `{Runtime} (items : list SearchData) (year : Z) : list SearchData :=
  if 0 <? year then filter (fun i => unix_year (sd_Premiered i) = year) items else items.

(** A program that returns whatever the environment answers: it neither
    panics nor waits for another goroutine. *)
Definition returns {A} (p : Prog A) : Prop := emits p (fun _ _ => True).

(** The tokens of a file name (section 4.2): an [S], case folded, a
    number, an [E], and the episode number after it. *)
Definition s_token (x : string) : Prop :=
  x = "s" \/ x = "S" \/ x = String (ascii_of_N 197) (String (ascii_of_N 191) "").

Definition e_token (x : string) : Prop := x = "e" \/ x = "E".

Definition number (d : string) : Prop := d <> "" /\ all_digits d = true.

Definition has_season_episode_token (filename : string) : Prop :=
  exists pre s d1 e d2 post,
    filename = pre +:+ s +:+ d1 +:+ e +:+ d2 +:+ post
    /\ s_token s /\ number d1 /\ e_token e /\ number d2.

(** Calls that create a catalog entry for a season, an episode or a
    video file. *)
Definition creates_entry (c : call) : bool :=
  match c with
  | DB (AddShowSeason _) => true
  | DB (AddShowEpisode _) => true
  | AddVideoFile _ _ _ _ _ => true
  | _ => false
  end.

(** The five store writes of the selection applier, in order. *)
Definition applier_calls (id : Z) (selection : SelectionResult) : list call :=
  [ DB (UpdateShow (mkUpdateShowParams "" "" "" "" "" "" 0 0
          (sel_ScraperName selection) (sel_ScraperID selection)
          "" (sel_ScraperData selection) 0 id 1));
    DB (UpdateShowAllSeasons (mkUpdateShowAllParams id " " "0" 1));
    DB (UpdateShowAllEpisodes (mkUpdateShowAllParams id " " "0" 1));
    DB (DeleteAllTagLinks (mkMediaKey MediaTypeTvs id));
    DB (DeleteAllPersonLinks (mkMediaKey MediaTypeTvs id)) ].

(** The error a store write came back with. *)
Definition write_error (e : event) : option error :=
  match e with
  | existT c r =>
      match c return resp c -> option error with
      | DB q =>
          match q return query_resp q -> option error with
          | UpdateShow _ => fun r => r
          | UpdateShowAllSeasons _ => fun r => r
          | UpdateShowAllEpisodes _ => fun r => r
          | DeleteAllTagLinks _ => fun r => r
          | DeleteAllPersonLinks _ => fun r => r
          | DeleteMultipleResultsByMedia _ => fun r => r
          | _ => fun _ => None
          end
      | _ => fun _ => None
      end r
  end.

(** The call of an event. *)
Definition call_of (e : event) : call := projT1 e.

(** What a run of the selection applier looks like: it made the first
    [k] of its five writes, in order; all but the last one succeeded, and
    the answer of the last one is the result; a result of success means
    all five were made. *)
Definition applier_outcome (id : Z) (selection : SelectionResult)
    (tr : trace) (ret : option error) : Prop :=
  exists k : nat,
    (1 <= k <= 5)%nat
    /\ map call_of tr = take k (applier_calls id selection)
    /\ map write_error tr = replicate (k - 1) None ++ [ret]
    /\ (ret = None -> k = 5%nat).

(** A scraper as [loadTVSPlugins] leaves it: every provider name has its
    provider, and the patterns are the two of [NewTVSScraper]. *)
Definition loaded (t : TVSScraper) : Prop :=
  (forall name, name ∈ t_ProviderNames t -> is_Some (t_Providers t !! name))
  /\ t_RegexSeason t = SeasonPattern /\ t_RegexEpisode t = EpisodePattern.

(** ** A runtime and environments to compute examples with *)

(** The year of a Unix time in UTC (proleptic Gregorian calendar). *)
Definition utc_year (sec : Z) : Z :=
  let z := sec / 86400 + 719468 in
  let era := z / 146097 in
  let doe := z - era * 146097 in
  let yoe := (doe - doe / 1460 + doe / 36524 - doe / 146096) / 365 in
  let doy := doe - (365 * yoe + yoe / 4 - yoe / 100) in
  let mp := (5 * doy + 2) / 153 in
  yoe + era * 400 + (if mp <? 10 then 0 else 1).

(** A runtime for examples: a process in UTC, a scorer that gives 100 to
    an identical title and 0 to any other, and a JSON codec that knows
    the batch of one candidate below and the empty settings. *)
Definition example_candidate : SearchData :=
  mkSearchData "Dark" "tmdb" "70523" "" 1512086400.

Definition example_runtime : Runtime := {|
  fuzzy_score := fun q c => if String.eqb q c then 100 else 0;
  unix_year := utc_year;
  json_Marshal := fun l => ("[]", None);
  json_Unmarshal_batch := fun s =>
    if String.eqb s "[Dark]" then ([example_candidate], None)
    else ([], Some "unexpected end of JSON input");
  json_Unmarshal_settings := fun s => (∅, None);
  filepath_Join := fun a b => a +:+ "/" +:+ b
|}.

Definition quiet_query (q : query) : query_resp q :=
  match q with
  | GetLibrary _ => (mkLibrary "/lib", None)
  | ListShow _ => ([], None)
  | AddShow _ => (1, None)
  | UpdateShow _ => None
  | UpdateShowAllSeasons _ => None
  | UpdateShowAllEpisodes _ => None
  | DeleteAllTagLinks _ => None
  | DeleteAllPersonLinks _ => None
  | ListShowSeason _ _ => ([], None)
  | UpdateShowSeason _ => None
  | AddShowSeason _ => None
  | GetVideoFileFromPath _ _ => (mkVideoFileRow 0, Some "sql: no rows in result set")
  | GetShowEpisode _ _ => (mkShowEpisodeRow 0 0 0 0, Some "sql: no rows in result set")
  | UpdateShowEpisode _ => None
  | AddShowEpisode _ => (1, None)
  | GetMultipleResultsByMedia _ => (mkMultipleResultsRow "[Dark]", None)
  | DeleteMultipleResultsByMedia _ => None
  | AddMultipleResultsQ _ => None
  | GetTagByValue _ _ => (mkTagRow 0 "", Some "sql: no rows in result set")
  | AddTagQ _ _ _ => (1, None)
  | AddTagLink _ _ => None
  | GetPersonByName _ => (mkPersonRow 0 "", Some "sql: no rows in result set")
  | AddPersonQ _ => (1, None)
  | AddPersonLink _ _ => None
  | ListScraperForType _ => ([], None)
  end.

Definition quiet_provider (m : provider_call) : provider_resp m :=
  match m with
  | Setup _ => tt
  | SearchTVS _ => ([], None)
  | Configure _ _ => tt
  | GetTVS => (mkTVSData "" "" "" "" "" "" 0 0 (mkScraperInfo "" "" "" ""), Some "not found")
  | GetTVSSeason _ =>
      (mkTVSSeasonData "" "" "" "" 0 0 "" (mkScraperInfo "" "" "" ""), Some "not found")
  | GetTVSEpisode _ _ =>
      (mkTVSEpisodeData "" "" "" 0 0 (mkScraperInfo "" "" "" ""), Some "not found")
  | ListTVSTag => ([], None)
  | ListTVSPerson => ([], None)
  end.

(** An environment with an empty catalog, one stored batch, no plugin and
    providers that find nothing: every store write succeeds. *)
Definition quiet_env : environment := fun c _ =>
  match c with
  | DB q => quiet_query q
  | Provider _ m => quiet_provider m
  | LoadPlugin _ _ => (NotAFactory, Some "plugin not found")
  | CallFactory f => f
  | ReadDir _ => ([], None)
  | ListFiles _ _ => []
  | IsVideo _ => false
  | UpdateVideoFile _ _ => None
  | AddVideoFile _ _ _ _ _ => (1, None)
  | Now => 1700000000
  | Log _ => tt
  end.

(** The same environment with one folder at the root of the library. *)
Definition one_folder_env : environment := fun c w =>
  match c with
  | ReadDir _ => ([mkDirEntry "Foo" true], None)
  | c' => quiet_env c' w
  end.

(** The same environment with providers that find the example candidate. *)
Definition dark_env : environment := fun c w =>
  match c with
  | Provider _ (SearchTVS _) => ([example_candidate], None)
  | c' => quiet_env c' w
  end.

(** The scraper [NewTVSScraper] builds when no plugin is enabled. *)
Definition bare_scraper : TVSScraper :=
  mkTVSScraper MediaTypeTvs 0 "" false true ∅ [] SeasonPattern EpisodePattern.

(** A scraper with one provider, set to select automatically. *)
Definition tmdb_scraper : TVSScraper :=
  mkTVSScraper MediaTypeTvs 1 "/lib" true true {[ "tmdb" := 7 ]} ["tmdb"]
    SeasonPattern EpisodePattern.

(** Calls that create a show row. *)
Definition is_AddShow (c : call) : bool :=
  match c with
  | DB (AddShow _) => true
  | _ => false
  end.

(** ** Vocabulary of the scan *)

(** The calls of the three steps of [Scan] that come before the entries:
    library lookup, catalog show-list read, directory listing. *)
Definition prescan_call (c : call) : bool :=
  match c with
  | DB (GetLibrary _) => true
  | DB (ListShow _) => true
  | ReadDir _ => true
  | _ => false
  end.

(** These three steps as the environment answers them from the history
    [w]: the history after them, the scraper as they leave it, and the
    error of the first step that failed or else the shows and the
    entries they read. *)
Definition prescan (h : environment) (t : TVSScraper) (idlib : Z) (conf : ScraperScanConfig)
    (w : trace) : trace * TVSScraper * (error + (list ListShowRow * list DirEntry)) :=
  let t0 := set_scan t idlib conf in
  let r1 := h (DB (GetLibrary idlib)) w in
  let w1 := w ++ [Ev (DB (GetLibrary idlib)) r1] in
  match snd r1 with
  | Some e => (w1, t0, inl ("unable to retreive library path: " +:+ e))
  | None =>
      let t1 := set_LibPath t0 (lib_Path (fst r1)) in
      let r2 := h (DB (ListShow 0)) w1 in
      let w2 := w1 ++ [Ev (DB (ListShow 0)) r2] in
      match snd r2 with
      | Some e => (w2, t1, inl e)
      | None =>
          let r3 := h (ReadDir (lib_Path (fst r1))) w2 in
          let w3 := w2 ++ [Ev (ReadDir (lib_Path (fst r1))) r3] in
          match snd r3 with
          | Some e => (w3, t1, inl e)
          | None => (w3, t1, inr (fst r2, fst r3))
          end
      end
  end.

(** The entries one after the other, each on the history the one before
    left. *)
Fixpoint in_listing_order `{Runtime} (h : environment) (t : TVSScraper)
    (tvsPaths : list string) (tvsData : list ListShowRow)
    (items : list DirEntry) (w : trace) : outcome unit :=
  match items with
  | [] => Done tt w
  | i :: rest =>
      match run h (processItemScan t i tvsPaths tvsData) w with
      | Done _ w' => in_listing_order h t tvsPaths tvsData rest w'
      | o => o
      end
  end.

(** The state a scan starts from: no goroutine started, no semaphore, a
    wait group at zero. *)
Definition start {R} (p : Prog R) (w : trace) : Config R := mkConfig p [] 0 0 0 w.

(** [residual p q]: [q] is what is left of the code [p] after some of
    its steps. *)
Inductive residual {A : Type} : Prog A -> Prog A -> Prop :=
| residual_here p : residual p p
| residual_op c k r q : residual (k r) q -> residual (Op c k) q
| residual_sync s k q : residual k q -> residual (Sync s k) q.

(** [q] is what one step leaves of [p]. *)
Definition thread_succ {A : Type} (q p : Prog A) : Prop :=
  match p with
  | Op c k => exists r, q = k r
  | Sync _ k => q = k
  | _ => False
  end.

(** A goroutine of the scan is in flight from its start until it has
    released the semaphore: its code is neither the deferred [wg.Done()]
    nor finished. *)
Definition in_flight (p : Prog unit) : bool :=
  match p with
  | Ret _ => false
  | Sync WgDone _ => false
  | _ => true
  end.

Definition unfinished (p : Prog unit) : bool :=
  match p with
  | Ret _ => false
  | _ => true
  end.

(** How many of the goroutines satisfy [f]. *)
Fixpoint tally (f : Prog unit -> bool) (ws : list (Prog unit)) : Z :=
  match ws with
  | [] => 0
  | p :: rest => (if f p then 1 else 0) + tally f rest
  end.

(** Where the calling goroutine stands in the concurrent branch of
    [Scan]: at the head of the loop with entries left, between
    [wg.Add(1)] and [sem.Acquire], between [sem.Acquire] and the [go]
    statement, or past [wg.Wait()]. *)
Inductive phase : Type :=
| AtLoop (rest : list DirEntry)
| AtAcquire (i : DirEntry) (rest : list DirEntry)
| AtGo (i : DirEntry) (rest : list DirEntry)
| AtEnd.

Section concurrent_scan.
Context `{Runtime} {R : Type}.
Variables (t : TVSScraper) (tvsPaths : list string) (tvsData : list ListShowRow) (r : R).

(** The code of the calling goroutine from the head of the loop on. *)
Definition main_loop (rest : list DirEntry) : Prog R :=
  bind (bind (spawn_all t rest tvsPaths tvsData) (fun _ => sync WgWait)) (fun _ => Ret r).

Definition main_code (ph : phase) : Prog R :=
  match ph with
  | AtLoop rest => main_loop rest
  | AtAcquire i rest =>
      Sync (SemAcquire 1) (Sync (Go (t, i, tvsPaths, tvsData)) (main_loop rest))
  | AtGo i rest => Sync (Go (t, i, tvsPaths, tvsData)) (main_loop rest)
  | AtEnd => Ret r
  end.

(** The entries the calling goroutine has not started a goroutine for. *)
Definition to_start (ph : phase) : list DirEntry :=
  match ph with
  | AtLoop rest => rest
  | AtAcquire i rest => i :: rest
  | AtGo i rest => i :: rest
  | AtEnd => []
  end.

(** What the calling goroutine holds on behalf of a goroutine it has not
    started yet: a count of the wait group, a slot of the semaphore. *)
Definition wg_ahead (ph : phase) : Z :=
  match ph with
  | AtAcquire _ _ => 1
  | AtGo _ _ => 1
  | _ => 0
  end.

Definition sem_ahead (ph : phase) : Z :=
  match ph with
  | AtGo _ _ => 1
  | _ => 0
  end.

(** The steps the calling goroutine has left. *)
Definition steps_left (ph : phase) : nat :=
  match ph with
  | AtLoop rest => 3 * length rest + 1
  | AtAcquire _ rest => 3 * length rest + 3
  | AtGo _ rest => 3 * length rest + 2
  | AtEnd => 0
  end.

(** The end of a goroutine: [sem.Release(1)], then the deferred
    [wg.Done()]. *)
Definition release_done : unit -> Prog unit :=
  fun _ => Sync (SemRelease 1) (Sync WgDone (Ret tt)).

(** The code of the goroutine of entry [i] at some point of its life: in
    [processItemScan], about to release the semaphore, about to count
    down the wait group, or finished. *)
Definition goroutine_of (i : DirEntry) (p : Prog unit) : Prop :=
  residual (goroutine (t, i, tvsPaths, tvsData)) p
  /\ ((exists q : Prog unit, returns q /\ p = bind q release_done)
      \/ p = Sync WgDone (Ret tt)
      \/ p = Ret tt).

(** The invariant of the concurrent branch over the entries [items] with
    at most [n] goroutines let in at a time, the calling goroutine
    being at [ph]. *)
Definition scan_inv_at (n : Z) (items : list DirEntry) (ph : phase) (cf : Config R) : Prop :=
  exists started : list DirEntry,
    items = started ++ to_start ph
    /\ cf_main cf = main_code ph
    /\ Forall2 goroutine_of started (cf_workers cf)
    /\ cf_sem_size cf = n
    /\ cf_sem_cur cf = tally in_flight (cf_workers cf) + sem_ahead ph
    /\ cf_sem_cur cf <= n
    /\ cf_wg cf = tally unfinished (cf_workers cf) + wg_ahead ph
    /\ (ph = AtEnd -> cf_wg cf = 0).

Definition scan_inv (n : Z) (items : list DirEntry) (cf : Config R) : Prop :=
  exists ph, scan_inv_at n items ph cf.

End concurrent_scan.

(** One of the goroutines takes a step, the others stay. *)
Definition pool_succ (ws' ws : list (Prog unit)) : Prop :=
  exists j p p', ws !! j = Some p /\ thread_succ p' p /\ ws' = <[j := p']> ws.

(** ** Reading a history *)

(** A history whose calls all satisfy [good]. *)
Definition only (good : call -> bool) (tr : trace) : Prop :=
  Forall (fun e => good (call_of e) = true) tr.

(** A program that returns whatever the environment answers, having made
    no call but such as satisfy [good]. *)
Definition calls_only {A} (good : call -> bool) (p : Prog A) : Prop :=
  emits p (fun tr _ => only good tr).

(** What [f] reads off the events of a history, in order. *)
Definition collect {A} (f : event -> list A) (tr : trace) : list A :=
  concat (map f tr).

Definition is_log (c : call) : bool :=
  match c with
  | Log _ => true
  | _ => false
  end.

(** Calls that bind a show to a provider or purge what hangs on a
    binding: the writes of the selection applier (its [UpdateShow] is the
    one that carries a positive update mode). *)
Definition rebinds (c : call) : bool :=
  match c with
  | DB (UpdateShow p) => 0 <? us_UpdateMode p
  | DB (UpdateShowAllSeasons _) => true
  | DB (UpdateShowAllEpisodes _) => true
  | DB (DeleteAllTagLinks _) => true
  | DB (DeleteAllPersonLinks _) => true
  | _ => false
  end.

(** Calls of a search for a show: the provider search and what [addTVS]
    does with its candidates. *)
Definition searches_show (c : call) : bool :=
  match c with
  | Provider _ (SearchTVS _) => true
  | DB (AddShow _) => true
  | DB (DeleteMultipleResultsByMedia _) => true
  | DB (AddMultipleResultsQ _) => true
  | _ => false
  end.

(** Calls that read or write the metadata of the show itself, its
    binding, its candidates, its tags or its people. *)
Definition touches_show (c : call) : bool :=
  match c with
  | DB (AddShow _) => true
  | DB (UpdateShow _) => true
  | DB (GetTagByValue _ _) => true
  | DB (AddTagQ _ _ _) => true
  | DB (AddTagLink _ _) => true
  | DB (GetPersonByName _) => true
  | DB (AddPersonQ _) => true
  | DB (AddPersonLink _ _) => true
  | Provider _ GetTVS => true
  | Provider _ ListTVSTag => true
  | Provider _ ListTVSPerson => true
  | c' => rebinds c' || searches_show c'
  end.

(** The error a query came back with; [None] is success. *)
Definition query_error (q : query) : query_resp q -> option error :=
  match q return query_resp q -> option error with
  | GetLibrary _ => fun r => snd r
  | ListShow _ => fun r => snd r
  | AddShow _ => fun r => snd r
  | UpdateShow _ => fun r => r
  | UpdateShowAllSeasons _ => fun r => r
  | UpdateShowAllEpisodes _ => fun r => r
  | DeleteAllTagLinks _ => fun r => r
  | DeleteAllPersonLinks _ => fun r => r
  | ListShowSeason _ _ => fun r => snd r
  | UpdateShowSeason _ => fun r => r
  | AddShowSeason _ => fun r => r
  | GetVideoFileFromPath _ _ => fun r => snd r
  | GetShowEpisode _ _ => fun r => snd r
  | UpdateShowEpisode _ => fun r => r
  | AddShowEpisode _ => fun r => snd r
  | GetMultipleResultsByMedia _ => fun r => snd r
  | DeleteMultipleResultsByMedia _ => fun r => r
  | AddMultipleResultsQ _ => fun r => r
  | GetTagByValue _ _ => fun r => snd r
  | AddTagQ _ _ _ => fun r => snd r
  | AddTagLink _ _ => fun r => r
  | GetPersonByName _ => fun r => snd r
  | AddPersonQ _ => fun r => snd r
  | AddPersonLink _ _ => fun r => r
  | ListScraperForType _ => fun r => snd r
  end.

(** The error a call came back with; [None] for success and for the calls
    that return no error. *)
Definition event_error (e : event) : option error :=
  match e with
  | existT c r =>
      match c return resp c -> option error with
      | DB q => query_error q
      | Provider _ m =>
          match m return provider_resp m -> option error with
          | SearchTVS _ => fun r => snd r
          | GetTVS => fun r => snd r
          | GetTVSSeason _ => fun r => snd r
          | GetTVSEpisode _ _ => fun r => snd r
          | ListTVSTag => fun r => snd r
          | ListTVSPerson => fun r => snd r
          | _ => fun _ => None
          end
      | LoadPlugin _ _ => fun r => snd r
      | ReadDir _ => fun r => snd r
      | UpdateVideoFile _ _ => fun r => r
      | AddVideoFile _ _ _ _ _ => fun r => snd r
      | _ => fun _ => None
      end r
  end.

(** Store calls that write. *)
Definition store_write (c : call) : bool :=
  match c with
  | DB (GetLibrary _) => false
  | DB (ListShow _) => false
  | DB (ListShowSeason _ _) => false
  | DB (GetVideoFileFromPath _ _) => false
  | DB (GetShowEpisode _ _) => false
  | DB (GetMultipleResultsByMedia _) => false
  | DB (GetTagByValue _ _) => false
  | DB (GetPersonByName _) => false
  | DB (ListScraperForType _) => false
  | DB _ => true
  | _ => false
  end.

(** The candidates a provider search came back with; none when it failed. *)
Definition search_results_of (e : event) : list SearchData :=
  match e with
  | existT c r =>
      match c return resp c -> list SearchData with
      | Provider _ m =>
          match m return provider_resp m -> list SearchData with
          | SearchTVS _ => fun r => match snd r with None => fst r | Some _ => [] end
          | _ => fun _ => []
          end
      | _ => fun _ => []
      end r
  end.

(** The path of a plugin that loaded without error and is a provider
    factory. *)
Definition factory_of (e : event) : list string :=
  match e with
  | existT c r =>
      match c return resp c -> list string with
      | LoadPlugin _ path => fun r =>
          match r with
          | (Factory _, None) => [path]
          | _ => []
          end
      | _ => fun _ => []
      end r
  end.

(** The season numbers the store listed for a show. *)
Definition known_seasons_of (e : event) : list Z :=
  match e with
  | existT c r =>
      match c return resp c -> list Z with
      | DB q =>
          match q return query_resp q -> list Z with
          | ListShowSeason _ _ => fun r =>
              match snd r with None => map sr_Season (fst r) | Some _ => [] end
          | _ => fun _ => []
          end
      | _ => fun _ => []
      end r
  end.

(** The season number of a season row that is created, and of one that is
    rewritten. *)
Definition added_season_of (e : event) : list Z :=
  match call_of e with
  | DB (AddShowSeason p) => [ss_Season p]
  | _ => []
  end.

Definition updated_season_of (e : event) : list Z :=
  match call_of e with
  | DB (UpdateShowSeason p) => [ss_Season p]
  | _ => []
  end.

(** Season and episode number of an episode the provider has data for. *)
Definition provided_episode_of (e : event) : list (Z * Z) :=
  match e with
  | existT c r =>
      match c return resp c -> list (Z * Z) with
      | Provider _ m =>
          match m return provider_resp m -> list (Z * Z) with
          | GetTVSEpisode s ep => fun r =>
              match snd r with None => [(s, ep)] | Some _ => [] end
          | _ => fun _ => []
          end
      | _ => fun _ => []
      end r
  end.

(** Season and episode number of an episode row that is created. *)
Definition added_episode_of (e : event) : list (Z * Z) :=
  match call_of e with
  | DB (AddShowEpisode p) => [(ae_Season p, ae_Episode p)]
  | _ => []
  end.

(** The id the store gave an episode row it created. *)
Definition created_episode_id_of (e : event) : list Z :=
  match e with
  | existT c r =>
      match c return resp c -> list Z with
      | DB q =>
          match q return query_resp q -> list Z with
          | AddShowEpisode _ => fun r =>
              match snd r with None => [fst r] | Some _ => [] end
          | _ => fun _ => []
          end
      | _ => fun _ => []
      end r
  end.

(** The episode id a video file is registered for. *)
Definition registered_id_of (e : event) : list Z :=
  match call_of e with
  | AddVideoFile _ _ _ mediaData _ => [mediaData]
  | _ => []
  end.

(** The answer of a store write of the show row. *)
Definition show_written (id : Z) (tvsData : TVSData) (e : event) : Prop :=
  (exists now,
     call_of e = DB (UpdateShow
       (mkUpdateShowParams (tvs_Title tvsData) (tvs_Overview tvsData) (tvs_Icon tvsData)
          (tvs_Fanart tvsData) (tvs_Website tvsData) (tvs_Trailer tvsData)
          (tvs_Premiered tvsData) (tvs_Rating tvsData) "" ""
          (si_ScraperLink (tvs_ScraperInfo tvsData))
          (si_ScraperData (tvs_ScraperInfo tvsData))
          now id (-1))))
  /\ write_error e = None.

(** A scraper bound to a provider name the show can be refreshed with. *)
Definition bound (data : ListShowRow) : bool :=
  negb (String.eqb (row_ScraperID data) "" || String.eqb (row_ScraperName data) ""
        || String.eqb (row_ScraperName data) " ").

(** What a scraper is after [loadTVSPlugins] when it had no provider
    before: the providers are those of the plugins that loaded as a
    factory, under the names kept in order of preference. *)
Definition plugins_loaded (tr : trace) (t : TVSScraper) : Prop :=
  map (String.append "./plugins/scraper/") (t_ProviderNames t) = collect factory_of tr
  /\ (forall n, n ∈ t_ProviderNames t <-> is_Some (t_Providers t !! n))
  /\ t_IDLib t = 0 /\ t_AutoAdd t = false /\ t_AddUnknown t = true.

(** The four steps of [updateTVS] whose failure ends it. *)
Definition refresh_step (c : call) : bool :=
  match c with
  | Provider _ GetTVS => true
  | DB (UpdateShow _) => true
  | Provider _ ListTVSTag => true
  | Provider _ ListTVSPerson => true
  | _ => false
  end.

(** The provider asked for the candidates of a title. *)
Definition asks (t : TVSScraper) (title : string) (name : string) (e : event) : Prop :=
  exists prov, t_Providers t !! name = Some prov /\ call_of e = Provider prov (SearchTVS title).

(** Two rows of the same show under the same binding: id, path, update
    mode and the name and id of the provider agree. *)
Definition same_show (d data : ListShowRow) : Prop :=
  row_ID d = row_ID data /\ row_Path d = row_Path data
  /\ row_UpdateMode d = row_UpdateMode data
  /\ row_ScraperID d = row_ScraperID data /\ row_ScraperName d = row_ScraperName data.

(** A history none of whose store writes succeeded. *)
Definition nothing_written (tr : trace) : Prop :=
  Forall (fun e => store_write (call_of e) = true -> event_error e <> None) tr.

(** The calls of a search that stores its candidates: the provider
    searches, the clock, the creation of the show row, the replacement of
    the batch, and log lines. *)
Definition search_and_store (c : call) : bool :=
  match c with
  | Now => true
  | Log _ => true
  | c' => searches_show c'
  end.

(** The calls of the refresh of a season row: the read of the season
    from the provider, the clock, the rewrite of the row, and log lines. *)
Definition season_refresh (c : call) : bool :=
  match c with
  | Provider _ (GetTVSSeason _) => true
  | Now => true
  | DB (UpdateShowSeason _) => true
  | Log _ => true
  | _ => false
  end.

(** What the episodes pass of a show keeps to, whatever the environment
    answers: a season the store listed only once is not created again,
    and no season is created twice; a video file is registered only for
    an episode row the store has just created; when unknown episodes are
    not wanted, an episode row is created only with data the provider
    gave for that season and episode; and nothing of the show itself is
    touched. *)
Definition episodes_pass (t : TVSScraper) (tr : trace) : Prop :=
  (NoDup (collect known_seasons_of tr) ->
     NoDup (collect known_seasons_of tr ++ collect added_season_of tr))
  /\ collect registered_id_of tr `sublist_of` collect created_episode_id_of tr
  /\ (t_AddUnknown t = false ->
        collect added_episode_of tr `sublist_of` collect provided_episode_of tr)
  /\ only (fun c => negb (touches_show c)) tr.

(** The row of a video file the store found for a path. *)
Definition found_file_of (e : event) : list VideoFileRow :=
  match e with
  | existT c r =>
      match c return resp c -> list VideoFileRow with
      | DB q =>
          match q return query_resp q -> list VideoFileRow with
          | GetVideoFileFromPath _ _ => fun r =>
              match snd r with None => [fst r] | Some _ => [] end
          | _ => fun _ => []
          end
      | _ => fun _ => []
      end r
  end.

(** The answer of the store to the read of an episode row. *)
Definition episode_read_of (e : event) : list (goret ShowEpisodeRow) :=
  match e with
  | existT c r =>
      match c return resp c -> list (goret ShowEpisodeRow) with
      | DB q =>
          match q return query_resp q -> list (goret ShowEpisodeRow) with
          | GetShowEpisode _ _ => fun r => [r]
          | _ => fun _ => []
          end
      | _ => fun _ => []
      end r
  end.

(** Reads of the store, and log lines. *)
Definition looks_up (c : call) : bool :=
  match c with
  | DB q => negb (store_write (DB q))
  | Log _ => true
  | _ => false
  end.

(** The update mode a write carries: -1 on a season or an episode row
    and on a show row that is refreshed; 1 where the selection applier
    binds a show and resets its seasons and episodes. *)
Definition marks_done (c : call) : bool :=
  match c with
  | DB (UpdateShow p) => (us_UpdateMode p =? -1) || (us_UpdateMode p =? 1)
  | DB (UpdateShowAllSeasons p) => ua_UpdateMode p =? 1
  | DB (UpdateShowAllEpisodes p) => ua_UpdateMode p =? 1
  | DB (UpdateShowSeason p) => ss_UpdateMode p =? -1
  | DB (AddShowSeason p) => ss_UpdateMode p =? -1
  | DB (UpdateShowEpisode p) => ue_UpdateMode p =? -1
  | DB (AddShowEpisode p) => ae_UpdateMode p =? -1
  | _ => true
  end.

(** The write of the loop of [ListScraperConfiguration] for an enabled
    row: the settings it decodes to, stored under its provider. *)
Definition stored_settings `{Runtime} (config : gmap string (gmap string string))
    (r : ScraperRow) : gmap string (gmap string string) :=
  <[sc_Provider r := fst (json_Unmarshal_settings (sc_Settings r))]> config.



(** ** Errors and the log *)

(** The calls of an entry whose error the code looks at and reports:
    the creation of the show row, the read of the show, of its tags and of
    its people from the provider, the write of the show row by the refresh
    (update mode -1), the listing of the seasons, the read of a season and
    of an episode from the provider, the creation of an episode row and the
    registration of a video file.  The error of every other call is
    dropped or taken for an absence. *)
Definition reported_call (c : call) : bool :=
  match c with
  | DB (AddShow _) => true
  | DB (UpdateShow p) => negb (0 <? us_UpdateMode p)
  | DB (ListShowSeason _ _) => true
  | DB (AddShowEpisode _) => true
  | Provider _ GetTVS => true
  | Provider _ ListTVSTag => true
  | Provider _ ListTVSPerson => true
  | Provider _ (GetTVSSeason _) => true
  | Provider _ (GetTVSEpisode _ _) => true
  | AddVideoFile _ _ _ _ _ => true
  | _ => false
  end.

(** The error of such a call, when it failed. *)
Definition failure_of (e : event) : option error :=
  if reported_call (call_of e) then event_error e else None.

(** A log line at error level whose message is the error [e]. *)
Definition error_line (e : error) (ev : event) : bool :=
  match call_of ev with
  | Log l =>
      match log_level l with
      | LError => String.eqb (log_format l) e
      | _ => false
      end
  | _ => false
  end.

(** A log line at warning level. *)
Definition warning_line (ev : event) : bool :=
  match call_of ev with
  | Log l => match log_level l with LWarn => true | _ => false end
  | _ => false
  end.

Definition is_episode_read (c : call) : bool :=
  match c with
  | Provider _ (GetTVSEpisode _ _) => true
  | _ => false
  end.

(** The line [ev] reports the error [e] of the call [c]: it is an error
    line with that message or, for the read of an episode from the
    provider, a warning. *)
Definition reports (c : call) (e : error) (ev : event) : bool :=
  error_line e ev || (is_episode_read c && warning_line ev).

(** In the history [tr] of a piece of code that returns the error [ret],
    every call of [reported_call] that failed is followed at once by a
    line that reports its error, or is the last call and its error is the
    one returned. *)
Fixpoint reported (ret : option error) (tr : trace) : bool :=
  match tr with
  | [] => true
  | ev :: rest =>
      match failure_of ev with
      | None => reported ret rest
      | Some e =>
          match rest with
          | [] => match ret with Some e' => String.eqb e' e | None => false end
          | l :: _ => reports (call_of ev) e l && reported ret rest
          end
      end
  end.

(** A program that returns whatever the environment answers, with a
    history in which every failure is reported or returned; [f] reads the
    error off the value returned. *)
Definition reports_to {A} (f : A -> option error) (p : Prog A) : Prop :=
  emits p (fun tr a => reported (f a) tr = true).

(** What the continuation of a call does with the error [e] it is
    handed: it returns it at once, or its first call is the error line of
    [e]. *)
Definition passes_on {B} (e : error) (f : B -> option error) (tr : trace) (b : B) : Prop :=
  (tr = [] /\ f b = Some e)
  \/ exists l tr', tr = l :: tr' /\ error_line e l = true /\ reported (f b) tr' = true.

(** The log lines of a history at warning or error level. *)
Definition alarm_of (e : event) : list LogEntry :=
  match call_of e with
  | Log l =>
      match log_level l with
      | LWarn => [l]
      | LError => [l]
      | _ => []
      end
  | _ => []
  end.

(** The environment of the one folder with a store that refuses to
    delete a batch of candidates. *)
Definition lossy_env : environment := fun c w =>
  match c with
  | DB (DeleteMultipleResultsByMedia _) => Some "database is locked"
  | c' => one_folder_env c' w
  end.

(** ** HTTP helpers ([internal/srv]) *)

Module srv.
Section helpers.

(** A value handed over as [interface{}]; a string is one of them. *)
Context {Payload : Type} (of_string : string -> Payload).

(** The JSON envelope of a response body. *)
Record response : Type := mkresponse {
  Status : string;
  Data : Payload
}.

(** What a handler does to the response writer [w] and the request [r]:
    [w.Header().Set], [render.Status(r, code)], [render.JSON(w, r, v)] and
    [w.Write]. *)
Inductive effect : Type :=
| SetHeader (key value : string)
| RenderStatus (code : Z)
| RenderJSON (v : response)
| WriteBody (data : string).



(** [JSON] *)
Definition JSON (code : Z) (payload : Payload) : list effect :=
  [RenderStatus code; RenderJSON (mkresponse "ok" payload)].



End helpers.
End srv.

(** * Properties *)

(** ** Programs and their runs *)

Lemma run_bind {A B} (h : environment) (m : Prog A) (f : A -> Prog B) (w : trace) :
  run h (bind m f) w =
  match run h m w with
  | Done a w' => run h (f a) w'
  | Panicked msg w' => Panicked msg w'
  | Blocked s w' => Blocked s w'
  end.
Proof.
  revert w. induction m as [a|msg|c k IH|s k IH]; intros w; cbn.
  - reflexivity.
  - reflexivity.
  - apply IH.
  - reflexivity.
Qed.

Lemma emits_mono {A} (p : Prog A) (Q Q' : trace -> A -> Prop) :
  (forall tr a, Q tr a -> Q' tr a) -> emits p Q -> emits p Q'.
Proof.
  revert Q Q'. induction p as [a|msg|c k IH|s k IH]; intros Q Q' HQ; cbn.
  - apply HQ.
  - tauto.
  - intros Hp r. eapply IH; [|apply Hp]. intros tr a. apply HQ.
  - tauto.
Qed.

Lemma emits_bind {A B} (m : Prog A) (f : A -> Prog B) (Q : trace -> B -> Prop) :
  emits m (fun tr a => emits (f a) (fun tr' b => Q (tr ++ tr') b)) ->
  emits (bind m f) Q.
Proof.
  revert Q. induction m as [a|msg|c k IH|s k IH]; intros Q; cbn.
  - tauto.
  - tauto.
  - intros Hm r. apply IH. apply Hm.
  - tauto.
Qed.

Lemma emits_run {A} (p : Prog A) (Q : trace -> A -> Prop) :
  emits p Q ->
  forall (h : environment) (w : trace),
    exists tr a, run h p w = Done a (w ++ tr) /\ Q tr a.
Proof.
  revert Q. induction p as [a|msg|c k IH|s k IH]; intros Q Hp h w; cbn in *.
  - exists [], a. rewrite app_nil_r. auto.
  - contradiction.
  - destruct (IH (h c w) _ (Hp (h c w)) h (w ++ [Ev c (h c w)])) as (tr & a & Hr & HQ).
    exists (Ev c (h c w) :: tr), a. rewrite Hr, <- app_assoc. auto.
  - contradiction.
Qed.

Lemma returns_bind {A B} (m : Prog A) (f : A -> Prog B) :
  returns m -> (forall a, returns (f a)) -> returns (bind m f).
Proof.
  intros Hm Hf. apply emits_bind. eapply emits_mono; [|exact Hm].
  intros tr a _. apply Hf.
Qed.

Lemma returns_run {A} (p : Prog A) (h : environment) (w : trace) :
  returns p -> exists tr a, run h p w = Done a (w ++ tr).
Proof.
  intros Hp. destruct (emits_run p _ Hp h w) as (tr & a & Hr & _). eauto.
Qed.

Lemma returns_perform (c : call) : returns (perform c).
Proof. intros r. exact I. Qed.

Lemma returns_logf lvl fields format args : returns (logf lvl fields format args).
Proof. intros r. exact I. Qed.

Lemma returns_logm lvl fields msg : returns (logm lvl fields msg).
Proof. intros r. exact I. Qed.

Lemma returns_for_each {A} (xs : list A) (body : A -> Prog unit) :
  (forall x, returns (body x)) -> returns (for_each xs body).
Proof.
  intros Hb. induction xs as [|x xs IH]; [exact I|].
  cbn [for_each]. apply returns_bind; auto.
Qed.

Lemma returns_fold_each {A S} (xs : list A) (acc : S) (body : S -> A -> Prog S) :
  (forall acc x, returns (body acc x)) -> returns (fold_each xs acc body).
Proof.
  intros Hb. revert acc. induction xs as [|x xs IH]; intros acc; [exact I|].
  cbn [fold_each]. apply returns_bind; auto.
Qed.

(** A loop whose body keeps an invariant of the accumulator. *)
Lemma emits_fold_each_inv {A S} (I : S -> Prop) (xs : list A) (acc : S)
    (body : S -> A -> Prog S) :
  (forall acc x, I acc -> emits (body acc x) (fun _ acc' => I acc')) ->
  I acc -> emits (fold_each xs acc body) (fun _ acc' => I acc').
Proof.
  intros Hb. revert acc. induction xs as [|x xs IH]; intros acc Hacc; [exact Hacc|].
  cbn [fold_each]. apply emits_bind. eapply emits_mono; [|apply Hb; exact Hacc].
  cbn beta. intros tr a Ha. apply IH. exact Ha.
Qed.

Lemma run_extends {A} (h : environment) (p : Prog A) (w : trace) :
  exists tr, match run h p w with
             | Done _ w' => w' = w ++ tr
             | Panicked _ w' => w' = w ++ tr
             | Blocked _ w' => w' = w ++ tr
             end.
Proof.
  revert w. induction p as [a|msg|c k IH|s k IH]; intros w; cbn.
  - exists []. now rewrite app_nil_r.
  - exists []. now rewrite app_nil_r.
  - destruct (IH (h c w) (w ++ [Ev c (h c w)])) as [tr Htr].
    exists (Ev c (h c w) :: tr).
    destruct (run h (k (h c w)) (w ++ [Ev c (h c w)])); subst; now rewrite <- app_assoc.
  - exists []. now rewrite app_nil_r.
Qed.

(** ** Match selector *)

Section selector.
Context `{Runtime}.

Lemma Index_from_found (s : list string) (x : string) (i : Z) :
  x ∈ s ->
  i <= Index_from s x i < i + Z.of_nat (length s)
  /\ s !! Z.to_nat (Index_from s x i - i) = Some x.
Proof.
  revert i. induction s as [|y s IH]; intros i Hin.
  - inversion Hin.
  - cbn [Index_from]. destruct (String.eqb_spec y x) as [->|Hne].
    + replace (i - i) with 0 by lia. cbn. split; [lia | reflexivity].
    + assert (Hx : x ∈ s) by (inversion Hin; congruence).
      destruct (IH (i + 1) Hx) as [Hr Hl]. cbn [length]. split; [lia|].
      replace (Z.to_nat (Index_from s x (i + 1) - i))
        with (S (Z.to_nat (Index_from s x (i + 1) - (i + 1)))) by lia.
      exact Hl.
Qed.

Lemma Index_from_absent (s : list string) (x : string) (i : Z) :
  x ∉ s -> Index_from s x i = -1.
Proof.
  revert i. induction s as [|y s IH]; intros i Hnin; cbn [Index_from]; [reflexivity|].
  destruct (String.eqb_spec y x) as [->|Hne].
  - exfalso. apply Hnin. left.
  - apply IH. intros Hx. apply Hnin. now right.
Qed.

Lemma Index_found (s : list string) (x : string) :
  x ∈ s ->
  0 <= Index s x < Z.of_nat (length s) /\ s !! Z.to_nat (Index s x) = Some x.
Proof.
  intros Hin. destruct (Index_from_found s x 0 Hin) as [Hr Hl]. unfold Index.
  rewrite Z.sub_0_r in Hl. split; [lia | exact Hl].
Qed.

Lemma Index_absent (s : list string) (x : string) : x ∉ s -> Index s x = -1.
Proof. apply Index_from_absent. Qed.

Lemma Index_range (s : list string) (x : string) :
  -1 <= Index s x < Z.of_nat (length s).
Proof.
  destruct (decide (x ∈ s)) as [Hin|Hnin].
  - destruct (Index_found s x Hin). lia.
  - rewrite (Index_absent s x Hnin). lia.
Qed.

Lemma slice_index_lookup {A} (s : list A) (i : Z) (x : A) :
  0 <= i -> s !! Z.to_nat i = Some x -> slice_index s i = Normal x.
Proof.
  intros Hi Hl. unfold slice_index.
  pose proof (lookup_lt_Some _ _ _ Hl) as Hlt.
  destruct (i <? 0) eqn:E1; [lia|].
  destruct (Z.of_nat (length s) <=? i) eqn:E2; [lia|].
  cbn. now rewrite Hl.
Qed.

Lemma slice_index_in_range {A} (s : list A) (i : Z) :
  0 <= i < Z.of_nat (length s) -> exists x, slice_index s i = Normal x /\ x ∈ s.
Proof.
  intros Hi. destruct (lookup_lt_is_Some_2 s (Z.to_nat i)) as [x Hx]; [lia|].
  exists x. split; [apply slice_index_lookup; [lia | exact Hx]|].
  eapply list_elem_of_lookup_2; eauto.
Qed.

Lemma slice_index_out_of_range {A} (s : list A) (i : Z) :
  i < 0 \/ Z.of_nat (length s) <= i ->
  slice_index s i = RuntimePanic "index out of range".
Proof.
  intros Hi. unfold slice_index.
  destruct (i <? 0) eqn:E1; [reflexivity|].
  destruct (Z.of_nat (length s) <=? i) eqn:E2; [reflexivity|]. lia.
Qed.

(** The pair [best_of] ends with carries the score of its own match, is
    the start or one of the choices, and no choice scores higher. *)
Lemma best_of_spec (q : string) (cs : list string) (b : MatchPair) :
  Score b = fuzzy_score q (Match b) ->
  Score (best_of q cs b) = fuzzy_score q (Match (best_of q cs b))
  /\ (Match (best_of q cs b) = Match b \/ Match (best_of q cs b) ∈ cs)
  /\ Score b <= Score (best_of q cs b)
  /\ (forall c, c ∈ cs -> fuzzy_score q c <= Score (best_of q cs b)).
Proof.
  revert b. induction cs as [|c cs IH]; intros b Hb; cbn [best_of].
  - repeat split; [exact Hb | now left | lia | intros c Hc; inversion Hc].
  - cbv zeta. destruct (Score b <? fuzzy_score q c) eqn:E.
    + destruct (IH (mkMatchPair c (fuzzy_score q c)) eq_refl) as (H1 & H2 & H3 & H4).
      cbn in H2, H3. repeat split; [exact H1 | | lia |].
      * right. destruct H2 as [->|H2]; [left | now right].
      * intros c' Hc'. inversion Hc'; subst; [exact H3 | now apply H4].
    + destruct (IH b Hb) as (H1 & H2 & H3 & H4).
      repeat split; [exact H1 | | exact H3 |].
      * destruct H2 as [H2|H2]; [now left | right; now right].
      * intros c' Hc'. inversion Hc'; subst; [lia | now apply H4].
Qed.

Lemma ExtractOne_cons (q : string) (names : list string) :
  names <> [] ->
  exists m, ExtractOne q names = (Some m, None)
    /\ Match m ∈ names
    /\ Score m = fuzzy_score q (Match m)
    /\ (forall c, c ∈ names -> fuzzy_score q c <= Score m).
Proof.
  destruct names as [|c cs]; [congruence|]. intros _.
  destruct (best_of_spec q cs (mkMatchPair c (fuzzy_score q c)) eq_refl)
    as (H1 & H2 & H3 & H4).
  eexists. split; [reflexivity|]. cbn in H2, H3. repeat split.
  - destruct H2 as [->|H2]; [left | now right].
  - exact H1.
  - intros c' Hc'. inversion Hc'; subst; [exact H3 | now apply H4].
Qed.

Lemma considered_subset items year it : it ∈ considered items year -> it ∈ items.
Proof.
  unfold considered. destruct (0 <? year); [|auto].
  intros Hin. apply list_elem_of_filter in Hin. tauto.
Qed.

Lemma SelectBestItem_none (items : list SearchData) (title : string) (year : Z) :
  considered items year = [] ->
  SelectBestItem items title year = Normal (SearchData_zero, Some "no data").
Proof.
  unfold SelectBestItem, considered. intros ->. reflexivity.
Qed.

Lemma SelectBestItem_some (items : list SearchData) (title : string) (year : Z) :
  considered items year <> [] ->
  exists m,
    ExtractOne title (map sd_Title (considered items year)) = (Some m, None)
    /\ Score m = fuzzy_score title (Match m)
    /\ (forall it, it ∈ considered items year -> fuzzy_score title (sd_Title it) <= Score m)
    /\ 0 <= Index (map sd_Title (considered items year)) (Match m)
         < Z.of_nat (length (map sd_Title (considered items year)))
    /\ if 85 <? Score m
       then exists it, SelectBestItem items title year = Normal (it, None)
                       /\ it ∈ considered items year /\ sd_Title it = Match m
       else SelectBestItem items title year = Normal (SearchData_zero, Some "no data").
Proof.
  intros Hne.
  destruct (ExtractOne_cons title (map sd_Title (considered items year)))
    as (m & HE & Hin & Hsc & Hmax).
  { intros Hnil. apply Hne. now destruct (considered items year). }
  destruct (Index_found _ _ Hin) as [Hr Hl].
  exists m. split; [exact HE|]. split; [exact Hsc|]. split.
  { intros it Hit. apply Hmax. apply list_elem_of_fmap. eauto. }
  split; [exact Hr|].
  unfold SelectBestItem. fold (considered items year). rewrite HE.
  destruct (85 <? Score m); [|reflexivity].
  rewrite list_lookup_fmap in Hl.
  destruct (considered items year !! Z.to_nat (Index (map sd_Title (considered items year)) (Match m)))
    as [it|] eqn:Hit; [|discriminate].
  cbn in Hl. injection Hl as Hl.
  exists it. split; [|split].
  - rewrite (slice_index_lookup _ _ it); [reflexivity | lia | exact Hit].
  - eapply list_elem_of_lookup_2; eauto.
  - exact Hl.
Qed.

(** [SelectBestItem] never panics. *)
Lemma SelectBestItem_total (items : list SearchData) (title : string) (year : Z) :
  (exists it, SelectBestItem items title year = Normal (it, None)
              /\ it ∈ considered items year /\ 85 < fuzzy_score title (sd_Title it))
  \/ SelectBestItem items title year = Normal (SearchData_zero, Some "no data").
Proof.
  destruct (considered items year) as [|c cs] eqn:E.
  - right. now apply SelectBestItem_none.
  - destruct (SelectBestItem_some items title year) as (m & _ & Hsc & _ & _ & Hc);
      [rewrite E; discriminate|].
    destruct (85 <? Score m) eqn:E85; [|now right].
    destruct Hc as (it & H1 & H2 & H3). left. exists it.
    split; [exact H1|]. split; [rewrite <- E; exact H2|]. rewrite H3, <- Hsc. lia.
Qed.

End selector.

(** C1: the candidate [SelectBestItem] returns scores above 85 against the
    target title, and when no candidate scores above 85 the result is the
    error no data with the zero candidate. *)
Theorem SelectBestItem_threshold `{Runtime} (items : list SearchData) (title : string) (year : Z) :
  (forall it, SelectBestItem items title year = Normal (it, None) ->
              it ∈ items /\ 85 < fuzzy_score title (sd_Title it))
  /\ ((forall it, it ∈ items -> fuzzy_score title (sd_Title it) <= 85) ->
      SelectBestItem items title year = Normal (SearchData_zero, Some "no data")).
Proof.
  destruct (SelectBestItem_total items title year) as [(it & H1 & H2 & H3)|Hno].
  - split.
    + intros it' Hit'. rewrite H1 in Hit'. injection Hit' as <-.
      split; [eapply considered_subset; eauto | exact H3].
    + intros Hall. apply considered_subset in H2. specialize (Hall it H2). lia.
  - split; [|auto]. intros it Hit. rewrite Hno in Hit. discriminate.
Qed.

(** C7, as the code has it: a year above zero restricts the candidates to
    those that premiered in that year before any scoring, so the candidate
    returned premiered in that year; a year of zero or below leaves the
    candidate set as it is. *)
Theorem SelectBestItem_year `{Runtime} (items : list SearchData) (title : string) (year : Z) :
  (0 < year ->
     SelectBestItem items title year
     = SelectBestItem (filter (fun i => unix_year (sd_Premiered i) = year) items) title 0
     /\ forall it, SelectBestItem items title year = Normal (it, None) ->
                   it ∈ items /\ unix_year (sd_Premiered it) = year)
  /\ (year <= 0 -> SelectBestItem items title year = SelectBestItem items title 0).
Proof.
  split.
  - intros Hy. split.
    + unfold SelectBestItem. destruct (0 <? year) eqn:E; [reflexivity | lia].
    + intros it Hit.
      destruct (SelectBestItem_total items title year) as [(it' & H1 & H2 & _)|Hno].
      * rewrite H1 in Hit. injection Hit as <-. unfold considered in H2.
        destruct (0 <? year) eqn:E; [|lia].
        apply list_elem_of_filter in H2. tauto.
      * rewrite Hno in Hit. discriminate.
  - intros Hy. unfold SelectBestItem. destruct (0 <? year) eqn:E; [lia | reflexivity].
Qed.

(** C7 as stated fails below zero: with the year -1 the one candidate,
    which premiered in 2017, is returned. *)
Lemma SelectBestItem_negative_year :
  -1 <> 0
  /\ @SelectBestItem example_runtime [example_candidate] "Dark" (-1)
     = Normal (example_candidate, None)
  /\ @unix_year example_runtime (sd_Premiered example_candidate) <> -1.
Proof. split; [lia|]. split; [reflexivity | vm_compute; discriminate]. Qed.

(** C10: [SelectBestItem] always returns; without a candidate, or when
    the year leaves none, it returns the error no data; and the position
    it indexes with is one of the list of names it built. *)
Theorem SelectBestItem_safe `{Runtime} (items : list SearchData) (title : string) (year : Z) :
  (exists r, SelectBestItem items title year = Normal r)
  /\ (items = [] ->
      SelectBestItem items title year = Normal (SearchData_zero, Some "no data"))
  /\ (0 < year -> (forall it, it ∈ items -> unix_year (sd_Premiered it) <> year) ->
      SelectBestItem items title year = Normal (SearchData_zero, Some "no data"))
  /\ (forall m, ExtractOne title (map sd_Title (considered items year)) = (Some m, None) ->
      0 <= Index (map sd_Title (considered items year)) (Match m)
        < Z.of_nat (length (considered items year))).
Proof.
  split; [|split; [|split]].
  - destruct (SelectBestItem_total items title year) as [(it & H1 & _)|Hno]; eauto.
  - intros ->. apply SelectBestItem_none. unfold considered. now destruct (0 <? year).
  - intros Hy Hnone. apply SelectBestItem_none. unfold considered.
    destruct (0 <? year) eqn:E; [|lia].
    destruct (filter _ items) as [|c cs] eqn:Ef; [reflexivity|].
    assert (Hc : c ∈ filter (fun i => unix_year (sd_Premiered i) = year) items)
      by (rewrite Ef; left).
    apply list_elem_of_filter in Hc. destruct Hc as [Hc1 Hc2].
    exfalso. exact (Hnone c Hc2 Hc1).
  - intros m Hm. destruct (considered items year) as [|c cs] eqn:E; [discriminate|].
    destruct (SelectBestItem_some items title year) as (m' & HE & _ & _ & Hr & _);
      [rewrite E; discriminate|].
    rewrite E in HE, Hr. rewrite HE in Hm. injection Hm as <-.
    rewrite length_map in Hr. exact Hr.
Qed.

(** ** Filename identifier extractor *)

Lemma append_nil_l (s : string) : "" +:+ s = s.
Proof. reflexivity. Qed.

Lemma append_cons (c : ascii) (a b : string) : String c a +:+ b = String c (a +:+ b).
Proof. reflexivity. Qed.

Lemma lit_s_sound (s ms r : string) :
  lit_s s = Some (ms, r) -> s = ms +:+ r /\ s_token ms.
Proof.
  unfold lit_s, s_token. destruct s as [|c rest]; [discriminate|].
  destruct (Ascii.eqb_spec c "s") as [->|Hs]; cbn [orb].
  { intros [= <- <-]. auto. }
  destruct (Ascii.eqb_spec c "S") as [->|HS].
  { intros [= <- <-]. auto. }
  destruct (Ascii.eqb_spec c (ascii_of_N 197)) as [->|H1]; [|discriminate].
  destruct rest as [|d rest']; [discriminate|].
  destruct (Ascii.eqb_spec d (ascii_of_N 191)) as [->|H2]; [|discriminate].
  intros [= <- <-]. auto.
Qed.

Lemma lit_s_complete (ms r : string) : s_token ms -> lit_s (ms +:+ r) = Some (ms, r).
Proof. intros [-> | [-> | ->]]; reflexivity. Qed.

Lemma lit_e_sound (s me r : string) :
  lit_e s = Some (me, r) -> s = me +:+ r /\ e_token me.
Proof.
  unfold lit_e, e_token. destruct s as [|c rest]; [discriminate|].
  destruct (Ascii.eqb_spec c "e") as [->|He]; cbn [orb].
  { intros [= <- <-]. auto. }
  destruct (Ascii.eqb_spec c "E") as [->|HE]; [|discriminate].
  intros [= <- <-]. auto.
Qed.

Lemma lit_e_complete (me r : string) : e_token me -> lit_e (me +:+ r) = Some (me, r).
Proof. intros [-> | ->]; reflexivity. Qed.

Lemma digits_sound (s d r : string) :
  digits s = (d, r) -> s = d +:+ r /\ all_digits d = true.
Proof.
  revert d r. induction s as [|c s IH]; intros d r; cbn [digits].
  - intros [= <- <-]. auto.
  - destruct (is_digit c) eqn:Ec.
    + destruct (digits s) as [d' r'] eqn:Ed. intros [= <- <-].
      destruct (IH d' r' eq_refl) as [-> Hd]. rewrite append_cons. cbn [all_digits].
      rewrite Ec. auto.
    + intros [= <- <-]. auto.
Qed.

Lemma digits1_sound (s d r : string) :
  digits1 s = Some (d, r) -> s = d +:+ r /\ number d.
Proof.
  unfold digits1, number. destruct (digits s) as [d' r'] eqn:Ed.
  destruct (String.eqb_spec d' "") as [->|Hne]; [discriminate|].
  intros [= <- <-]. destruct (digits_sound _ _ _ Ed). auto.
Qed.

(** A run of digits that stops before [r] is what [digits] takes. *)
Lemma digits_stop (d r : string) :
  all_digits d = true ->
  match r with String c _ => is_digit c = false | EmptyString => True end ->
  digits (d +:+ r) = (d, r).
Proof.
  intros Hd Hr. induction d as [|c d IH].
  - rewrite append_nil_l. destruct r as [|c r]; [reflexivity|]. cbn [digits]. now rewrite Hr.
  - cbn [all_digits] in Hd. apply andb_prop in Hd. destruct Hd as [Hc Hd].
    rewrite append_cons. cbn [digits]. rewrite Hc, (IH Hd). reflexivity.
Qed.

Lemma digits1_number (d r : string) :
  number d -> exists d' r', digits1 (d +:+ r) = Some (d', r').
Proof.
  intros [Hne Hd]. destruct d as [|c d]; [congruence|].
  cbn [all_digits] in Hd. apply andb_prop in Hd. destruct Hd as [Hc _].
  unfold digits1. rewrite append_cons. cbn [digits]. rewrite Hc.
  destruct (digits (d +:+ r)) as [d' r']. cbn. eauto.
Qed.

Lemma e_token_stops (me r : string) :
  e_token me ->
  match me +:+ r with String c _ => is_digit c = false | EmptyString => True end.
Proof. intros [-> | ->]; reflexivity. Qed.

(** A match at the head of [s] has a non-empty group, and for the episode
    pattern [s] begins with the tokens of section 4.2. *)
Lemma match_here_sound (p : Regexp) (s : string) (m : list string) :
  match_here p s = Some m ->
  (exists full g, m = [full; g] /\ g <> "")
  /\ (p = EpisodePattern ->
      exists ms d1 me d2 post,
        s = ms +:+ d1 +:+ me +:+ d2 +:+ post
        /\ s_token ms /\ number d1 /\ e_token me /\ number d2).
Proof.
  unfold match_here.
  destruct (lit_s s) as [[ms r1]|] eqn:E1; [|discriminate].
  destruct (digits1 r1) as [[d1 r2]|] eqn:E2; [|discriminate].
  destruct (lit_e r2) as [[me r3]|] eqn:E3; [|discriminate].
  apply lit_s_sound in E1. destruct E1 as [-> Hs].
  apply digits1_sound in E2. destruct E2 as [-> Hd1].
  apply lit_e_sound in E3. destruct E3 as [-> He].
  destruct p.
  - intros [= <-]. split; [|discriminate]. do 2 eexists. split; [reflexivity|]. apply Hd1.
  - destruct (digits1 r3) as [[d2 r4]|] eqn:E4; [|discriminate].
    apply digits1_sound in E4. destruct E4 as [-> Hd2].
    intros [= <-]. split.
    + do 2 eexists. split; [reflexivity|]. apply Hd2.
    + intros _. exists ms, d1, me, d2, r4. auto.
Qed.

Lemma match_here_complete (ms d1 me d2 post : string) :
  s_token ms -> number d1 -> e_token me -> number d2 ->
  (exists m, match_here SeasonPattern (ms +:+ d1 +:+ me +:+ d2 +:+ post) = Some m)
  /\ (exists m, match_here EpisodePattern (ms +:+ d1 +:+ me +:+ d2 +:+ post) = Some m).
Proof.
  intros Hs Hd1 He Hd2. unfold match_here.
  rewrite (lit_s_complete _ _ Hs).
  assert (E : digits1 (d1 +:+ me +:+ d2 +:+ post) = Some (d1, me +:+ d2 +:+ post)).
  { unfold digits1. rewrite digits_stop; [|apply Hd1|now apply e_token_stops].
    destruct (String.eqb_spec d1 ""); [|reflexivity]. destruct Hd1. congruence. }
  rewrite E, (lit_e_complete _ _ He).
  destruct (digits1_number d2 post Hd2) as (d' & r' & ->). eauto.
Qed.

Lemma FindStringSubmatch_eq (p : Regexp) (s : string) :
  FindStringSubmatch p s =
  match match_here p s with
  | Some m => m
  | None => match s with
            | String _ rest => FindStringSubmatch p rest
            | EmptyString => []
            end
  end.
Proof. destruct s; reflexivity. Qed.

(** What [FindStringSubmatch] returns is a match at some position. *)
Lemma FindStringSubmatch_sound (p : Regexp) (s : string) :
  FindStringSubmatch p s <> [] ->
  exists pre suf, s = pre +:+ suf /\ match_here p suf = Some (FindStringSubmatch p s).
Proof.
  induction s as [|c s IH]; rewrite FindStringSubmatch_eq.
  - destruct (match_here p "") as [m|] eqn:E; [|congruence].
    intros _. exists "", "". auto.
  - destruct (match_here p (String c s)) as [m|] eqn:E.
    + intros _. exists "", (String c s). auto.
    + intros Hne. destruct (IH Hne) as (pre & suf & -> & Hm).
      exists (String c pre), suf. auto.
Qed.

(** Where a match exists at some position, [FindStringSubmatch] finds a
    match (the leftmost one). *)
Lemma FindStringSubmatch_complete (p : Regexp) (pre suf : string) (m : list string) :
  match_here p suf = Some m ->
  exists suf' m', match_here p suf' = Some m' /\ FindStringSubmatch p (pre +:+ suf) = m'.
Proof.
  intros Hm. induction pre as [|c pre IH].
  - rewrite append_nil_l, FindStringSubmatch_eq, Hm. eauto.
  - rewrite append_cons, FindStringSubmatch_eq.
    destruct (match_here p (String c (pre +:+ suf))) as [m'|] eqn:E; [eauto | exact IH].
Qed.

Lemma extract_some (t : TVSScraper) (f : string) (m1 m2 : list string) :
  (exists full g, FindStringSubmatch (t_RegexSeason t) f = [full; g] /\ g <> "") ->
  (exists full g, FindStringSubmatch (t_RegexEpisode t) f = [full; g] /\ g <> "") ->
  is_Some (extractSeasonEpisode t f).
Proof.
  intros (f1 & g1 & E1 & H1) (f2 & g2 & E2 & H2). unfold extractSeasonEpisode.
  rewrite E1, E2. cbn.
  destruct (String.eqb_spec g1 ""); [congruence|].
  destruct (String.eqb_spec g2 ""); [congruence|]. cbn.
  destruct (Atoi g1), (Atoi g2). eauto.
Qed.

Lemma extract_needs_episode (t : TVSScraper) (f : string) :
  is_Some (extractSeasonEpisode t f) -> FindStringSubmatch (t_RegexEpisode t) f <> [].
Proof.
  unfold extractSeasonEpisode. intros [r Hr] Hnil. rewrite Hnil in Hr.
  cbn in Hr. rewrite !andb_false_r in Hr. cbn in Hr. discriminate.
Qed.

(** Extraction succeeds exactly on the file names that hold an [S], a
    number, an [E] and a number in a row. *)
Lemma extract_iff_token (t : TVSScraper) (f : string) :
  loaded t -> is_Some (extractSeasonEpisode t f) <-> has_season_episode_token f.
Proof.
  intros (_ & HS & HE). split.
  - intros Hx. apply extract_needs_episode in Hx. rewrite HE in Hx.
    destruct (FindStringSubmatch_sound _ _ Hx) as (pre & suf & -> & Hm).
    apply match_here_sound in Hm. destruct Hm as [_ Hm].
    destruct (Hm eq_refl) as (ms & d1 & me & d2 & post & -> & H1 & H2 & H3 & H4).
    exists pre, ms, d1, me, d2, post. auto.
  - intros (pre & ms & d1 & me & d2 & post & -> & H1 & H2 & H3 & H4).
    destruct (match_here_complete ms d1 me d2 post H1 H2 H3 H4) as [[m1 Hm1] [m2 Hm2]].
    apply (extract_some t _ m1 m2); [rewrite HS | rewrite HE].
    + destruct (FindStringSubmatch_complete _ pre _ _ Hm1) as (suf' & m' & Hm' & ->).
      apply match_here_sound in Hm'. tauto.
    + destruct (FindStringSubmatch_complete _ pre _ _ Hm2) as (suf' & m' & Hm' & ->).
      apply match_here_sound in Hm'. tauto.
Qed.

(** Without season and episode number [updateTVSEpisode] adds nothing. *)
Lemma updateTVSEpisode_no_extraction (t : TVSScraper) (provider : ProviderRef)
    (seasons : list Z) (p : string) (idshow : Z) :
  extractSeasonEpisode t (path_Base p) = None ->
  emits (updateTVSEpisode t provider seasons p idshow)
        (fun tr seasons' =>
           seasons' = seasons /\ Forall (fun e => creates_entry (call_of e) = false) tr).
Proof.
  intros Hx. unfold updateTVSEpisode. rewrite Hx. cbn.
  intros [videoData [e|]]; cbn.
  - intros []. cbn. intros []. split; [reflexivity|]. repeat constructor.
  - intros []. cbn. intros [episodeData [e|]]; cbn.
    + intros []. split; [reflexivity|]. repeat constructor.
    + destruct (0 <? er_UpdateMode episodeData); cbn.
      * intros r [epData [e|]]; cbn.
        -- intros []. split; [reflexivity|]. repeat constructor.
        -- intros now r'. split; [reflexivity|]. repeat constructor.
      * intros []. split; [reflexivity|]. repeat constructor.
Qed.

(** C2: extraction succeeds only on a file name that holds both tokens,
    the season token and the episode number after it; the first example
    yields season 2 and episode 5, the second fails; and for a file
    whose name fails, [updateTVSEpisode] creates no season, episode or
    video-file entry. *)
Theorem extraction_needs_both_tokens (t : TVSScraper) (Ht : loaded t) :
  (forall f, is_Some (extractSeasonEpisode t f) <-> has_season_episode_token f)
  /\ extractSeasonEpisode t "Show.Name.S02E05.mkv" = Some (2, 5)
  /\ extractSeasonEpisode t "Show.Name.Episode5.mkv" = None
  /\ (forall provider seasons p idshow (h : environment) (w : trace),
        extractSeasonEpisode t (path_Base p) = None ->
        exists tr,
          run h (updateTVSEpisode t provider seasons p idshow) w = Done seasons (w ++ tr)
          /\ Forall (fun e => creates_entry (call_of e) = false) tr).
Proof.
  split; [|split; [|split]].
  - intros f. now apply extract_iff_token.
  - destruct Ht as (_ & HS & HE). unfold extractSeasonEpisode. rewrite HS, HE. reflexivity.
  - destruct Ht as (_ & HS & HE). unfold extractSeasonEpisode. rewrite HS, HE. reflexivity.
  - intros provider seasons p idshow h w Hx.
    destruct (emits_run _ _ (updateTVSEpisode_no_extraction t provider seasons p idshow Hx) h w)
      as (tr & a & Hr & -> & Hall).
    eauto.
Qed.

Lemma extraction_needs_both_tokens_witness :
  loaded bare_scraper
  /\ extractSeasonEpisode bare_scraper "Show.Name.S02E05.mkv" = Some (2, 5)
  /\ extractSeasonEpisode bare_scraper "Show.Name.Episode5.mkv" = None.
Proof.
  assert (Hl : loaded bare_scraper).
  { split; [|split]; [|reflexivity..]. intros name Hn. inversion Hn. }
  split; [exact Hl|].
  pose proof (extraction_needs_both_tokens bare_scraper Hl) as (_ & H1 & H2 & _).
  split; [exact H1 | exact H2].
Defined.

(** ** Programs that always return *)

Ltac returns_step :=
  match goal with
  | |- returns (Ret _) => exact I
  | |- returns (perform _) => apply returns_perform
  | |- returns (logf _ _ _ _) => apply returns_logf
  | |- returns (logm _ _ _) => apply returns_logm
  | |- returns (bind _ _) => apply returns_bind; [|intros ?]
  | |- returns (for_each _ _) => apply returns_for_each; intros ?
  | |- returns (fold_each _ _ _) => apply returns_fold_each; intros ? ?
  | |- returns (match ?x with _ => _ end) => destruct x
  | |- returns (let '(_, _) := ?x in _) => destruct x
  end.

Ltac returns_tac := repeat returns_step.

Lemma applier_spec (t : TVSScraper) (id : Z) (selection : SelectionResult) :
  emits (UpdateWithSelectionResult t id selection) (applier_outcome id selection).
Proof.
  unfold UpdateWithSelectionResult, applier_outcome. cbn.
  intros [e1|]; cbn; [exists 1%nat; repeat split; [lia..|discriminate]|].
  intros [e2|]; cbn; [exists 2%nat; repeat split; [lia..|discriminate]|].
  intros [e3|]; cbn; [exists 3%nat; repeat split; [lia..|discriminate]|].
  intros [e4|]; cbn; [exists 4%nat; repeat split; [lia..|discriminate]|].
  intros [e5|]; cbn; exists 5%nat; repeat split; lia.
Qed.

Lemma returns_UpdateWithSelectionResult t id selection :
  returns (UpdateWithSelectionResult t id selection).
Proof. eapply emits_mono; [|apply applier_spec]. auto. Qed.

Lemma returns_AddMultipleResults `{Runtime} mt md res name :
  returns (AddMultipleResults mt md res name).
Proof. unfold AddMultipleResults. returns_tac. Qed.

Lemma returns_AddTag mt md tag : returns (AddTag mt md tag).
Proof. unfold AddTag. returns_tac. Qed.

Lemma returns_AddPerson mt md person : returns (AddPerson mt md person).
Proof. unfold AddPerson. returns_tac. Qed.

Lemma returns_ListScraperConfiguration `{Runtime} mt : returns (ListScraperConfiguration mt).
Proof. unfold ListScraperConfiguration. returns_tac. Qed.

Lemma loadTVSPlugins_spec `{Runtime} (t : TVSScraper) :
  loaded t -> emits (loadTVSPlugins t) (fun _ r => loaded (fst r)).
Proof.
  intros Ht. unfold loadTVSPlugins. apply emits_bind.
  eapply emits_mono; [|apply returns_ListScraperConfiguration].
  cbn beta. intros _ [[names config] [e|]] _; [exact Ht|].
  apply emits_bind.
  eapply emits_mono;
    [|apply (emits_fold_each_inv loaded); [|exact Ht]].
  - cbn beta. intros _ t' Ht'. cbn. intros _.
    destruct (bool_decide _); exact Ht'.
  - clear t Ht. intros t i Ht. cbn. intros [pl [e|]]; [exact Ht|].
    destruct pl as [|p]; [exact Ht|]. cbn. intros prov _.
    destruct Ht as (Hn & HS & HE). split; [|split; assumption].
    cbn. intros name Hin. apply elem_of_app in Hin. destruct Hin as [Hin|Hin].
    + destruct (decide (i = name)) as [->|Hne].
      * rewrite lookup_insert_eq. eauto.
      * rewrite lookup_insert_ne by exact Hne. auto.
    + apply list_elem_of_singleton in Hin. subst. rewrite lookup_insert_eq. eauto.
Qed.

Lemma NewTVSScraper_spec `{Runtime} : emits NewTVSScraper (fun _ t => loaded t).
Proof.
  unfold NewTVSScraper. apply emits_bind.
  eapply emits_mono; [|apply loadTVSPlugins_spec].
  - cbn beta. intros _ [t [e|]] Ht; cbn; auto.
  - split; [|split]; [|reflexivity..]. intros name Hn. inversion Hn.
Qed.

Lemma returns_NewTVSScraper `{Runtime} : returns NewTVSScraper.
Proof. eapply emits_mono; [|apply NewTVSScraper_spec]. auto. Qed.

Lemma returns_searchProviders (t : TVSScraper) (title : string) :
  loaded t -> returns (searchProviders t title).
Proof.
  intros (Hn & _). unfold searchProviders.
  assert (Hall : forall i, i ∈ t_ProviderNames t -> is_Some (t_Providers t !! i)) by exact Hn.
  clear Hn. revert Hall. generalize (@nil SearchData) as acc.
  induction (t_ProviderNames t) as [|i names IH]; intros acc Hall; [exact I|].
  cbn [fold_each]. apply returns_bind.
  - destruct (Hall i) as [prov ->]; [left|]. returns_tac.
  - intros a. apply IH. intros j Hj. apply Hall. now right.
Qed.

Lemma returns_updateTVS (t : TVSScraper) (data : ListShowRow) : returns (updateTVS t data).
Proof.
  unfold updateTVS. returns_tac.
  - apply returns_AddTag.
  - apply returns_AddPerson.
Qed.

Lemma returns_createShow (t : TVSScraper) (data : ListShowRow) : returns (createShow t data).
Proof. unfold createShow. returns_tac. Qed.

Lemma returns_lift_SelectBestItem `{Runtime} items title year :
  returns (lift (SelectBestItem items title year)).
Proof.
  destruct (SelectBestItem_total items title year) as [(it & -> & _)| ->]; exact I.
Qed.

Lemma returns_selectOrStore `{Runtime} t data res : returns (selectOrStore t data res).
Proof.
  unfold selectOrStore. returns_tac;
    first [ apply returns_lift_SelectBestItem | apply returns_UpdateWithSelectionResult
          | apply returns_updateTVS | apply returns_AddMultipleResults ].
Qed.

Lemma returns_addTVS `{Runtime} (t : TVSScraper) (data : ListShowRow) :
  loaded t -> returns (addTVS t data).
Proof.
  intros Ht. unfold addTVS. returns_tac;
    first [ now apply returns_searchProviders | apply returns_createShow
          | apply returns_selectOrStore ].
Qed.

Lemma returns_updateTVSSeasons t provider idshow : returns (updateTVSSeasons t provider idshow).
Proof. unfold updateTVSSeasons. returns_tac. Qed.

Lemma returns_registerEpisodeFile t logF p added : returns (registerEpisodeFile t logF p added).
Proof. unfold registerEpisodeFile. returns_tac. Qed.

Lemma returns_updateTVSEpisode t provider seasons p idshow :
  returns (updateTVSEpisode t provider seasons p idshow).
Proof. unfold updateTVSEpisode. returns_tac; apply returns_registerEpisodeFile. Qed.

Lemma returns_updateTVSEpisodes `{Runtime} t data : returns (updateTVSEpisodes t data).
Proof.
  unfold updateTVSEpisodes. returns_tac;
    first [ apply returns_updateTVSSeasons | apply returns_updateTVSEpisode ].
Qed.

Lemma returns_reconcileItem `{Runtime} t i tvsPaths tvsData :
  loaded t -> (length tvsPaths <= length tvsData)%nat ->
  returns (reconcileItem t i tvsPaths tvsData).
Proof.
  intros Ht Hlen. unfold reconcileItem.
  apply returns_bind; [apply returns_logf|intros _].
  apply returns_bind.
  - destruct (-1 <? Index tvsPaths (de_Name i)) eqn:E.
    + apply returns_bind; [apply returns_logm|intros _].
      pose proof (Index_range tvsPaths (de_Name i)) as Hr.
      destruct (slice_index_in_range tvsData (Index tvsPaths (de_Name i))) as (x & -> & _);
        [lia|].
      cbn [lift bind]. returns_tac;
        first [ now apply returns_addTVS | apply returns_updateTVS ].
    + returns_tac. now apply returns_addTVS.
  - intros [data err]. returns_tac. apply returns_updateTVSEpisodes.
Qed.

Lemma returns_processItemScan `{Runtime} t i tvsPaths tvsData :
  loaded t -> (length tvsPaths <= length tvsData)%nat ->
  returns (processItemScan t i tvsPaths tvsData).
Proof.
  intros Ht Hlen. unfold processItemScan. returns_tac.
  now apply returns_reconcileItem.
Qed.

(** ** Selection applier *)

(** C5: [UpdateWithSelectionResult] makes its five store writes in the
    fixed order, stops at the first one that fails and returns its error;
    the writes made before stay made. *)
Theorem UpdateWithSelectionResult_sequence (t : TVSScraper) (id : Z)
    (selection : SelectionResult) (h : environment) (w : trace) :
  exists tr ret,
    run h (UpdateWithSelectionResult t id selection) w = Done ret (w ++ tr)
    /\ applier_outcome id selection tr ret.
Proof. apply emits_run, applier_spec. Qed.

(** ** Manual selection entry point *)

Lemma run_perform {A} (h : environment) (c : call) (k : resp c -> Prog A) (w : trace) :
  run h (bind (perform c) k) w = run h (k (h c w)) (w ++ [Ev c (h c w)]).
Proof. reflexivity. Qed.

Lemma run_logf {A} (h : environment) lvl fields format args (k : unit -> Prog A) (w : trace) :
  run h (bind (logf lvl fields format args) k) w
  = run h (k tt) (w ++ [Ev (Log (mkLogEntry lvl fields format args)) tt]).
Proof.
  change (run h (bind (logf lvl fields format args) k) w)
    with (run h (k (h (Log (mkLogEntry lvl fields format args)) w))
            (w ++ [Ev (Log (mkLogEntry lvl fields format args))
                      (h (Log (mkLogEntry lvl fields format args)) w)])).
  now destruct (h (Log (mkLogEntry lvl fields format args)) w).
Qed.

Lemma run_logm {A} (h : environment) lvl fields msg (k : unit -> Prog A) (w : trace) :
  run h (bind (logm lvl fields msg) k) w
  = run h (k tt) (w ++ [Ev (Log (mkLogEntry lvl fields msg [])) tt]).
Proof. apply run_logf. Qed.

Lemma run_logm_last (h : environment) lvl fields msg (w : trace) :
  run h (logm lvl fields msg) w = Done tt (w ++ [Ev (Log (mkLogEntry lvl fields msg [])) tt]).
Proof.
  change (run h (logm lvl fields msg) w)
    with (Done (h (Log (mkLogEntry lvl fields msg [])) w)
            (w ++ [Ev (Log (mkLogEntry lvl fields msg []))
                      (h (Log (mkLogEntry lvl fields msg [])) w)])).
  now destruct (h (Log (mkLogEntry lvl fields msg [])) w).
Qed.

Lemma run_bind_assoc {A B C} (h : environment) (m : Prog A) (f : A -> Prog B)
    (g : B -> Prog C) (w : trace) :
  run h (bind (bind m f) g) w = run h (bind m (fun x => bind (f x) g)) w.
Proof.
  rewrite !run_bind. destruct (run h m w); [|reflexivity..]. now rewrite run_bind.
Qed.

Lemma run_done_extends {A} (h : environment) (p : Prog A) (w w' : trace) (a : A) :
  run h p w = Done a w' -> exists tr, w' = w ++ tr.
Proof.
  intros Hr. destruct (run_extends h p w) as [tr Htr]. rewrite Hr in Htr. eauto.
Qed.

(** Without a stored batch [SelectScraperResult] returns the error of the
    lookup and does nothing else. *)
Lemma SelectScraperResult_no_batch `{Runtime} (h : environment) (w : trace)
    (mediaType : MediaType) (mediaData id : Z) (data : MultipleResultsRow) (e : error) :
  h (DB (GetMultipleResultsByMedia (mkMediaKey mediaType mediaData))) w = (data, Some e) ->
  run h (SelectScraperResult mediaType mediaData id) w
  = Done (SearchData_zero, Some e)
      (w ++ [Ev (DB (GetMultipleResultsByMedia (mkMediaKey mediaType mediaData)))
                (data, Some e)]).
Proof.
  intros Hget. unfold SelectScraperResult. rewrite run_perform, Hget. reflexivity.
Qed.

(** An index outside the stored batch makes [SelectScraperResult] panic:
    the batch is indexed before the index is checked. *)
Lemma SelectScraperResult_index_panics `{Runtime} (h : environment) (w : trace)
    (mediaData id : Z) (data : MultipleResultsRow) (searchData : list SearchData) :
  h (DB (GetMultipleResultsByMedia (mkMediaKey MediaTypeTvs mediaData))) w = (data, None) ->
  json_Unmarshal_batch (mr_Data data) = (searchData, None) ->
  id < 0 \/ Z.of_nat (length searchData) <= id ->
  exists w', run h (SelectScraperResult MediaTypeTvs mediaData id) w
             = Panicked "index out of range" w'.
Proof.
  intros Hget Hjson Hid. unfold SelectScraperResult.
  rewrite run_perform, Hget, Hjson. unfold getScraperFromMediaType.
  cbn [MediaType_eqb]. rewrite !run_bind.
  destruct (returns_run NewTVSScraper h
              (w ++ [Ev (DB (GetMultipleResultsByMedia (mkMediaKey MediaTypeTvs mediaData)))
                        (data, None)]) returns_NewTVSScraper) as (tr & t & ->).
  cbn [run]. rewrite (slice_index_out_of_range _ _ Hid). cbn. eauto.
Qed.

(** C6 at the failing input: a batch of one candidate and the index 1;
    the call panics where an error was to be returned. *)
Theorem SelectScraperResult_panics_past_the_end :
  exists w', @run _ quiet_env (@SelectScraperResult example_runtime MediaTypeTvs 1 1) []
             = Panicked "index out of range" w'.
Proof. eexists. vm_compute. reflexivity. Qed.

(** ** Reconciliation of one show *)

(** C8 as stated fails: with no candidate from any provider and unknown
    shows not wanted, the scan of a library with one new folder adds no
    show row. *)
Lemma Scan_unknown_folder_not_added :
  exists t w,
    @run _ one_folder_env
      (@Scan example_runtime bare_scraper 1 (mkScraperScanConfig false false false 1)) []
    = Done (t, None) w
    /\ Forall (fun e => is_AddShow (call_of e) = false) w.
Proof.
  eexists. eexists. split; [vm_compute; reflexivity|].
  repeat constructor.
Qed.


(** C8, as the code has it: for a folder that matches no catalog path the
    providers are searched; unless they found nothing while unknown shows
    are not wanted (then the folder is given up with a logged error), a
    show row with the name of the folder as its title is added. *)
Theorem new_folder_adds_show `{Runtime} (h : environment) (w : trace) (t : TVSScraper)
    (i : DirEntry) (tvsPaths : list string) (tvsData : list ListShowRow) :
  loaded t -> (length tvsPaths <= length tvsData)%nat ->
  de_IsDir i = true -> de_Name i ∉ tvsPaths ->
  let logF := fields_tvs "Scan" (AStr (de_Name i)) in
  let w0 := w ++ [Ev (Log (mkLogEntry LDebug logF "processing tvs: %q" [AStr (de_Name i)])) tt;
                  Ev (Log (mkLogEntry LTrace logF ("new tvs: " +:+ de_Name i) [])) tt] in
  exists res w1,
    run h (searchProviders t (de_Name i)) w0 = Done res w1
    /\ if bool_decide (length res = 0%nat) && negb (t_AddUnknown t)
       then run h (processItemScan t i tvsPaths tvsData) w
            = Done tt (w1 ++ [Ev (Log (mkLogEntry LError logF
                                    ("no data avaiable for show " +:+ de_Name i) [])) tt])
       else exists tr,
            run h (processItemScan t i tvsPaths tvsData) w
            = Done tt (w1 ++ Ev Now (h Now w1)
                          :: Ev (DB (AddShow (mkAddShowParams (de_Name i) (t_IDLib t) (h Now w1))))
                                (h (DB (AddShow (mkAddShowParams (de_Name i) (t_IDLib t) (h Now w1))))
                                   (w1 ++ [Ev Now (h Now w1)]))
                          :: tr).
Proof.
  intros Ht Hlen Hdir Hnew logF w0.
  destruct (returns_run (searchProviders t (de_Name i)) h w0 (returns_searchProviders t _ Ht))
    as (trs & res & Hs).
  exists res, (w0 ++ trs). split; [exact Hs|].
  destruct (returns_run _ h w (returns_processItemScan t i tvsPaths tvsData Ht Hlen))
    as (tr_all & [] & Hall).
  assert (Hrun : run h (processItemScan t i tvsPaths tvsData) w
                 = run h (processItemScan t i tvsPaths tvsData) w) by reflexivity.
  unfold processItemScan at 2 in Hrun. rewrite Hdir in Hrun.
  unfold reconcileItem in Hrun. rewrite (Index_absent _ _ Hnew) in Hrun.
  change (-1 <? -1) with false in Hrun. cbv iota in Hrun.
  rewrite run_bind_assoc, run_logf in Hrun.
  rewrite !run_bind_assoc, run_logm in Hrun.
  rewrite <- app_assoc in Hrun. cbn [app] in Hrun.
  fold logF in Hrun. fold w0 in Hrun.
  unfold addTVS in Hrun. cbn [row_Title set_Title ListShowRow_zero] in Hrun.
  rewrite run_bind_assoc, run_bind, Hs in Hrun.
  destruct (bool_decide (length res = 0%nat) && negb (t_AddUnknown t)) eqn:Eg.
  - cbn [bind] in Hrun. rewrite bool_decide_eq_false_2 in Hrun by discriminate.
    cbn [andb bind] in Hrun. rewrite Hrun. apply run_logm_last.
  - unfold createShow in Hrun. cbn [row_ID set_Title ListShowRow_zero Z.eqb] in Hrun.
    rewrite !run_bind_assoc, run_perform in Hrun.
    rewrite !run_bind_assoc, run_perform in Hrun.
    cbn [row_Title set_Title ListShowRow_zero] in Hrun.
    rewrite Hall in Hrun. symmetry in Hrun.
    destruct (run_done_extends _ _ _ _ _ Hrun) as [tr Htr].
    exists tr. rewrite Hall. f_equal. rewrite Htr. rewrite <- !app_assoc. reflexivity.
Qed.

Lemma new_folder_adds_show_witness :
  loaded bare_scraper
  /\ (length (@nil string) <= length (@nil ListShowRow))%nat
  /\ de_IsDir (mkDirEntry "Foo" true) = true
  /\ (de_Name (mkDirEntry "Foo" true) ∉ (@nil string))
  /\ exists res w1 tr,
       run quiet_env (searchProviders bare_scraper "Foo")
         [Ev (Log (mkLogEntry LDebug (fields_tvs "Scan" (AStr "Foo")) "processing tvs: %q"
                     [AStr "Foo"])) tt;
          Ev (Log (mkLogEntry LTrace (fields_tvs "Scan" (AStr "Foo")) "new tvs: Foo" [])) tt]
       = Done res w1
       /\ @run _ quiet_env (@processItemScan example_runtime bare_scraper
                              (mkDirEntry "Foo" true) [] []) []
          = Done tt (w1 ++ Ev Now 1700000000
                        :: Ev (DB (AddShow (mkAddShowParams "Foo" 0 1700000000))) (1, None)
                        :: tr).
Proof.
  assert (Hl : loaded bare_scraper).
  { split; [|split]; [|reflexivity..]. intros name Hn. inversion Hn. }
  assert (Hnew : de_Name (mkDirEntry "Foo" true) ∉ @nil string) by (intros Hin; inversion Hin).
  split; [exact Hl|]. split; [reflexivity|]. split; [reflexivity|]. split; [exact Hnew|].
  destruct (@new_folder_adds_show example_runtime quiet_env [] bare_scraper
              (mkDirEntry "Foo" true) [] [] Hl (le_n _) eq_refl Hnew)
    as (res & w1 & Hs & Hrest).
  cbn [app] in Hs. vm_compute in Hs. injection Hs as <- <-.
  cbn [length bool_decide decide_rel andb negb t_AddUnknown bare_scraper] in Hrest.
  vm_compute in Hrest. destruct Hrest as [tr Htr].
  eexists. eexists. exists tr. split; [vm_compute; reflexivity|].
  vm_compute. exact Htr.
Defined.

(** ** The concurrent scan *)

Lemma tally_nonneg (f : Prog unit -> bool) (ws : list (Prog unit)) : 0 <= tally f ws.
Proof. induction ws as [|p ws IH]; cbn [tally]; [lia|]. destruct (f p); lia. Qed.

Lemma tally_app (f : Prog unit -> bool) (ws ws' : list (Prog unit)) :
  tally f (ws ++ ws') = tally f ws + tally f ws'.
Proof. induction ws as [|p ws IH]; cbn [tally app]; [lia|]. rewrite IH. lia. Qed.

Lemma tally_insert (f : Prog unit -> bool) (ws : list (Prog unit)) (j : nat)
    (p p' : Prog unit) :
  ws !! j = Some p ->
  tally f (<[j := p']> ws)
  = tally f ws - (if f p then 1 else 0) + (if f p' then 1 else 0).
Proof.
  revert j. induction ws as [|q ws IH]; intros j Hj; [discriminate|].
  destruct j as [|j]; simpl in Hj |- *.
  - injection Hj as ->. lia.
  - rewrite (IH j Hj). lia.
Qed.

Lemma tally_zero (f : Prog unit -> bool) (ws : list (Prog unit)) :
  tally f ws = 0 -> Forall (fun p => f p = false) ws.
Proof.
  induction ws as [|p ws IH]; cbn [tally]; intros Hz; constructor.
  - pose proof (tally_nonneg f ws). destruct (f p); [lia | reflexivity].
  - apply IH. pose proof (tally_nonneg f ws). destruct (f p); lia.
Qed.

Lemma tally_member (f : Prog unit -> bool) (ws : list (Prog unit)) (j : nat) (p : Prog unit) :
  ws !! j = Some p -> f p = true -> 1 <= tally f ws.
Proof.
  revert j. induction ws as [|q ws IH]; intros j Hj Hf; [discriminate|].
  destruct j as [|j]; simpl in Hj |- *.
  - injection Hj as ->. rewrite Hf. pose proof (tally_nonneg f ws). lia.
  - specialize (IH j Hj Hf). destruct (f q); lia.
Qed.

Lemma tally_exists (f : Prog unit -> bool) (ws : list (Prog unit)) :
  1 <= tally f ws -> exists j p, ws !! j = Some p /\ f p = true.
Proof.
  induction ws as [|q ws IH]; cbn [tally]; [lia|].
  destruct (f q) eqn:E.
  - intros _. exists 0%nat, q. auto.
  - intros Ht. destruct IH as (j & p & Hj & Hp); [lia|]. exists (S j), p. auto.
Qed.

(** *** Every piece of code runs out of steps *)

Lemma thread_acc {A} (p : Prog A) : Acc thread_succ p.
Proof.
  induction p as [a|msg|c k IH|s k IH]; constructor; intros q Hq; cbn in Hq.
  - contradiction.
  - contradiction.
  - destruct Hq as [r ->]. apply IH.
  - subst q. exact IH.
Qed.

Lemma pool_acc_cons (p : Prog unit) (ws : list (Prog unit)) :
  Acc thread_succ p -> Acc pool_succ ws -> Acc pool_succ (p :: ws).
Proof.
  intros Hp. revert ws. induction Hp as [p _ IHp]. intros ws Hws.
  induction Hws as [ws Hws IHws]. constructor.
  intros ws' (j & q & q' & Hj & Hs & ->). destruct j as [|j]; simpl in Hj |- *.
  - injection Hj as <-. apply IHp; [exact Hs|]. constructor. exact Hws.
  - apply IHws. exists j, q, q'. auto.
Qed.

Lemma pool_acc (ws : list (Prog unit)) : Acc pool_succ ws.
Proof.
  induction ws as [|p ws IH].
  - constructor. intros ws' (j & q & q' & Hj & _). discriminate.
  - apply pool_acc_cons; [apply thread_acc | exact IH].
Qed.

Lemma residual_step {A} (p q q' : Prog A) :
  residual p q -> thread_succ q' q -> residual p q'.
Proof.
  intros Hr. revert q'. induction Hr as [p|c k r q Hr IH|s k q Hr IH]; intros q' Hs.
  - destruct p as [a|msg|c k|s k]; cbn in Hs; try contradiction.
    + destruct Hs as [r ->]. eapply residual_op, residual_here.
    + subst q'. apply residual_sync, residual_here.
  - eapply residual_op, IH, Hs.
  - apply residual_sync, IH, Hs.
Qed.

Lemma tally_in_flight_le (ws : list (Prog unit)) :
  tally in_flight ws <= tally unfinished ws.
Proof.
  induction ws as [|p ws IH]; cbn [tally]; [lia|].
  destruct p as [a|msg|c k|s k]; cbn; try lia. destruct s; lia.
Qed.

Section scan_machine.
Context `{Runtime} {R : Type}.
Variables (t : TVSScraper) (tvsPaths : list string) (tvsData : list ListShowRow).
Variables (r : R) (h : environment).

Lemma running_in_flight (q : Prog unit) :
  returns q -> in_flight (bind q release_done) = true /\ unfinished (bind q release_done) = true.
Proof. destruct q as [a|msg|c k|s k]; cbn; intros Hq; try contradiction; auto. Qed.

Lemma goroutine_start (i : DirEntry) :
  loaded t -> (length tvsPaths <= length tvsData)%nat ->
  goroutine_of t tvsPaths tvsData i (goroutine (t, i, tvsPaths, tvsData)).
Proof.
  intros Ht Hlen. split; [apply residual_here|]. left.
  exists (processItemScan t i tvsPaths tvsData).
  split; [now apply returns_processItemScan | reflexivity].
Qed.

(** A step of a goroutine of the scan: it starts nothing, stays a
    goroutine of its entry, and moves the semaphore and the wait group by
    what it stops to hold. *)
Lemma goroutine_step (cf : Config R) (i : DirEntry) (p p' : Prog unit)
    (g : option (Prog unit)) (sz cur wg : Z) (w : trace) :
  goroutine_of t tvsPaths tvsData i p ->
  thread_step h p cf = Some (p', (g, sz, cur, wg, w)) ->
  g = None /\ goroutine_of t tvsPaths tvsData i p' /\ thread_succ p' p /\ unfinished p = true
  /\ sz = cf_sem_size cf
  /\ cur = cf_sem_cur cf - (if in_flight p then 1 else 0) + (if in_flight p' then 1 else 0)
  /\ wg = cf_wg cf - (if unfinished p then 1 else 0) + (if unfinished p' then 1 else 0).
Proof.
  intros [Hres Hshape] Hstep.
  assert (Hsucc : thread_succ p' p).
  { destruct p as [a|msg|c k|s k]; cbn in Hstep; try discriminate.
    - injection Hstep as <- _. cbn. eauto.
    - destruct (sync_effect _ _ _ _) as [[[[? ?] ?] ?]|]; [|discriminate].
      injection Hstep as <- _. reflexivity. }
  pose proof (residual_step _ _ _ Hres Hsucc) as Hres'.
  destruct Hshape as [(q & Hq & ->)|[->| ->]].
  - destruct q as [a|msg|c k|s k]; cbn in Hq; try contradiction.
    + cbn in Hstep. destruct (0 <=? cf_sem_cur cf - 1); [|discriminate].
      injection Hstep as <- <- <- <- <- <-. cbn.
      repeat split; auto; lia.
    + cbn in Hstep. injection Hstep as <- <- <- <- <- <-.
      destruct (running_in_flight (k (h c (cf_trace cf))) (Hq _)) as [E1 E2].
      cbn [in_flight unfinished bind]. rewrite E1, E2.
      repeat split; auto; try lia.
      left. exists (k (h c (cf_trace cf))). split; [apply Hq | reflexivity].
  - cbn in Hstep. destruct (0 <=? cf_wg cf - 1); [|discriminate].
    injection Hstep as <- <- <- <- <- <-. cbn.
    repeat split; auto; lia.
  - discriminate.
Qed.

Lemma Forall2_insert_r {A B} (P : A -> B -> Prop) (l : list A) (k : list B)
    (j : nat) (x : A) (y : B) :
  Forall2 P l k -> l !! j = Some x -> P x y -> Forall2 P l (<[j := y]> k).
Proof.
  intros HF Hl HP. rewrite <- (list_insert_id l j x Hl). now apply Forall2_insert.
Qed.

(** A step keeps the invariant: a step of the calling goroutine brings
    it nearer to its end, a step of another one is a step of the pool. *)
Lemma scan_inv_step (n : Z) (items : list DirEntry) (ph : phase) (cf cf' : Config R) :
  loaded t -> (length tvsPaths <= length tvsData)%nat ->
  scan_inv_at t tvsPaths tvsData r n items ph cf -> step h cf cf' ->
  (exists ph', scan_inv_at t tvsPaths tvsData r n items ph' cf' /\ (steps_left ph' < steps_left ph)%nat)
  \/ (scan_inv_at t tvsPaths tvsData r n items ph cf' /\ pool_succ (cf_workers cf') (cf_workers cf)).
Proof.
  intros Ht Hlen (started & Hitems & Hmain & Hws & Hsz & Hcur & Hle & Hwg & Hend) Hstep.
  destruct cf as [m ws sz cur wg w]. cbn [cf_main cf_workers cf_sem_size cf_sem_cur cf_wg] in *.
  destruct Hstep as [Hstep|j Hstep].
  - left. unfold main_step, thread_step in Hstep. cbn [cf_main cf_workers cf_sem_size
      cf_sem_cur cf_wg cf_trace] in Hstep. subst m.
    destruct ph as [[|i rest]|i rest|i rest|].
    + cbn in Hstep. destruct (wg =? 0) eqn:E; [|discriminate]. injection Hstep as <-.
      exists AtEnd. split; [|cbn; lia].
      exists started. cbn in *. repeat split; auto; try lia.
    + cbn in Hstep. destruct (0 <=? wg + 1) eqn:E; [|discriminate]. injection Hstep as <-.
      exists (AtAcquire i rest). split; [|cbn; lia].
      exists started. cbn in *. repeat split; auto; try lia. discriminate.
    + cbn in Hstep. destruct (cur + 1 <=? sz) eqn:E; [|discriminate]. injection Hstep as <-.
      exists (AtGo i rest). split; [|cbn; lia].
      exists started. cbn in *. repeat split; auto; try lia. discriminate.
    + cbn in Hstep. injection Hstep as <-.
      exists (AtLoop rest). split; [|cbn; lia].
      exists (started ++ [i]). cbn [cf_main cf_workers cf_sem_size cf_sem_cur cf_wg
        main_code to_start sem_ahead wg_ahead spawn] in *.
      destruct (running_in_flight (processItemScan t i tvsPaths tvsData)
                  (returns_processItemScan t i tvsPaths tvsData Ht Hlen)) as [E1 E2].
      change (bind (processItemScan t i tvsPaths tvsData) release_done)
        with (goroutine (t, i, tvsPaths, tvsData)) in E1, E2.
      change (bind (processItemScan t i tvsPaths tvsData)
                (fun _ : unit => Sync (SemRelease 1) (sync WgDone)))
        with (goroutine (t, i, tvsPaths, tvsData)).
      rewrite !tally_app. cbn [tally]. rewrite E1, E2.
      repeat split; auto; try lia.
      * rewrite <- app_assoc. exact Hitems.
      * apply Forall2_app; [exact Hws|]. constructor; [|constructor].
        now apply goroutine_start.
      * discriminate.
    + discriminate.
  - right. unfold worker_step in Hstep. cbn [cf_main cf_workers cf_sem_size
      cf_sem_cur cf_wg cf_trace] in Hstep.
    destruct (ws !! j) as [p|] eqn:Hj; [|discriminate].
    destruct (thread_step h p (mkConfig m ws sz cur wg w))
      as [[p' [[[[g sz'] cur'] wg'] w']]|] eqn:Hts; [|discriminate].
    injection Hstep as <-.
    destruct (Forall2_lookup_r _ _ _ _ _ Hws Hj) as (i & Hi & Hgo).
    destruct (goroutine_step _ i p p' g sz' cur' wg' w' Hgo Hts)
      as (-> & Hgo' & Hsucc & Hunf & -> & -> & ->).
    cbn [cf_main cf_workers cf_sem_size cf_sem_cur cf_wg spawn] in *.
    split; [|exists j, p, p'; auto].
    exists started. cbn [cf_main cf_workers cf_sem_size cf_sem_cur cf_wg].
    rewrite !(tally_insert _ _ _ _ _ Hj).
    pose proof (tally_member unfinished ws j p Hj Hunf) as Hone.
    assert (Hfl : (if in_flight p' then 1 else 0) <= (if in_flight p then 1 else 0)).
    { destruct Hgo as [_ [(q & Hq & ->)|[->| ->]]].
      - destruct (running_in_flight q Hq) as [-> _]. destruct (in_flight p'); lia.
      - cbn in Hts. destruct (0 <=? wg - 1); [|discriminate]. injection Hts as <-.
        cbn. lia.
      - discriminate. }
    repeat split; auto; try lia.
    + eapply Forall2_insert_r; eauto.
    + intros ->. specialize (Hend eq_refl). cbn in Hwg. lia.
Qed.

Lemma scan_inv_init (n : Z) (items : list DirEntry) (w : trace) :
  0 <= n ->
  scan_inv_at t tvsPaths tvsData r n items (AtLoop items)
    (mkConfig (main_loop t tvsPaths tvsData r items) [] n 0 0 w).
Proof.
  intros Hn. exists []. cbn. repeat split; auto; lia.
Qed.

Lemma scan_inv_steps (n : Z) (items : list DirEntry) (cf cf' : Config R) :
  loaded t -> (length tvsPaths <= length tvsData)%nat ->
  scan_inv t tvsPaths tvsData r n items cf -> steps h cf cf' ->
  scan_inv t tvsPaths tvsData r n items cf'.
Proof.
  intros Ht Hlen Hinv Hsteps. induction Hsteps as [cf|cf1 cf2 cf3 _ IH Hstep]; [exact Hinv|].
  destruct (IH Hinv) as [ph Hph].
  destruct (scan_inv_step n items ph cf2 cf3 Ht Hlen Hph Hstep) as [(ph' & Hph' & _)|[Hph' _]];
    eexists; eauto.
Qed.

(** No more than [n] goroutines are in flight. *)
Lemma scan_bounded (n : Z) (items : list DirEntry) (cf : Config R) :
  scan_inv t tvsPaths tvsData r n items cf -> tally in_flight (cf_workers cf) <= n.
Proof.
  intros (ph & started & _ & _ & _ & _ & Hcur & Hle & _). destruct ph; cbn in Hcur; lia.
Qed.

Lemma main_code_returned (ph : phase) (r' : R) :
  main_code t tvsPaths tvsData r ph = Ret r' -> ph = AtEnd /\ r' = r.
Proof.
  destruct ph as [[|i rest]|i rest|i rest|]; try discriminate.
  cbn. intros [= ->]. auto.
Qed.

(** When the calling goroutine has returned, every entry has had its one
    goroutine, and each of them has run to its end. *)
Lemma scan_returned (n : Z) (items : list DirEntry) (cf : Config R) (r' : R) :
  scan_inv t tvsPaths tvsData r n items cf -> cf_main cf = Ret r' ->
  r' = r
  /\ Forall2 (fun i p => residual (goroutine (t, i, tvsPaths, tvsData)) p /\ p = Ret tt)
       items (cf_workers cf).
Proof.
  intros (ph & started & Hitems & Hmain & Hws & _ & _ & _ & Hwg & Hend) Hret.
  rewrite Hmain in Hret. apply main_code_returned in Hret. destruct Hret as [-> ->].
  split; [reflexivity|]. specialize (Hend eq_refl). rewrite Hend in Hwg. cbn in Hwg, Hitems.
  rewrite app_nil_r in Hitems. subst started.
  assert (Hfin : Forall (fun p => unfinished p = false) (cf_workers cf))
    by (apply tally_zero; lia).
  clear Hwg Hend Hmain. induction Hws as [|i p il pl [Hres Hshape] Hrest IH]; constructor.
  - split; [exact Hres|]. apply Forall_cons in Hfin. destruct Hfin as [Hp _].
    destruct Hshape as [(q & Hq & ->)|[->| ->]]; [| discriminate | reflexivity].
    destruct (running_in_flight q Hq) as [_ E]. congruence.
  - apply IH. apply Forall_cons in Hfin. tauto.
Qed.

(** While the calling goroutine has not returned, some goroutine can take
    a step: the scan does not get stuck. *)
Lemma scan_progress (n : Z) (items : list DirEntry) (cf : Config R) :
  1 <= n -> scan_inv t tvsPaths tvsData r n items cf ->
  (forall r', cf_main cf <> Ret r') ->
  exists cf', step h cf cf'.
Proof.
  intros Hn (ph & started & Hitems & Hmain & Hws & Hsz & Hcur & Hle & Hwg & Hend) Hrun.
  destruct cf as [m ws sz cur wg w].
  cbn [cf_main cf_workers cf_sem_size cf_sem_cur cf_wg] in *.
  pose proof (tally_nonneg unfinished ws) as Hnn.
  pose proof (tally_nonneg in_flight ws) as Hnf.
  pose proof (tally_in_flight_le ws) as Hfu.
  destruct (Z.eq_dec (tally unfinished ws) 0) as [Hz|Hnz].
  - assert (Hmstep : exists cf', main_step h (mkConfig m ws sz cur wg w) = Some cf').
    { unfold main_step, thread_step. cbn [cf_main cf_workers cf_sem_size cf_sem_cur
        cf_wg cf_trace]. subst m.
      destruct ph as [[|i rest]|i rest|i rest|]; cbn in *.
      - replace (wg =? 0) with true by lia. eauto.
      - replace (0 <=? wg + 1) with true by lia. eauto.
      - replace (cur + 1 <=? sz) with true by lia. eauto.
      - eauto.
      - exfalso. eapply Hrun. reflexivity. }
    destruct Hmstep as [cf' Hcf']. exists cf'. now left.
  - destruct (tally_exists unfinished ws) as (j & p & Hj & Hp); [lia|].
    destruct (Forall2_lookup_r _ _ _ _ _ Hws Hj) as (i & Hi & [_ Hshape]).
    assert (Hts : exists x, thread_step h p (mkConfig m ws sz cur wg w) = Some x).
    { destruct Hshape as [(q & Hq & ->)|[->| ->]]; [| |discriminate].
      - pose proof (tally_member in_flight ws j _ Hj (proj1 (running_in_flight q Hq))).
        destruct q as [a|msg|c k|s k]; cbn in Hq; try contradiction; cbn.
        + replace (0 <=? cur - 1) with true by (destruct ph; cbn in Hcur; lia). eauto.
        + eauto.
      - cbn. replace (0 <=? wg - 1) with true by (destruct ph; cbn in Hwg; lia). eauto. }
    destruct Hts as [[p' [[[[g sz'] cur'] wg'] w']] Hts].
    eexists. right with (j := j). unfold worker_step. cbn [cf_workers].
    rewrite Hj, Hts. reflexivity.
Qed.

(** Every run of the concurrent scan is finite. *)
Lemma scan_terminates (n : Z) (items : list DirEntry) (cf : Config R) :
  loaded t -> (length tvsPaths <= length tvsData)%nat ->
  scan_inv t tvsPaths tvsData r n items cf ->
  Acc (fun cf' cf => step h cf cf') cf.
Proof.
  intros Ht Hlen [ph Hph]. remember (steps_left ph) as m eqn:Hm.
  revert ph cf Hm Hph. induction m as [m IHm] using lt_wf_ind. intros ph cf Hm Hph.
  remember (cf_workers cf) as ws eqn:Hws. revert cf Hws Hph.
  induction (pool_acc ws) as [ws _ IHws]. intros cf Hws Hph.
  constructor. intros cf' Hstep.
  destruct (scan_inv_step n items ph cf cf' Ht Hlen Hph Hstep)
    as [(ph' & Hph' & Hlt)|[Hph' Hpool]].
  - eapply (IHm (steps_left ph')); [lia | reflexivity | exact Hph'].
  - eapply (IHws (cf_workers cf')); [subst ws; exact Hpool | reflexivity | exact Hph'].
Qed.

End scan_machine.

(** *** The calling goroutine alone *)

Lemma steps_first `{Runtime} {R} (h : environment) (cf0 cf : Config R) :
  steps h cf0 cf -> cf = cf0 \/ exists cf1, step h cf0 cf1 /\ steps h cf1 cf.
Proof.
  induction 1 as [cf|cf1 cf2 cf3 Hs IH Hstep]; [now left|]. right.
  destruct IH as [->|(cf' & Hstep' & Hs')].
  - exists cf3. split; [exact Hstep | apply steps_refl].
  - exists cf'. split; [exact Hstep' | eapply steps_more; eauto].
Qed.

Lemma solo_step `{Runtime} {R} (h : environment) (cf cf' : Config R) :
  cf_workers cf = [] -> step h cf cf' -> main_step h cf = Some cf'.
Proof.
  intros Hws [Hm|j Hw]; [exact Hm|]. unfold worker_step in Hw. rewrite Hws in Hw.
  discriminate.
Qed.

Lemma solo_ret `{Runtime} {R} (h : environment) (a : R) sz cur wg w (cf : Config R) :
  steps h (mkConfig (Ret a) [] sz cur wg w) cf -> cf = mkConfig (Ret a) [] sz cur wg w.
Proof.
  intros Hs. destruct (steps_first h _ _ Hs) as [->|(cf1 & Hstep & _)]; [reflexivity|].
  apply solo_step in Hstep; [|reflexivity]. discriminate.
Qed.

Lemma solo_op `{Runtime} {R} (h : environment) (c : call) (k : resp c -> Prog R)
    sz cur wg w (cf : Config R) :
  steps h (mkConfig (Op c k) [] sz cur wg w) cf ->
  cf = mkConfig (Op c k) [] sz cur wg w
  \/ steps h (mkConfig (k (h c w)) [] sz cur wg (w ++ [Ev c (h c w)])) cf.
Proof.
  intros Hs. destruct (steps_first h _ _ Hs) as [->|(cf1 & Hstep & Hs')]; [now left|].
  apply solo_step in Hstep; [|reflexivity]. right.
  cbn in Hstep. injection Hstep as <-. exact Hs'.
Qed.

Lemma solo_sem_new `{Runtime} {R} (h : environment) (n : Z) (k : Prog R)
    sz cur wg w (cf : Config R) :
  steps h (mkConfig (Sync (SemNew n) k) [] sz cur wg w) cf ->
  cf = mkConfig (Sync (SemNew n) k) [] sz cur wg w
  \/ steps h (mkConfig k [] n 0 wg w) cf.
Proof.
  intros Hs. destruct (steps_first h _ _ Hs) as [->|(cf1 & Hstep & Hs')]; [now left|].
  apply solo_step in Hstep; [|reflexivity]. right.
  cbn in Hstep. injection Hstep as <-. exact Hs'.
Qed.

(** *** The entries *)

Lemma for_each_in_listing_order `{Runtime} (h : environment) (t : TVSScraper)
    (tvsPaths : list string) (tvsData : list ListShowRow) (items : list DirEntry) (w : trace) :
  run h (for_each items (fun i => processItemScan t i tvsPaths tvsData)) w
  = in_listing_order h t tvsPaths tvsData items w.
Proof.
  revert w. induction items as [|i items IH]; intros w; [reflexivity|].
  cbn [for_each in_listing_order]. rewrite run_bind.
  destruct (run h (processItemScan t i tvsPaths tvsData) w); auto.
Qed.

Lemma returns_sequential `{Runtime} (t : TVSScraper) (conf : ScraperScanConfig)
    (items : list DirEntry) (tvsPaths : list string) (tvsData : list ListShowRow) :
  loaded t -> (length tvsPaths <= length tvsData)%nat -> MaxConcurrentScans conf < 2 ->
  returns (Scan_entries t conf items tvsPaths tvsData).
Proof.
  intros Ht Hlen Hn. unfold Scan_entries.
  replace (MaxConcurrentScans conf <? 2) with true by lia.
  apply returns_for_each. intros i. now apply returns_processItemScan.
Qed.

(** The error an entry ends with goes to the log, and nowhere else. *)
Lemma processItemScan_logs `{Runtime} (h : environment) (w : trace) (t : TVSScraper)
    (i : DirEntry) (tvsPaths : list string) (tvsData : list ListShowRow) :
  loaded t -> (length tvsPaths <= length tvsData)%nat -> de_IsDir i = true ->
  exists err w1,
    run h (reconcileItem t i tvsPaths tvsData) w = Done err w1
    /\ run h (processItemScan t i tvsPaths tvsData) w
       = Done tt (w1 ++ match err with
                        | Some e => [Ev (Log (mkLogEntry LError (fields_tvs "Scan" (AStr (de_Name i)))
                                                e [])) tt]
                        | None => []
                        end).
Proof.
  intros Ht Hlen Hdir.
  destruct (returns_run _ h w (returns_reconcileItem t i tvsPaths tvsData Ht Hlen))
    as (tr & err & Hr).
  exists err, (w ++ tr). split; [exact Hr|].
  unfold processItemScan. rewrite Hdir, run_bind, Hr. destruct err as [e|].
  - apply run_logm_last.
  - cbn. now rewrite app_nil_r.
Qed.

(** The concurrent branch as a whole: from its start every state reached
    either has not created the semaphore yet or satisfies the invariant. *)
Lemma Scan_entries_inv `{Runtime} {R} (h : environment) (w : trace) (t : TVSScraper)
    (conf : ScraperScanConfig) (items : list DirEntry) (tvsPaths : list string)
    (tvsData : list ListShowRow) (r : R) (cf : Config R) :
  loaded t -> (length tvsPaths <= length tvsData)%nat -> 2 <= MaxConcurrentScans conf ->
  steps h (start (bind (Scan_entries t conf items tvsPaths tvsData) (fun _ => Ret r)) w) cf ->
  cf = start (bind (Scan_entries t conf items tvsPaths tvsData) (fun _ => Ret r)) w
  \/ scan_inv t tvsPaths tvsData r (MaxConcurrentScans conf) items cf.
Proof.
  intros Ht Hlen Hn Hs. unfold start, Scan_entries in *.
  replace (MaxConcurrentScans conf <? 2) with false in * by lia.
  change (bind (bind (sync (SemNew (MaxConcurrentScans conf)))
                  (fun _ => bind (spawn_all t items tvsPaths tvsData) (fun _ => sync WgWait)))
               (fun _ => Ret r))
    with (Sync (SemNew (MaxConcurrentScans conf)) (main_loop t tvsPaths tvsData r items)) in *.
  destruct (solo_sem_new h _ _ _ _ _ _ _ Hs) as [->|Hs']; [now left|right].
  eapply scan_inv_steps; [exact Ht | exact Hlen | | exact Hs'].
  exists (AtLoop items). apply scan_inv_init. lia.
Qed.

(** What holds in every state of the concurrent branch. *)
Lemma Scan_entries_reachable `{Runtime} {R : Type} (h : environment) (w : trace)
    (t : TVSScraper) (conf : ScraperScanConfig) (items : list DirEntry)
    (tvsPaths : list string) (tvsData : list ListShowRow) (r : R) (cf : Config R) :
  loaded t -> (length tvsPaths <= length tvsData)%nat -> 2 <= MaxConcurrentScans conf ->
  steps h (start (bind (Scan_entries t conf items tvsPaths tvsData) (fun _ => Ret r)) w) cf ->
  tally in_flight (cf_workers cf) <= MaxConcurrentScans conf
  /\ (forall r', cf_main cf = Ret r' ->
        r' = r
        /\ Forall2 (fun i p => residual (goroutine (t, i, tvsPaths, tvsData)) p /\ p = Ret tt)
             items (cf_workers cf))
  /\ ((forall r', cf_main cf <> Ret r') -> exists cf', step h cf cf')
  /\ Acc (fun cf' cf => step h cf cf') cf.
Proof.
  intros Ht Hlen Hn Hs.
  destruct (Scan_entries_inv h w t conf items tvsPaths tvsData r cf Ht Hlen Hn Hs)
    as [->|Hinv].
  - unfold start, Scan_entries. replace (MaxConcurrentScans conf <? 2) with false by lia.
    cbn [cf_workers cf_main tally bind sync]. split; [lia|]. split; [discriminate|].
    split.
    + intros _. eexists. left. reflexivity.
    + constructor. intros cf' Hstep.
      eapply (scan_terminates t tvsPaths tvsData r h (MaxConcurrentScans conf) items);
        [exact Ht | exact Hlen |].
      apply solo_step in Hstep; [|reflexivity]. cbn in Hstep. injection Hstep as <-.
      exists (AtLoop items). apply scan_inv_init. lia.
  - split; [eapply scan_bounded; eauto|]. split; [|split].
    + intros r' Hr'. eapply scan_returned; eauto.
    + intros Hrun. eapply scan_progress; eauto. lia.
    + eapply scan_terminates; eauto.
Qed.



(** *** The whole of [Scan] *)

Lemma acc_steps `{Runtime} {R} (h : environment) (cf cf' : Config R) :
  Acc (fun cf' cf => step h cf cf') cf -> steps h cf cf' ->
  Acc (fun cf' cf => step h cf cf') cf'.
Proof.
  intros Hacc Hs. induction Hs as [cf|cf1 cf2 cf3 _ IH Hstep]; [exact Hacc|].
  eapply Acc_inv; [apply IH; exact Hacc | exact Hstep].
Qed.

Lemma solo_op_acc `{Runtime} {R} (h : environment) (c : call) (k : resp c -> Prog R)
    sz cur wg w :
  Acc (fun cf' cf => step h cf cf')
      (mkConfig (k (h c w)) [] sz cur wg (w ++ [Ev c (h c w)])) ->
  Acc (fun cf' cf => step h cf cf') (mkConfig (Op c k) [] sz cur wg w).
Proof.
  intros Hacc. constructor. intros cf' Hstep.
  apply solo_step in Hstep; [|reflexivity]. cbn in Hstep. injection Hstep as <-. exact Hacc.
Qed.

Lemma solo_ret_acc `{Runtime} {R} (h : environment) (a : R) sz cur wg w :
  Acc (fun cf' cf => step h cf cf') (mkConfig (Ret a) [] sz cur wg w).
Proof.
  constructor. intros cf' Hstep. apply solo_step in Hstep; [|reflexivity]. discriminate.
Qed.

Lemma prescan_loaded (h : environment) (t : TVSScraper) idlib conf w :
  loaded t -> loaded (snd (fst (prescan h t idlib conf w))).
Proof.
  intros (H1 & H2 & H3). unfold prescan.
  destruct (snd (h (DB (GetLibrary idlib)) w)); [split; [|split]; assumption|].
  destruct (snd (h (DB (ListShow 0)) _)); [split; [|split]; assumption|].
  destruct (snd (h (ReadDir _) _)); split; try split; assumption.
Qed.

(** The history of the three steps holds their calls and nothing else. *)
Lemma prescan_history (h : environment) (t : TVSScraper) idlib conf w :
  exists tr, fst (fst (prescan h t idlib conf w)) = w ++ tr
             /\ Forall (fun ev => prescan_call (call_of ev) = true) tr.
Proof.
  unfold prescan.
  destruct (snd (h (DB (GetLibrary idlib)) w)).
  { eexists. split; [reflexivity|]. repeat constructor. }
  destruct (snd (h (DB (ListShow 0)) _)).
  { eexists. cbn [fst]. rewrite <- app_assoc. split; [reflexivity|]. repeat constructor. }
  destruct (snd (h (ReadDir _) _));
    (eexists; cbn [fst]; rewrite <- !app_assoc; split; [reflexivity|]; repeat constructor).
Qed.

(** A sequential run of [Scan]: the three steps, then the entries. *)
Lemma Scan_run `{Runtime} (h : environment) (w : trace) (t : TVSScraper)
    (idlib : Z) (conf : ScraperScanConfig) :
  run h (Scan t idlib conf) w
  = match prescan h t idlib conf w with
    | (w', t', inl e) => Done (t', Some e) w'
    | (w', t', inr (tvsData, items)) =>
        run h (bind (Scan_entries t' conf items (map row_Path tvsData) tvsData)
                    (fun _ => Ret (t', None))) w'
    end.
Proof.
  unfold Scan, prescan. cbn [t_IDLib set_scan]. rewrite run_perform.
  destruct (h (DB (GetLibrary idlib)) w) as [lib [e1|]]; cbn [fst snd]; [reflexivity|].
  rewrite run_perform.
  destruct (h (DB (ListShow 0)) _) as [tvsData [e2|]]; cbn [fst snd]; [reflexivity|].
  cbn [t_LibPath set_LibPath]. rewrite run_perform.
  destruct (h (ReadDir (lib_Path lib)) _) as [items [e3|]]; cbn [fst snd]; reflexivity.
Qed.

(** The states of [Scan] under the transition system: during the three
    steps the calling goroutine is alone and about to make a call; after
    them it has returned the error of the failed step, or the states are
    those of the entries. *)
Lemma Scan_steps `{Runtime} (h : environment) (w : trace) (t : TVSScraper)
    (idlib : Z) (conf : ScraperScanConfig) (cf : Config (TVSScraper * option error)) :
  steps h (start (Scan t idlib conf) w) cf ->
  (cf_workers cf = [] /\ exists c k, cf_main cf = Op c k)
  \/ match prescan h t idlib conf w with
     | (w', t', inl e) => cf = mkConfig (Ret (t', Some e)) [] 0 0 0 w'
     | (w', t', inr (tvsData, items)) =>
         steps h (start (bind (Scan_entries t' conf items (map row_Path tvsData) tvsData)
                              (fun _ => Ret (t', None))) w') cf
     end.
Proof.
  unfold start, Scan, prescan. cbn [t_IDLib set_scan]. intros Hs.
  apply (solo_op h (DB (GetLibrary idlib))) in Hs.
  destruct Hs as [->|Hs]; [left; split; [reflexivity|eauto]|].
  destruct (h (DB (GetLibrary idlib)) w) as [lib [e1|]]; cbn [fst snd bind] in *.
  { right. now apply solo_ret in Hs. }
  apply (solo_op h (DB (ListShow 0))) in Hs.
  destruct Hs as [->|Hs]; [left; split; [reflexivity|eauto]|].
  destruct (h (DB (ListShow 0)) _) as [tvsData [e2|]]; cbn [fst snd bind] in *.
  { right. now apply solo_ret in Hs. }
  cbn [t_LibPath set_LibPath] in Hs.
  apply (solo_op h (ReadDir (lib_Path lib))) in Hs.
  destruct Hs as [->|Hs]; [left; split; [reflexivity|eauto]|].
  destruct (h (ReadDir (lib_Path lib)) _) as [items [e3|]]; cbn [fst snd bind] in *.
  { right. now apply solo_ret in Hs. }
  right. exact Hs.
Qed.

(** Every run of [Scan] under the transition system is finite. *)
Lemma Scan_terminates `{Runtime} (h : environment) (w : trace) (t : TVSScraper)
    (idlib : Z) (conf : ScraperScanConfig) :
  loaded t -> 2 <= MaxConcurrentScans conf ->
  Acc (fun cf' cf => step h cf cf') (start (Scan t idlib conf) w).
Proof.
  intros Ht Hn. pose proof (prescan_loaded h t idlib conf w Ht) as Ht'.
  unfold prescan in Ht'. unfold start, Scan. cbn [t_IDLib set_scan].
  apply (solo_op_acc h (DB (GetLibrary idlib))).
  destruct (h (DB (GetLibrary idlib)) w) as [lib [e1|]]; cbn [fst snd bind] in *.
  { apply solo_ret_acc. }
  apply (solo_op_acc h (DB (ListShow 0))).
  destruct (h (DB (ListShow 0)) _) as [tvsData [e2|]]; cbn [fst snd bind] in *.
  { apply solo_ret_acc. }
  cbn [t_LibPath set_LibPath].
  apply (solo_op_acc h (ReadDir (lib_Path lib))).
  destruct (h (ReadDir (lib_Path lib)) _) as [items [e3|]]; cbn [fst snd bind] in *.
  { apply solo_ret_acc. }
  assert (Hlen : (length (map row_Path tvsData) <= length tvsData)%nat)
    by (rewrite length_map; lia).
  refine (proj2 (proj2 (proj2
            (Scan_entries_reachable h _ _ conf items _ tvsData _ _ Ht' Hlen Hn
               (steps_refl h _))))).
Qed.

(** ** Histories *)

Lemma collect_cons {A} (f : event -> list A) (e : event) (tr : trace) :
  collect f (e :: tr) = f e ++ collect f tr.
Proof. reflexivity. Qed.

Lemma collect_app {A} (f : event -> list A) (tr tr' : trace) :
  collect f (tr ++ tr') = collect f tr ++ collect f tr'.
Proof. unfold collect. now rewrite map_app, concat_app. Qed.

Lemma only_app (good : call -> bool) (tr tr' : trace) :
  only good tr -> only good tr' -> only good (tr ++ tr').
Proof. intros H1 H2. apply Forall_app. now split. Qed.

Lemma only_mono (good good' : call -> bool) (tr : trace) :
  (forall c, good c = true -> good' c = true) -> only good tr -> only good' tr.
Proof.
  intros Hg Htr. eapply Forall_impl; [exact Htr|]. intros e. apply Hg.
Qed.

(** A history without a call that [f] reads something off. *)
Lemma collect_only {A} (f : event -> list A) (good : call -> bool) (tr : trace) :
  (forall e, good (call_of e) = true -> f e = []) -> only good tr -> collect f tr = [].
Proof.
  intros Hf. induction 1 as [|e tr He _ IH]; [reflexivity|].
  now rewrite collect_cons, (Hf e He), IH.
Qed.

Lemma calls_only_ret {A} (good : call -> bool) (a : A) : calls_only good (Ret a).
Proof. constructor. Qed.

Lemma calls_only_perform (good : call -> bool) (c : call) :
  good c = true -> calls_only good (perform c).
Proof. intros Hc r. constructor; [exact Hc | constructor]. Qed.

Lemma calls_only_bind {A B} (good : call -> bool) (m : Prog A) (f : A -> Prog B) :
  calls_only good m -> (forall a, calls_only good (f a)) -> calls_only good (bind m f).
Proof.
  intros Hm Hf. apply emits_bind. eapply emits_mono; [|exact Hm].
  cbn beta. intros tr a Htr. eapply emits_mono; [|apply Hf].
  cbn beta. intros tr' b Htr'. now apply only_app.
Qed.

Lemma calls_only_for_each {A} (good : call -> bool) (xs : list A) (body : A -> Prog unit) :
  (forall x, calls_only good (body x)) -> calls_only good (for_each xs body).
Proof.
  intros Hb. induction xs as [|x xs IH]; [apply calls_only_ret|].
  cbn [for_each]. apply calls_only_bind; auto.
Qed.

Lemma calls_only_fold_each {A S} (good : call -> bool) (xs : list A) (acc : S)
    (body : S -> A -> Prog S) :
  (forall acc x, x ∈ xs -> calls_only good (body acc x)) ->
  calls_only good (fold_each xs acc body).
Proof.
  revert acc. induction xs as [|x xs IH]; intros acc Hb; [apply calls_only_ret|].
  cbn [fold_each]. apply calls_only_bind.
  - apply Hb. left.
  - intros a. apply IH. intros acc' y Hy. apply Hb. now right.
Qed.

Lemma calls_only_mono {A} (good good' : call -> bool) (p : Prog A) :
  (forall c, good c = true -> good' c = true) -> calls_only good p -> calls_only good' p.
Proof.
  intros Hg. apply emits_mono. intros tr _. now apply only_mono.
Qed.

Lemma calls_only_run {A} (good : call -> bool) (p : Prog A) (h : environment) (w : trace) :
  calls_only good p -> exists tr a, run h p w = Done a (w ++ tr) /\ only good tr.
Proof. intros Hp. apply (emits_run p _ Hp). Qed.

(** A loop whose body keeps an invariant of the elements gone through,
    the history and the accumulator. *)
Lemma emits_fold_each_hist {A S} (I : list A -> trace -> S -> Prop) (xs : list A)
    (body : S -> A -> Prog S) :
  (forall pre x tr acc, x ∈ xs -> I pre tr acc ->
     emits (body acc x) (fun tr' acc' => I (pre ++ [x]) (tr ++ tr') acc')) ->
  forall pre tr0 acc, I pre tr0 acc ->
    emits (fold_each xs acc body) (fun tr acc' => I (pre ++ xs) (tr0 ++ tr) acc').
Proof.
  induction xs as [|x xs IH]; intros Hb pre tr0 acc Hacc.
  - cbn. now rewrite !app_nil_r.
  - assert (Hb' : forall pre y tr acc, y ∈ xs -> I pre tr acc ->
                    emits (body acc y) (fun tr' acc' => I (pre ++ [y]) (tr ++ tr') acc'))
      by (intros pre' y tr1 acc1 Hy; apply Hb; now right).
    cbn [fold_each]. apply emits_bind.
    eapply emits_mono; [|apply (Hb pre x tr0 acc); [left | exact Hacc]].
    cbn beta. intros tr a Ha. eapply emits_mono; [|apply (IH Hb' _ _ _ Ha)].
    cbn beta. intros tr' a'. now rewrite <- !app_assoc.
Qed.

Lemma emits_for_each_hist {A} (I : list A -> trace -> Prop) (xs : list A)
    (body : A -> Prog unit) :
  (forall pre x tr, x ∈ xs -> I pre tr ->
     emits (body x) (fun tr' _ => I (pre ++ [x]) (tr ++ tr'))) ->
  forall pre tr0, I pre tr0 ->
    emits (for_each xs body) (fun tr _ => I (pre ++ xs) (tr0 ++ tr)).
Proof.
  induction xs as [|x xs IH]; intros Hb pre tr0 Hacc.
  - cbn. now rewrite !app_nil_r.
  - assert (Hb' : forall pre y tr, y ∈ xs -> I pre tr ->
                    emits (body y) (fun tr' _ => I (pre ++ [y]) (tr ++ tr')))
      by (intros pre' y tr1 Hy; apply Hb; now right).
    cbn [for_each]. apply emits_bind.
    eapply emits_mono; [|apply (Hb pre x tr0); [left | exact Hacc]].
    cbn beta. intros tr a Ha. eapply emits_mono; [|apply (IH Hb' _ _ Ha)].
    cbn beta. intros tr' a'. now rewrite <- !app_assoc.
Qed.

(** Two properties of the same program hold together. *)
Lemma emits_and {A} (p : Prog A) (Q Q' : trace -> A -> Prop) :
  emits p Q -> emits p Q' -> emits p (fun tr a => Q tr a /\ Q' tr a).
Proof.
  revert Q Q'. induction p as [a|msg|c k IH|s k IH]; intros Q Q'; cbn.
  - tauto.
  - tauto.
  - intros H1 H2 r. apply (IH r _ _ (H1 r) (H2 r)).
  - tauto.
Qed.

Ltac only_step :=
  match goal with
  | |- calls_only _ (Ret _) => apply calls_only_ret
  | |- calls_only _ (perform _) => apply calls_only_perform; reflexivity
  | |- calls_only _ (logf _ _ _ _) => apply calls_only_perform; reflexivity
  | |- calls_only _ (logm _ _ _) => apply calls_only_perform; reflexivity
  | |- calls_only _ (bind _ _) => apply calls_only_bind; [|intros ?]
  | |- calls_only _ (for_each _ _) => apply calls_only_for_each; intros ?
  | |- calls_only _ (fold_each _ _ _) => apply calls_only_fold_each; intros ? ? _
  | |- calls_only _ (match ?x with _ => _ end) => destruct x
  | |- calls_only _ (let '(_, _) := ?x in _) => destruct x
  end.

Ltac only_tac := repeat only_step.

(** ** Entry point of a scan *)

(** X1: [StartScan] turns down a media kind other than TV shows, and a
    TV-show scan without a library id, with an error and before any call:
    no plugin is loaded and the store is not read. *)
Theorem StartScan_rejects `{Runtime} (h : environment) (w : trace) (mediaType : MediaType)
    (lib : Z) (conf : ScraperScanConfig) :
  mediaType <> MediaTypeTvs \/ lib = 0 ->
  run h (StartScan mediaType lib conf) w
  = Done (Some (if MediaType_eqb mediaType MediaTypeTvs
                then "library id is required for tvshow scan"
                else "unsupported media type")) w.
Proof.
  intros [Hm| ->].
  - destruct mediaType; [contradiction|reflexivity..].
  - destruct mediaType; reflexivity.
Qed.

Lemma StartScan_rejects_witness :
  (MediaTypeTvsEpisode <> MediaTypeTvs \/ 7 = 0)
  /\ @run _ quiet_env
       (@StartScan example_runtime MediaTypeTvsEpisode 7 (mkScraperScanConfig true true false 1)) []
     = Done (Some "unsupported media type") [].
Proof.
  assert (Hm : MediaTypeTvsEpisode <> MediaTypeTvs \/ 7 = 0) by (left; discriminate).
  split; [exact Hm|].
  exact (@StartScan_rejects example_runtime quiet_env [] MediaTypeTvsEpisode 7
           (mkScraperScanConfig true true false 1) Hm).
Defined.

(** X2: a TV-show scan with a library id, below two concurrent scans,
    always returns: [StartScan] builds a scraper, which never fails (a
    configuration that cannot be read or an empty provider set is only
    logged), and returns what [Scan] returns on it: the error of the first
    of the three opening steps that failed, else success once the entries
    have been gone through in listing order. *)
Theorem StartScan_runs_Scan `{Runtime} (h : environment) (w : trace) (lib : Z)
    (conf : ScraperScanConfig) :
  lib <> 0 -> MaxConcurrentScans conf < 2 ->
  exists t w1,
    run h NewTVSScraper w = Done t w1 /\ loaded t
    /\ match prescan h t lib conf w1 with
       | (w', _, inl e) => run h (StartScan MediaTypeTvs lib conf) w = Done (Some e) w'
       | (w', t', inr (tvsData, items)) =>
           exists w'',
             in_listing_order h t' (map row_Path tvsData) tvsData items w' = Done tt w''
             /\ run h (StartScan MediaTypeTvs lib conf) w = Done None w''
       end.
Proof.
  intros Hlib Hn.
  destruct (emits_run NewTVSScraper _ NewTVSScraper_spec h w) as (tr & t & Hnew & Ht).
  exists t, (w ++ tr). split; [exact Hnew|]. split; [exact Ht|].
  assert (Hrun : run h (StartScan MediaTypeTvs lib conf) w
                 = match run h (Scan t lib conf) (w ++ tr) with
                   | Done (_, err) w' => Done err w'
                   | Panicked msg w' => Panicked msg w'
                   | Blocked s w' => Blocked s w'
                   end).
  { unfold StartScan. replace (lib =? 0) with false by lia.
    rewrite run_bind, Hnew, run_bind.
    destruct (run h (Scan t lib conf) (w ++ tr)) as [[t' err] w'| |]; reflexivity. }
  rewrite Scan_run in Hrun.
  pose proof (prescan_loaded h t lib conf (w ++ tr) Ht) as Ht'.
  destruct (prescan h t lib conf (w ++ tr)) as [[w' t'] [e|[tvsData items]]];
    [exact Hrun|].
  cbn [fst snd] in Ht'.
  assert (Hlen : (length (map row_Path tvsData) <= length tvsData)%nat)
    by (rewrite length_map; lia).
  destruct (returns_run _ h w'
              (returns_sequential t' conf items _ tvsData Ht' Hlen Hn)) as (tr' & [] & Hs).
  exists (w' ++ tr'). split.
  - rewrite <- for_each_in_listing_order. unfold Scan_entries in Hs.
    replace (MaxConcurrentScans conf <? 2) with true in Hs by lia. exact Hs.
  - rewrite Hrun, run_bind, Hs. reflexivity.
Qed.

Lemma StartScan_runs_Scan_witness :
  1 <> 0 /\ MaxConcurrentScans (mkScraperScanConfig false true false 1) < 2
  /\ exists w'',
       @run _ one_folder_env
         (@StartScan example_runtime MediaTypeTvs 1 (mkScraperScanConfig false true false 1)) []
       = Done None w''.
Proof.
  assert (H1 : 1 <> 0) by lia.
  assert (H2 : MaxConcurrentScans (mkScraperScanConfig false true false 1) < 2)
    by (cbn; lia).
  split; [exact H1|]. split; [exact H2|].
  destruct (@StartScan_runs_Scan example_runtime one_folder_env [] 1
              (mkScraperScanConfig false true false 1) H1 H2) as (t & w1 & Hnew & _ & Hrest).
  vm_compute in Hnew. injection Hnew as <- <-.
  vm_compute in Hrest. destruct Hrest as (w'' & _ & Hrun).
  exists w''. vm_compute. exact Hrun.
Defined.

(** ** Scraper configuration and plugins *)

Lemma ListScraperConfiguration_loop_spec `{Runtime} (data : list ScraperRow)
    (names : list string) (config : gmap string (gmap string string)) :
  exists gone : list ScraperRow,
    let '(names', config', err) := ListScraperConfiguration_loop data names config in
    names' = names ++ map sc_Provider gone
    /\ gone `prefix_of` filter (fun r => sc_Enabled r = true) data
    /\ (forall n, is_Some (config' !! n) ->
          is_Some (config !! n) \/ n ∈ map sc_Provider gone)
    /\ (forall n, is_Some (config !! n) -> is_Some (config' !! n))
    /\ (err = None ->
          gone = filter (fun r => sc_Enabled r = true) data
          /\ forall n, n ∈ map sc_Provider gone -> is_Some (config' !! n)).
Proof.
  revert names config. induction data as [|i data IH]; intros names config.
  - exists []. cbn. rewrite app_nil_r. repeat split; auto.
    intros n Hn. inversion Hn.
  - cbn [ListScraperConfiguration_loop]. destruct (sc_Enabled i) eqn:Ei.
    + rewrite filter_cons_True by exact Ei.
      destruct (json_Unmarshal_settings (sc_Settings i)) as [x [e|]].
      * exists [i]. cbn. repeat split; auto.
        -- apply prefix_cons, prefix_nil.
        -- discriminate.
        -- discriminate.
      * destruct (IH (names ++ [sc_Provider i]) (<[sc_Provider i := x]> config))
          as [gone Hg].
        exists (i :: gone).
        destruct (ListScraperConfiguration_loop data _ _) as [[names' config'] err].
        destruct Hg as (Hn & Hp & Hc1 & Hc2 & He). cbn [map].
        split; [now rewrite Hn, <- app_assoc|].
        split; [now apply prefix_cons|].
        split; [|split].
        -- intros n Hin. destruct (Hc1 n Hin) as [Hi|Hi].
           ++ destruct (decide (sc_Provider i = n)) as [<-|Hne].
              ** right. left.
              ** left. now rewrite lookup_insert_ne in Hi.
           ++ right. now right.
        -- intros n Hin. apply Hc2.
           destruct (decide (sc_Provider i = n)) as [<-|Hne].
           ++ rewrite lookup_insert_eq. eauto.
           ++ now rewrite lookup_insert_ne.
        -- intros Herr. destruct (He Herr) as [-> Hall]. split; [reflexivity|].
           intros n Hin. apply elem_of_cons in Hin. destruct Hin as [->|Hin].
           ++ apply Hc2. rewrite lookup_insert_eq. eauto.
           ++ now apply Hall.
    + rewrite filter_cons_False by (rewrite Ei; discriminate). apply IH.
Qed.

(** What the loop over the scraper rows leaves, exactly: the settings
    of the enabled rows that decoded, stored in order under their
    provider, up to the first enabled row that does not decode; the names
    run up to and including that row, whose error is the result. *)
Lemma ListScraperConfiguration_loop_exact `{Runtime} (data : list ScraperRow)
    (names : list string) (config : gmap string (gmap string string)) :
  exists decoded : list ScraperRow,
    let '(names', config', err) := ListScraperConfiguration_loop data names config in
    Forall (fun r => snd (json_Unmarshal_settings (sc_Settings r)) = None) decoded
    /\ config' = foldl stored_settings config decoded
    /\ match err with
       | None =>
           filter (fun r => sc_Enabled r = true) data = decoded
           /\ names' = names ++ map sc_Provider decoded
       | Some x =>
           exists i rest,
             filter (fun r => sc_Enabled r = true) data = decoded ++ i :: rest
             /\ snd (json_Unmarshal_settings (sc_Settings i)) = Some x
             /\ names' = names ++ map sc_Provider (decoded ++ [i])
       end.
Proof.
  revert names config. induction data as [|i data IH]; intros names config.
  - exists []. cbn. rewrite app_nil_r. repeat split; auto.
  - cbn [ListScraperConfiguration_loop]. destruct (sc_Enabled i) eqn:Ei.
    + rewrite filter_cons_True by exact Ei.
      destruct (json_Unmarshal_settings (sc_Settings i)) as [x [e|]] eqn:Ej.
      * exists []. cbn [foldl app map]. split; [constructor|]. split; [reflexivity|].
        exists i, (filter (fun r => sc_Enabled r = true) data).
        split; [reflexivity|]. split; [now rewrite Ej | reflexivity].
      * destruct (IH (names ++ [sc_Provider i]) (<[sc_Provider i := x]> config))
          as [decoded Hd].
        exists (i :: decoded).
        destruct (ListScraperConfiguration_loop data _ _) as [[names' config'] err].
        destruct Hd as (Hok & Hc & He).
        split; [constructor; [now rewrite Ej | exact Hok]|].
        split; [cbn [foldl]; unfold stored_settings at 2; now rewrite Ej|].
        destruct err as [x'|].
        -- destruct He as (j & rest & Hf & Hj & Hn). exists j, rest.
           split; [now rewrite Hf|]. split; [exact Hj|].
           rewrite Hn. cbn [app map]. now rewrite <- app_assoc.
        -- destruct He as [Hf Hn]. split; [now rewrite Hf|].
           rewrite Hn. cbn [map]. now rewrite <- app_assoc.
    + rewrite filter_cons_False by (rewrite Ei; discriminate). apply IH.
Qed.

(** X3: [ListScraperConfiguration] makes one call, the read of the
    scrapers of the media kind.  The names it returns are providers of
    enabled rows in the order of the rows; only names returned have
    settings; when the read fails its error is returned with no name; and
    on success the names are those of all the enabled rows, each with its
    settings.  Exactly, when the read succeeds: the settings are those of
    the enabled rows before the first enabled row whose settings do not
    decode (of all of them when there is none), each decoded and stored
    under its provider in the order of the rows; without such a row the
    names are the providers of all the enabled rows and there is no error;
    with one, the names are the providers of the enabled rows up to and
    including that row, and its decoding error is returned. *)
Theorem ListScraperConfiguration_enabled `{Runtime} (h : environment) (w : trace)
    (mediaType : MediaType) :
  exists data e names config err,
    h (DB (ListScraperForType mediaType)) w = (data, e)
    /\ run h (ListScraperConfiguration mediaType) w
       = Done (names, config, err) (w ++ [Ev (DB (ListScraperForType mediaType)) (data, e)])
    /\ names `prefix_of` map sc_Provider (filter (fun r => sc_Enabled r = true) data)
    /\ (forall n, is_Some (config !! n) -> n ∈ names)
    /\ (e <> None -> err = e /\ names = [])
    /\ (err = None ->
          e = None
          /\ names = map sc_Provider (filter (fun r => sc_Enabled r = true) data)
          /\ forall n, n ∈ names -> is_Some (config !! n))
    /\ (e = None ->
          exists decoded : list ScraperRow,
            Forall (fun r => snd (json_Unmarshal_settings (sc_Settings r)) = None) decoded
            /\ config = foldl stored_settings ∅ decoded
            /\ match err with
               | None =>
                   filter (fun r => sc_Enabled r = true) data = decoded
                   /\ names = map sc_Provider decoded
               | Some x =>
                   exists i rest,
                     filter (fun r => sc_Enabled r = true) data = decoded ++ i :: rest
                     /\ snd (json_Unmarshal_settings (sc_Settings i)) = Some x
                     /\ names = map sc_Provider (decoded ++ [i])
               end).
Proof.
  unfold ListScraperConfiguration. rewrite run_perform.
  destruct (h (DB (ListScraperForType mediaType)) w) as [data [e|]] eqn:Eh.
  - exists data, (Some e), [], ∅, (Some e). cbn.
    repeat split; auto; try discriminate.
    + apply prefix_nil.
    + intros n [x Hx]. now rewrite lookup_empty in Hx.
  - destruct (ListScraperConfiguration_loop_spec data [] ∅) as [gone Hg].
    pose proof (ListScraperConfiguration_loop_exact data [] ∅) as [decoded Hd].
    destruct (ListScraperConfiguration_loop data [] ∅) as [[names config] err].
    destruct Hg as (Hn & Hp & Hc1 & _ & He). cbn [app] in Hn.
    exists data, None, names, config, err. cbn [run].
    split; [reflexivity|]. split; [reflexivity|].
    split.
    { subst names. destruct Hp as [k Hk]. rewrite Hk, map_app.
      now exists (map sc_Provider k). }
    split; [|split; [|split]].
    + subst names. intros n Hin. destruct (Hc1 n Hin) as [[x Hx]|Hi]; [|exact Hi].
      now rewrite lookup_empty in Hx.
    + intros Hne. now contradiction Hne.
    + subst names. intros Herr. destruct (He Herr) as [-> Hall]. auto.
    + intros _. exists decoded. exact Hd.
Qed.

Lemma plugins_loaded_quiet (tr tr' : trace) (t : TVSScraper) :
  collect factory_of tr' = [] -> plugins_loaded tr t -> plugins_loaded (tr ++ tr') t.
Proof.
  intros Hq (Hn & Hrest). split; [|exact Hrest].
  now rewrite collect_app, Hq, app_nil_r.
Qed.

Lemma loadTVSPlugins_providers `{Runtime} (t : TVSScraper) :
  plugins_loaded [] t ->
  emits (loadTVSPlugins t) (fun tr r => plugins_loaded tr (fst r)).
Proof.
  intros Ht. unfold loadTVSPlugins. apply emits_bind.
  unfold ListScraperConfiguration. cbn [emits bind perform].
  intros [data [e|]]; cbn [emits bind].
  { apply (plugins_loaded_quiet [] _ t); [reflexivity | exact Ht]. }
  destruct (ListScraperConfiguration_loop data [] ∅) as [[names config] [e|]];
    cbn [emits bind].
  { apply (plugins_loaded_quiet [] _ t); [reflexivity | exact Ht]. }
  apply emits_bind.
  eapply emits_mono;
    [|apply (emits_fold_each_hist (fun _ tr t' => plugins_loaded tr t') names _)
        with (pre := []) (tr0 := [Ev (DB (ListScraperForType MediaTypeTvs)) (data, None)])
             (acc := t)].
  - cbn beta. intros tr t' Ht'. cbn [emits bind logm logf perform]. intros [].
    destruct (bool_decide _); cbn [emits fst];
      rewrite app_assoc; (apply plugins_loaded_quiet; [reflexivity | exact Ht']).
  - clear. intros _ i tr t _ Ht. cbn [emits bind perform].
    intros [pl [e|]]; cbn [emits].
    { apply plugins_loaded_quiet; [now destruct pl | exact Ht]. }
    destruct pl as [|p]; cbn [emits bind perform].
    { apply plugins_loaded_quiet; [reflexivity | exact Ht]. }
    intros prov [].
    destruct Ht as (Hn & Hk & H1 & H2 & H3).
    split; [|split; [|auto]].
    + cbn [t_ProviderNames set_Providers]. rewrite map_app, collect_app, Hn. reflexivity.
    + cbn [t_ProviderNames t_Providers set_Providers]. intros n.
      rewrite elem_of_app, list_elem_of_singleton, Hk.
      destruct (decide (i = n)) as [->|Hne].
      * rewrite lookup_insert_eq. split; eauto.
      * rewrite lookup_insert_ne by exact Hne. split; [intros [Hi|Hi]|]; auto. congruence.
  - apply (plugins_loaded_quiet [] _ t); [reflexivity | exact Ht].
Qed.

(** X4: [NewTVSScraper] never fails.  The scraper it returns has a
    provider exactly for the names it keeps in order of preference; these
    are the plugins that loaded without error and hold a provider factory,
    in the order they were loaded; and it is set to library 0, no automatic
    selection, unknown shows wanted. *)
Theorem NewTVSScraper_providers `{Runtime} (h : environment) (w : trace) :
  exists tr t,
    run h NewTVSScraper w = Done t (w ++ tr)
    /\ map (String.append "./plugins/scraper/") (t_ProviderNames t) = collect factory_of tr
    /\ (forall n, n ∈ t_ProviderNames t <-> is_Some (t_Providers t !! n))
    /\ t_IDLib t = 0 /\ t_AutoAdd t = false /\ t_AddUnknown t = true.
Proof.
  apply (emits_run NewTVSScraper (fun tr t => plugins_loaded tr t)).
  unfold NewTVSScraper. apply emits_bind.
  eapply emits_mono; [|apply loadTVSPlugins_providers].
  - cbn beta. intros tr [t [e|]] Ht; cbn [emits bind logm logf perform fst] in *.
    + intros []. now apply plugins_loaded_quiet.
    + now rewrite app_nil_r.
  - split; [reflexivity|]. split; [|auto]. cbn. intros n. split.
    + intros Hn. inversion Hn.
    + intros [x Hx]. now rewrite lookup_empty in Hx.
Qed.

(** ** Candidate batches, tags and people *)

(** X5: [AddMultipleResults] replaces the batch of a media item: it
    first deletes the stored batch, and inserts the new one, encoded, under
    the same key only when the delete succeeded and the candidates could be
    encoded; the error of the step that failed, else the answer of the
    insert, is what it returns. *)
Theorem AddMultipleResults_replaces `{Runtime} (h : environment) (w : trace)
    (mediaType : MediaType) (mediaData : Z) (searchResults : list SearchData)
    (name : string) :
  let del := DB (DeleteMultipleResultsByMedia (mkMediaKey mediaType mediaData)) in
  exists tr ret,
    run h (AddMultipleResults mediaType mediaData searchResults name) w = Done ret (w ++ tr)
    /\ ((exists e, tr = [Ev del (Some e)] /\ ret = Some e)
        \/ (exists e, tr = [Ev del None] /\ snd (json_Marshal searchResults) = Some e
                      /\ ret = Some e)
        \/ (exists jsonData,
              json_Marshal searchResults = (jsonData, None)
              /\ tr = [Ev del None;
                       Ev (DB (AddMultipleResultsQ
                                 (mkAddMultipleResultsParams mediaType mediaData jsonData name)))
                          ret])).
Proof.
  intros del. apply emits_run. unfold AddMultipleResults. cbn [emits bind perform].
  intros [e|]; cbn [emits]; [left; eauto|].
  destruct (json_Marshal searchResults) as [jsonData [e|]]; cbn [emits perform].
  - right. left. eauto.
  - intros ret. right. right. eauto.
Qed.

Lemma AddTag_shape (mediaType : MediaType) (mediaData : Z) (tag : TagData) :
  let key := mkMediaKey mediaType mediaData in
  let create := DB (AddTagQ (tag_Name tag) (tag_Value tag) (tag_Icon tag)) in
  emits (AddTag mediaType mediaData tag)
    (fun tr0 ret => exists tagData e tr,
       tr0 = Ev (DB (GetTagByValue (tag_Name tag) (tag_Value tag))) (tagData, e) :: tr
       /\ if bool_decide (e <> None) || String.eqb (tr_Name tagData) ""
          then (exists id x, tr = [Ev create (id, Some x)] /\ ret = Some x)
               \/ (exists id, tr = [Ev create (id, None); Ev (DB (AddTagLink id key)) ret])
          else tr = [Ev (DB (AddTagLink (tr_ID tagData) key)) ret]).
Proof.
  intros key create. unfold AddTag. cbn [emits bind perform]. intros [tagData e].
  destruct (bool_decide (e <> None) || String.eqb (tr_Name tagData) "") eqn:E;
    cbn [emits bind perform].
  - intros [id [x|]]; cbn [emits perform].
    + exists tagData, e. eexists. split; [reflexivity|]. rewrite E. left. eauto.
    + intros ret. exists tagData, e. eexists. split; [reflexivity|]. rewrite E. right. eauto.
  - intros ret. exists tagData, e. eexists. split; [reflexivity|]. now rewrite E.
Qed.

(** X6: [AddTag] looks the tag up by name and value.  When the lookup
    fails or finds a tag without a name, the tag is created first and the
    id the store gave it is linked; when the creation fails its error is
    returned and no link is made.  A tag that was found is linked as it
    is: nothing is created.  The link is the last call and its answer is
    the result. *)
Theorem AddTag_links (h : environment) (w : trace) (mediaType : MediaType)
    (mediaData : Z) (tag : TagData) :
  let key := mkMediaKey mediaType mediaData in
  let create := DB (AddTagQ (tag_Name tag) (tag_Value tag) (tag_Icon tag)) in
  exists tagData e tr ret,
    run h (AddTag mediaType mediaData tag) w
    = Done ret (w ++ Ev (DB (GetTagByValue (tag_Name tag) (tag_Value tag))) (tagData, e) :: tr)
    /\ if bool_decide (e <> None) || String.eqb (tr_Name tagData) ""
       then (exists id x, tr = [Ev create (id, Some x)] /\ ret = Some x)
            \/ (exists id, tr = [Ev create (id, None); Ev (DB (AddTagLink id key)) ret])
       else tr = [Ev (DB (AddTagLink (tr_ID tagData) key)) ret].
Proof.
  intros key create.
  destruct (emits_run _ _ (AddTag_shape mediaType mediaData tag) h w)
    as (tr0 & ret & Hr & tagData & e & tr & -> & Hshape).
  exists tagData, e, tr, ret. split; [exact Hr | exact Hshape].
Qed.

Lemma AddPerson_shape (mediaType : MediaType) (mediaData : Z) (person : PersonData) :
  let key := mkMediaKey mediaType mediaData in
  let create := DB (AddPersonQ (person_Name person)) in
  emits (AddPerson mediaType mediaData person)
    (fun tr0 ret => exists personData e tr,
       tr0 = Ev (DB (GetPersonByName (person_Name person))) (personData, e) :: tr
       /\ if bool_decide (e <> None) || String.eqb (pr_Name personData) ""
          then (exists id x, tr = [Ev create (id, Some x)] /\ ret = Some x)
               \/ (exists id, tr = [Ev create (id, None); Ev (DB (AddPersonLink id key)) ret])
          else tr = [Ev (DB (AddPersonLink (pr_ID personData) key)) ret]).
Proof.
  intros key create. unfold AddPerson. cbn [emits bind perform]. intros [personData e].
  destruct (bool_decide (e <> None) || String.eqb (pr_Name personData) "") eqn:E;
    cbn [emits bind perform].
  - intros [id [x|]]; cbn [emits perform].
    + exists personData, e. eexists. split; [reflexivity|]. rewrite E. left. eauto.
    + intros ret. exists personData, e. eexists. split; [reflexivity|]. rewrite E.
      right. eauto.
  - intros ret. exists personData, e. eexists. split; [reflexivity|]. now rewrite E.
Qed.

(** X7: [AddPerson] looks the person up by name.  When the lookup fails
    or finds a person without a name, the person is created first and the
    id the store gave is linked; when the creation fails its error is
    returned and no link is made.  A person that was found is linked as it
    is.  The link is the last call and its answer is the result. *)
Theorem AddPerson_links (h : environment) (w : trace) (mediaType : MediaType)
    (mediaData : Z) (person : PersonData) :
  let key := mkMediaKey mediaType mediaData in
  let create := DB (AddPersonQ (person_Name person)) in
  exists personData e tr ret,
    run h (AddPerson mediaType mediaData person) w
    = Done ret (w ++ Ev (DB (GetPersonByName (person_Name person))) (personData, e) :: tr)
    /\ if bool_decide (e <> None) || String.eqb (pr_Name personData) ""
       then (exists id x, tr = [Ev create (id, Some x)] /\ ret = Some x)
            \/ (exists id, tr = [Ev create (id, None); Ev (DB (AddPersonLink id key)) ret])
       else tr = [Ev (DB (AddPersonLink (pr_ID personData) key)) ret].
Proof.
  intros key create.
  destruct (emits_run _ _ (AddPerson_shape mediaType mediaData person) h w)
    as (tr0 & ret & Hr & personData & e & tr & -> & Hshape).
  exists personData, e, tr, ret. split; [exact Hr | exact Hshape].
Qed.

(** ** Manual selection *)

(** X8: [SelectScraperResult] gives up with an error after the one read
    of the stored batch, before any plugin is loaded and before any write,
    when the batch cannot be read, when it does not decode, or when the
    media kind has no scraper. *)
Theorem SelectScraperResult_fails_early `{Runtime} (h : environment) (w : trace)
    (mediaType : MediaType) (mediaData id : Z) :
  let get := DB (GetMultipleResultsByMedia (mkMediaKey mediaType mediaData)) in
  snd (h get w) <> None
  \/ snd (json_Unmarshal_batch (mr_Data (fst (h get w)))) <> None
  \/ mediaType <> MediaTypeTvs ->
  exists e,
    run h (SelectScraperResult mediaType mediaData id) w
    = Done (SearchData_zero, Some e) (w ++ [Ev get (h get w)]).
Proof.
  intros get Hcase. unfold SelectScraperResult. rewrite run_perform. fold get.
  destruct (h get w) as [data [e|]]; cbn [fst snd] in *; [eexists; reflexivity|].
  destruct (json_Unmarshal_batch (mr_Data data)) as [searchData [e|]]; cbn [fst snd] in *;
    [eexists; reflexivity|].
  destruct Hcase as [Hc|[Hc|Hc]]; [now contradiction Hc..|].
  unfold getScraperFromMediaType.
  destruct mediaType; [now contradiction Hc|eexists; reflexivity..].
Qed.

Lemma SelectScraperResult_fails_early_witness :
  (snd (quiet_env (DB (GetMultipleResultsByMedia (mkMediaKey MediaTypeTvsEpisode 1))) [])
     <> None
   \/ snd (@json_Unmarshal_batch example_runtime
             (mr_Data (fst (quiet_env
                (DB (GetMultipleResultsByMedia (mkMediaKey MediaTypeTvsEpisode 1))) []))))
        <> None
   \/ MediaTypeTvsEpisode <> MediaTypeTvs)
  /\ exists e,
       @run _ quiet_env (@SelectScraperResult example_runtime MediaTypeTvsEpisode 1 0) []
       = Done (SearchData_zero, Some e)
           [Ev (DB (GetMultipleResultsByMedia (mkMediaKey MediaTypeTvsEpisode 1)))
               (mkMultipleResultsRow "[Dark]", None)].
Proof.
  assert (Hc : snd (quiet_env (DB (GetMultipleResultsByMedia
                                     (mkMediaKey MediaTypeTvsEpisode 1))) []) <> None
               \/ snd (@json_Unmarshal_batch example_runtime
                         (mr_Data (fst (quiet_env
                            (DB (GetMultipleResultsByMedia
                                   (mkMediaKey MediaTypeTvsEpisode 1))) [])))) <> None
               \/ MediaTypeTvsEpisode <> MediaTypeTvs)
    by (right; right; discriminate).
  split; [exact Hc|].
  exact (@SelectScraperResult_fails_early example_runtime quiet_env []
           MediaTypeTvsEpisode 1 0 Hc).
Defined.

(** X9: with a stored batch that decodes and an index inside it,
    [SelectScraperResult] builds a scraper, applies the candidate at the
    index through the selection applier, and deletes the batch only when
    all five writes of the applier succeeded; the candidate is returned
    when the delete succeeded too, else the error of the step that
    failed, with the zero candidate. *)
Theorem SelectScraperResult_selects `{Runtime} (h : environment) (w : trace)
    (mediaData id : Z) (data : MultipleResultsRow) (searchData : list SearchData)
    (chosen : SearchData) :
  let key := mkMediaKey MediaTypeTvs mediaData in
  let del := DB (DeleteMultipleResultsByMedia key) in
  let selection := mkSelectionResult (sd_ScraperName chosen) (sd_ScraperID chosen)
                                     (sd_ScraperData chosen) in
  h (DB (GetMultipleResultsByMedia key)) w = (data, None) ->
  json_Unmarshal_batch (mr_Data data) = (searchData, None) ->
  0 <= id -> searchData !! Z.to_nat id = Some chosen ->
  exists t w1 tr applied,
    run h NewTVSScraper (w ++ [Ev (DB (GetMultipleResultsByMedia key)) (data, None)])
    = Done t w1
    /\ run h (UpdateWithSelectionResult t mediaData selection) w1 = Done applied (w1 ++ tr)
    /\ applier_outcome mediaData selection tr applied
    /\ run h (SelectScraperResult MediaTypeTvs mediaData id) w
       = match applied with
         | Some e => Done (SearchData_zero, Some e) (w1 ++ tr)
         | None =>
             Done (match h del (w1 ++ tr) with
                   | Some e => (SearchData_zero, Some e)
                   | None => (chosen, None)
                   end)
                  ((w1 ++ tr) ++ [Ev del (h del (w1 ++ tr))])
         end.
Proof.
  intros key del selection Hget Hjson Hid Hl.
  destruct (returns_run NewTVSScraper h
              (w ++ [Ev (DB (GetMultipleResultsByMedia key)) (data, None)])
              returns_NewTVSScraper) as (tr1 & t & Hnew).
  destruct (emits_run _ _ (applier_spec t mediaData selection) h
              ((w ++ [Ev (DB (GetMultipleResultsByMedia key)) (data, None)]) ++ tr1))
    as (tr & applied & Happ & Hout).
  exists t, ((w ++ [Ev (DB (GetMultipleResultsByMedia key)) (data, None)]) ++ tr1), tr, applied.
  split; [exact Hnew|]. split; [exact Happ|]. split; [exact Hout|].
  pose proof (lookup_lt_Some _ _ _ Hl) as Hlt.
  unfold SelectScraperResult. fold key. rewrite run_perform, Hget, Hjson.
  unfold getScraperFromMediaType. cbn [MediaType_eqb].
  rewrite run_bind_assoc, run_bind, Hnew. cbn [bind run].
  rewrite (slice_index_lookup _ _ _ Hid Hl). cbn [lift bind].
  fold selection. rewrite run_bind, Happ.
  destruct applied as [e|]; [reflexivity|].
  replace (Z.of_nat (length searchData) <? id) with false by lia.
  fold del. rewrite run_perform.
  destruct (h del _) as [e|]; reflexivity.
Qed.

Lemma SelectScraperResult_selects_witness :
  quiet_env (DB (GetMultipleResultsByMedia (mkMediaKey MediaTypeTvs 1))) []
  = (mkMultipleResultsRow "[Dark]", None)
  /\ @json_Unmarshal_batch example_runtime "[Dark]" = ([example_candidate], None)
  /\ 0 <= 0 /\ [example_candidate] !! Z.to_nat 0 = Some example_candidate
  /\ exists w', @run _ quiet_env (@SelectScraperResult example_runtime MediaTypeTvs 1 0) []
                = Done (example_candidate, None) w'.
Proof.
  split; [reflexivity|]. split; [reflexivity|]. split; [lia|]. split; [reflexivity|].
  destruct (@SelectScraperResult_selects example_runtime quiet_env [] 1 0
              (mkMultipleResultsRow "[Dark]") [example_candidate] example_candidate
              eq_refl eq_refl (Z.le_refl 0) eq_refl)
    as (t & w1 & tr & applied & Hnew & Happ & _ & Hrun).
  vm_compute in Hnew. injection Hnew as <- <-.
  vm_compute in Happ. injection Happ as <- Htr.
  eexists. rewrite Hrun. vm_compute. reflexivity.
Defined.

(** ** Search and refresh of one show *)

Lemma searchProviders_shape (t : TVSScraper) (title : string) :
  loaded t ->
  emits (searchProviders t title)
    (fun tr res => Forall2 (asks t title) (t_ProviderNames t) tr
                   /\ res = collect search_results_of tr).
Proof.
  intros (Hn & _). unfold searchProviders.
  apply (emits_fold_each_hist
           (fun pre tr res => Forall2 (asks t title) pre tr
                              /\ res = collect search_results_of tr)
           (t_ProviderNames t) _) with (pre := []) (tr0 := []) (acc := []).
  - intros pre i tr acc Hi (Hpre & ->).
    destruct (Hn i Hi) as [prov Hprov]. rewrite Hprov. cbn [emits bind perform].
    intros [res [e|]]; cbn [emits].
    + split.
      * apply Forall2_app; [exact Hpre|]. constructor; [|constructor]. now exists prov.
      * rewrite collect_app. cbn. now rewrite app_nil_r.
    + split.
      * apply Forall2_app; [exact Hpre|]. constructor; [|constructor]. now exists prov.
      * rewrite collect_app. cbn. now rewrite app_nil_r.
  - split; [constructor | reflexivity].
Qed.

(** X10: the search that opens [addTVS] makes one call for every
    provider name, in the order of preference: the search of that provider
    for the title of the show; and it returns the candidates of the calls
    that were answered without error, in that order; a provider that fails
    contributes nothing and stops nothing. *)
Theorem searchProviders_in_order (h : environment) (w : trace) (t : TVSScraper)
    (title : string) :
  loaded t ->
  exists tr,
    run h (searchProviders t title) w = Done (collect search_results_of tr) (w ++ tr)
    /\ Forall2 (asks t title) (t_ProviderNames t) tr.
Proof.
  intros Ht.
  destruct (emits_run _ _ (searchProviders_shape t title Ht) h w)
    as (tr & res & Hr & Hask & ->).
  exists tr. split; [exact Hr | exact Hask].
Qed.

Lemma searchProviders_in_order_witness :
  loaded tmdb_scraper
  /\ exists tr,
       run dark_env (searchProviders tmdb_scraper "Dark") [] = Done [example_candidate] tr
       /\ Forall2 (asks tmdb_scraper "Dark") ["tmdb"] tr.
Proof.
  assert (Hl : loaded tmdb_scraper).
  { split; [|split; reflexivity]. intros name Hn.
    apply list_elem_of_singleton in Hn. subst. now exists 7. }
  split; [exact Hl|].
  destruct (searchProviders_in_order dark_env [] tmdb_scraper "Dark" Hl) as (tr & Hr & Hask).
  exists tr. split; [|exact Hask].
  vm_compute in Hr. injection Hr as _ <-. vm_compute. reflexivity.
Defined.

Ltac only_unfold :=
  match goal with
  | |- calls_only _ (AddTag _ _ _) => unfold AddTag
  | |- calls_only _ (AddPerson _ _ _) => unfold AddPerson
  | |- calls_only _ (AddMultipleResults _ _ _ _) => unfold AddMultipleResults
  | |- calls_only _ (UpdateWithSelectionResult _ _ _) => unfold UpdateWithSelectionResult
  | |- calls_only _ (registerEpisodeFile _ _ _ _) => unfold registerEpisodeFile
  | |- calls_only _ (updateTVSSeasons _ _ _) => unfold updateTVSSeasons
  | |- calls_only _ (updateTVSEpisode _ _ _ _ _) => unfold updateTVSEpisode
  | |- calls_only _ (createShow _ _) => unfold createShow
  end.

Ltac only_all := repeat first [only_step | only_unfold].

Lemma updateTVS_calls (t : TVSScraper) (data : ListShowRow) :
  calls_only (fun c => negb (rebinds c || searches_show c)) (updateTVS t data).
Proof. unfold updateTVS. only_all. Qed.

Lemma updateTVS_row (t : TVSScraper) (data : ListShowRow) :
  emits (updateTVS t data)
    (fun tr ret =>
       same_show (fst ret) data
       /\ ((fst ret = data /\ snd ret <> None /\ nothing_written tr)
           \/ exists tvsData,
                fst ret = set_refreshed data tvsData
                /\ Exists (show_written (row_ID data) tvsData) tr)).
Proof.
  assert (Hsame : same_show data data) by (repeat split).
  assert (Hwr : forall (tr : trace) tvsData now,
            Exists (show_written (row_ID data) tvsData)
              (Ev (DB (UpdateShow
                 (mkUpdateShowParams (tvs_Title tvsData) (tvs_Overview tvsData)
                    (tvs_Icon tvsData) (tvs_Fanart tvsData) (tvs_Website tvsData)
                    (tvs_Trailer tvsData) (tvs_Premiered tvsData) (tvs_Rating tvsData)
                    "" "" (si_ScraperLink (tvs_ScraperInfo tvsData))
                    (si_ScraperData (tvs_ScraperInfo tvsData)) now (row_ID data) (-1))))
                  None :: tr)).
  { intros tr tvsData now. apply Exists_cons_hd. split; [now exists now | reflexivity]. }
  unfold updateTVS. destruct (getProviderFromName t (row_ScraperName data)) as [prov|e].
  2:{ cbn. split; [exact Hsame|]. left. split; [reflexivity|]. split; [discriminate|].
      constructor. }
  cbn [emits bind perform]. intros [] [tvsData [e|]]; cbn [emits bind perform].
  { cbn [fst snd]. split; [exact Hsame|]. left. split; [reflexivity|].
    split; [discriminate|]. repeat constructor; cbn; discriminate. }
  intros now [e|]; cbn [emits bind perform].
  { cbn [fst snd]. split; [exact Hsame|]. left. split; [reflexivity|].
    split; [discriminate|]. repeat constructor; cbn; discriminate. }
  assert (Hsame' : same_show (set_refreshed data tvsData) data) by (repeat split).
  intros [tagData [e|]]; cbn [emits bind perform].
  { cbn [fst snd]. split; [exact Hsame'|]. right. exists tvsData. split; [reflexivity|].
    do 3 apply Exists_cons_tl. apply Hwr. }
  apply emits_bind. eapply emits_mono;
    [|apply returns_for_each; intros i; apply returns_bind;
      [apply returns_AddTag | intros _; exact I]].
  cbn beta. intros tr1 [] _. cbn [emits bind perform].
  intros [persData [e|]]; cbn [emits bind perform].
  { cbn [fst snd]. split; [exact Hsame'|]. right. exists tvsData. split; [reflexivity|].
    do 3 apply Exists_cons_tl. apply Hwr. }
  apply emits_bind. eapply emits_mono;
    [|apply returns_for_each; intros i; apply returns_bind;
      [apply returns_AddPerson | intros _; exact I]].
  cbn beta. intros tr2 [] _. cbn [emits fst snd].
  split; [exact Hsame'|]. right. exists tvsData. split; [reflexivity|].
  do 3 apply Exists_cons_tl. apply Hwr.
Qed.

(** X11: [updateTVS] never changes the id, the path, the update mode or
    the binding of the row it is given, never searches and never touches a
    binding.  Either it returns the row as it was, with an error, and no
    store write of its history succeeded; or the show row was written, with
    the update mode -1 and the metadata the provider gave, and the row
    returned carries the title, the provider data and the premiere date of
    that metadata. *)
Theorem updateTVS_refresh (h : environment) (w : trace) (t : TVSScraper)
    (data : ListShowRow) :
  exists tr ret,
    run h (updateTVS t data) w = Done ret (w ++ tr)
    /\ only (fun c => negb (rebinds c || searches_show c)) tr
    /\ same_show (fst ret) data
    /\ ((fst ret = data /\ snd ret <> None /\ nothing_written tr)
        \/ exists tvsData,
             fst ret = set_refreshed data tvsData
             /\ Exists (show_written (row_ID data) tvsData) tr).
Proof.
  destruct (emits_run _ _ (emits_and _ _ _ (updateTVS_calls t data) (updateTVS_row t data))
              h w) as (tr & ret & Hr & Hc & Hs & Hw).
  exists tr, ret. auto.
Qed.

Lemma updateTVS_error (t : TVSScraper) (data : ListShowRow) :
  emits (updateTVS t data)
    (fun tr ret =>
       forall e, snd ret = Some e ->
         (tr = [] /\ getProviderFromName t (row_ScraperName data) = inr e)
         \/ exists tr' ev, tr = tr' ++ [ev] /\ event_error ev = Some e
                           /\ refresh_step (call_of ev) = true).
Proof.
  unfold updateTVS. destruct (getProviderFromName t (row_ScraperName data)) as [prov|e].
  2:{ cbn. intros e' [= <-]. now left. }
  cbn [emits bind perform]. intros [] [tvsData [e|]]; cbn [emits bind perform].
  { cbn [snd]. intros e' [= <-]. right. eexists [_].
    eexists. split; [reflexivity|]. split; reflexivity. }
  intros now [e|]; cbn [emits bind perform].
  { cbn [snd]. intros e' [= <-]. right.
    eexists [_; _; _]. eexists. split; [reflexivity|]. split; reflexivity. }
  intros [tagData [e|]]; cbn [emits bind perform].
  { cbn [snd]. intros e' [= <-]. right. eexists (_ :: _ :: _ :: [_]).
    eexists. split; [reflexivity|]. split; reflexivity. }
  apply emits_bind. eapply emits_mono;
    [|apply returns_for_each; intros i; apply returns_bind;
      [apply returns_AddTag | intros _; exact I]].
  cbn beta. intros tr1 [] _. cbn [emits bind perform].
  intros [persData [e|]]; cbn [emits bind perform].
  { cbn [snd]. intros e' [= <-]. right. eexists (_ :: _ :: _ :: _ :: _ :: tr1).
    eexists. split; [reflexivity|]. split; reflexivity. }
  apply emits_bind. eapply emits_mono;
    [|apply returns_for_each; intros i; apply returns_bind;
      [apply returns_AddPerson | intros _; exact I]].
  cbn beta. intros tr2 [] _. cbn [emits snd]. discriminate.
Qed.

(** X12: an error of [updateTVS] is the missing provider of the name the
    row is bound to, before any call, or the error of the last call made,
    which then is the read of the show from the provider, the write of the
    show row, or the listing of the tags or of the people: a tag or a
    person that cannot be created or linked never makes the refresh
    fail. *)
Theorem updateTVS_errors (h : environment) (w : trace) (t : TVSScraper)
    (data : ListShowRow) :
  exists tr ret,
    run h (updateTVS t data) w = Done ret (w ++ tr)
    /\ forall e, snd ret = Some e ->
         (tr = [] /\ getProviderFromName t (row_ScraperName data) = inr e)
         \/ exists tr' ev, tr = tr' ++ [ev] /\ event_error ev = Some e
                           /\ refresh_step (call_of ev) = true.
Proof. apply emits_run, updateTVS_error. Qed.

Lemma calls_only_searchProviders (good : call -> bool) (t : TVSScraper) (title : string) :
  loaded t -> (forall p, good (Provider p (SearchTVS title)) = true) ->
  calls_only good (searchProviders t title).
Proof.
  intros (Hn & _) Hg. unfold searchProviders. apply calls_only_fold_each.
  intros acc i Hi. destruct (Hn i Hi) as [prov ->].
  apply calls_only_bind; [apply calls_only_perform, Hg|].
  intros [res [e|]]; apply calls_only_ret.
Qed.

Lemma calls_only_lift_SelectBestItem `{Runtime} (good : call -> bool) items title year :
  calls_only good (lift (SelectBestItem items title year)).
Proof.
  destruct (SelectBestItem_total items title year) as [(it & -> & _)| ->];
    apply calls_only_ret.
Qed.

Lemma addTVS_existing_calls `{Runtime} (t : TVSScraper) (data : ListShowRow) :
  loaded t -> row_ID data <> 0 ->
  calls_only (fun c => negb (is_AddShow c)) (addTVS t data).
Proof.
  intros Ht Hid. unfold addTVS.
  apply calls_only_bind; [now apply calls_only_searchProviders|].
  intros res. destruct (_ && _); [apply calls_only_ret|].
  unfold createShow. replace (row_ID data =? 0) with false by lia. cbn [bind].
  unfold selectOrStore. only_all.
  - apply calls_only_lift_SelectBestItem.
  - eapply calls_only_mono; [|apply updateTVS_calls].
    intros [[]| | | | | | | | | |]; cbn; congruence.
Qed.

(** X13: for a show that already has a row (a non-zero id), [addTVS]
    never creates a show row: a search that is run again on a catalogued
    show leaves the number of shows as it is. *)
Theorem addTVS_existing_row `{Runtime} (h : environment) (w : trace) (t : TVSScraper)
    (data : ListShowRow) :
  loaded t -> row_ID data <> 0 ->
  exists tr ret,
    run h (addTVS t data) w = Done ret (w ++ tr)
    /\ only (fun c => negb (is_AddShow c)) tr.
Proof. intros Ht Hid. now apply calls_only_run, addTVS_existing_calls. Qed.

Lemma addTVS_existing_row_witness :
  loaded tmdb_scraper /\ row_ID (mkListShowRow 5 "Dark" "Dark" 1 "" "" "" 0) <> 0
  /\ exists tr ret,
       @run _ dark_env
         (@addTVS example_runtime tmdb_scraper (mkListShowRow 5 "Dark" "Dark" 1 "" "" "" 0)) []
       = Done ret tr
       /\ only (fun c => negb (is_AddShow c)) tr.
Proof.
  assert (Hl : loaded tmdb_scraper).
  { split; [|split; reflexivity]. intros name Hn.
    apply list_elem_of_singleton in Hn. subst. now exists 7. }
  assert (Hid : row_ID (mkListShowRow 5 "Dark" "Dark" 1 "" "" "" 0) <> 0) by (cbn; lia).
  split; [exact Hl|]. split; [exact Hid|].
  destruct (@addTVS_existing_row example_runtime dark_env [] tmdb_scraper
              (mkListShowRow 5 "Dark" "Dark" 1 "" "" "" 0) Hl Hid) as (tr & ret & Hr & Ho).
  exists tr, ret. split; [exact Hr | exact Ho].
Defined.

Lemma addTVS_manual `{Runtime} (t : TVSScraper) (data : ListShowRow) :
  loaded t -> t_AutoAdd t = false ->
  emits (addTVS t data)
    (fun tr ret =>
       only search_and_store tr
       /\ (fst ret = data \/ exists id, row_ID data = 0 /\ fst ret = set_ID data id)).
Proof.
  intros Ht Hauto. unfold addTVS. apply emits_bind.
  eapply emits_mono;
    [|apply (calls_only_searchProviders search_and_store t (row_Title data) Ht);
      reflexivity].
  cbn beta. intros tr res Htr. destruct (_ && _).
  { cbn. rewrite app_nil_r. split; [exact Htr | now left]. }
  unfold createShow. destruct (row_ID data =? 0) eqn:Eid.
  - cbn [emits bind perform]. intros now [id [e|]]; cbn [emits bind].
    + split; [|right; exists id; split; [lia | reflexivity]].
      apply only_app; [exact Htr|]. repeat constructor.
    + unfold selectOrStore. cbn [t_AutoAdd] in *. rewrite Hauto.
      cbn [emits bind perform logm logf]. intros [].
      apply emits_bind.
      eapply emits_mono with (Q := fun tr' _ => only search_and_store tr').
      * cbn beta. intros tr' a Htr'. cbn [emits fst].
        split; [|right; exists id; split; [lia | reflexivity]].
        apply only_app; [exact Htr|]. rewrite app_nil_r.
        repeat (constructor; [reflexivity|]). exact Htr'.
      * change (calls_only search_and_store
                  (AddMultipleResults MediaTypeTvs (row_ID (set_ID data id)) res
                     (row_Title (set_ID data id)))).
        only_all.
  - cbn [emits bind]. unfold selectOrStore. rewrite Hauto.
    cbn [emits bind perform logm logf]. intros [].
    apply emits_bind.
    eapply emits_mono with (Q := fun tr' _ => only search_and_store tr').
    + cbn beta. intros tr' a Htr'. cbn [emits fst].
      split; [|now left].
      apply only_app; [exact Htr|]. rewrite app_nil_r.
      repeat (constructor; [reflexivity|]). exact Htr'.
    + change (calls_only search_and_store
                (AddMultipleResults MediaTypeTvs (row_ID data) res (row_Title data))).
      only_all.
Qed.



(** ** Seasons and episodes *)

(** Runs a program symbolically: every answer of the environment is let
    in, every test of the code is split. *)
Ltac exec :=
  repeat first
    [ progress cbn [emits bind perform logm logf registerEpisodeFile]
    | match goal with
      | |- forall _, _ => intros ?
      | |- emits (match ?x with _ => _ end) _ => destruct x eqn:?
      | |- emits (bind (match ?x with _ => _ end) _) _ => destruct x eqn:?
      | |- emits (bind (bind (match ?x with _ => _ end) _) _) _ => destruct x eqn:?
      | |- emits (bind (registerEpisodeFile _ _ _ ?r) _) _ =>
          unfold registerEpisodeFile; destruct r eqn:?
      end ].

Lemma updateTVSSeasons_shape (t : TVSScraper) (provider : ProviderRef) (idshow : Z) :
  emits (updateTVSSeasons t provider idshow)
    (fun tr ret => exists seasonData e tr',
       tr = Ev (DB (ListShowSeason 0 idshow)) (seasonData, e) :: tr'
       /\ match e with
          | Some x => ret = ([], Some x) /\ tr' = []
          | None =>
              ret = (map sr_Season seasonData, None)
              /\ collect updated_season_of tr'
                 `sublist_of` map sr_Season (filter (fun i => 0 < sr_UpdateMode i) seasonData)
              /\ only season_refresh tr'
          end).
Proof.
  unfold updateTVSSeasons. cbn [emits bind perform]. intros [seasonData [e|]].
  { cbn. exists seasonData, (Some e), []. auto. }
  cbn [emits bind]. apply emits_bind.
  eapply emits_mono;
    [|apply (emits_fold_each_hist
               (fun pre tr seasons =>
                  seasons = map sr_Season pre
                  /\ collect updated_season_of tr
                     `sublist_of` map sr_Season (filter (fun i => 0 < sr_UpdateMode i) pre)
                  /\ only season_refresh tr)
               seasonData _) with (pre := []) (tr0 := []) (acc := [])].
  - cbn beta. intros tr seasons (-> & Hsub & Honly). cbn [emits app].
    exists seasonData, None, tr. rewrite app_nil_r. auto.
  - intros pre i tr seasons _ (-> & Hsub & Honly).
    rewrite filter_app, !map_app.
    destruct (0 <? sr_UpdateMode i) eqn:Em; cbn [emits bind perform logm logf].
    + rewrite filter_cons_True, filter_nil by lia.
      intros [sd [e|]]; cbn [emits bind perform logm logf].
      * intros []. split; [reflexivity|]. split.
        -- rewrite collect_app. apply sublist_app; [exact Hsub|]. apply sublist_nil_l.
        -- apply only_app; [exact Honly|]. repeat constructor.
      * intros now r. split; [reflexivity|]. split.
        -- rewrite collect_app. apply sublist_app; [exact Hsub | reflexivity].
        -- apply only_app; [exact Honly|]. repeat constructor.
    + rewrite filter_cons_False, filter_nil by lia. rewrite !app_nil_r.
      split; [reflexivity|]. split; assumption.
  - split; [reflexivity|]. split; [apply sublist_nil_l | constructor].
Qed.

(** X15: [updateTVSSeasons] reads the seasons of the show from the
    store; when that fails it returns the error with no season and makes
    no other call.  Otherwise it returns the number of every season row in
    the order of the store, rewritten or not; the season rows it rewrites
    are rows whose update mode is positive, each at most once and in that
    order; and besides it only reads seasons from the provider, reads the
    clock and logs. *)
Theorem updateTVSSeasons_lists_all (h : environment) (w : trace) (t : TVSScraper)
    (provider : ProviderRef) (idshow : Z) :
  exists seasonData e tr ret,
    run h (updateTVSSeasons t provider idshow) w
    = Done ret (w ++ Ev (DB (ListShowSeason 0 idshow)) (seasonData, e) :: tr)
    /\ match e with
       | Some x => ret = ([], Some x) /\ tr = []
       | None =>
           ret = (map sr_Season seasonData, None)
           /\ collect updated_season_of tr
              `sublist_of` map sr_Season (filter (fun i => 0 < sr_UpdateMode i) seasonData)
           /\ only season_refresh tr
       end.
Proof.
  destruct (emits_run _ _ (updateTVSSeasons_shape t provider idshow) h w)
    as (tr0 & ret & Hr & seasonData & e & tr & -> & Hshape).
  exists seasonData, e, tr, ret. split; [exact Hr | exact Hshape].
Qed.

Lemma Contains_false (s : list Z) (x : Z) : Contains s x = false -> x ∉ s.
Proof.
  unfold Contains. induction s as [|y s IH]; cbn; intros Hc Hin.
  - inversion Hin.
  - apply orb_false_iff in Hc. destruct Hc as [Hy Hs].
    apply elem_of_cons in Hin. destruct Hin as [->|Hin]; [lia | now apply IH].
Qed.

Lemma updateTVSEpisode_added (t : TVSScraper) (provider : ProviderRef) (seasons : list Z)
    (p : string) (idshow : Z) :
  emits (updateTVSEpisode t provider seasons p idshow)
    (fun tr seasons' => exists added,
       seasons' = seasons ++ added
       /\ collect added_season_of tr = added
       /\ (added = []
           \/ exists season episode,
                extractSeasonEpisode t (path_Base p) = Some (season, episode)
                /\ Contains seasons season = false /\ added = [season])).
Proof.
  unfold updateTVSEpisode. exec;
    first [ exists []; split; [now rewrite app_nil_r|]; split; [reflexivity | now left]
          | eexists [_]; split; [reflexivity|]; split; [reflexivity|]; right;
            do 2 eexists; split; [reflexivity|]; split; [|reflexivity];
            match goal with H : negb _ = true |- _ => now apply negb_true_iff in H end ].
Qed.

(** X16: [updateTVSEpisode] changes the list of known seasons only by
    appending the season it extracted from the file name, only when that
    season is not in the list, and then it asked the store to create that
    season, once; the list returned is the list given followed by the
    seasons created. *)
Theorem updateTVSEpisode_seasons (h : environment) (w : trace) (t : TVSScraper)
    (provider : ProviderRef) (seasons : list Z) (p : string) (idshow : Z) :
  exists tr,
    run h (updateTVSEpisode t provider seasons p idshow) w
    = Done (seasons ++ collect added_season_of tr) (w ++ tr)
    /\ (collect added_season_of tr = []
        \/ exists season episode,
             extractSeasonEpisode t (path_Base p) = Some (season, episode)
             /\ Contains seasons season = false
             /\ collect added_season_of tr = [season]).
Proof.
  destruct (emits_run _ _ (updateTVSEpisode_added t provider seasons p idshow) h w)
    as (tr & seasons' & Hr & added & -> & <- & Hadd).
  exists tr. split; [exact Hr | exact Hadd].
Qed.

Ltac quiet_event :=
  let e := fresh "e" in let c := fresh "c" in let r := fresh "r" in
  intros e; destruct e as [c r];
  destruct c as [[]|? []| | | | | | | | |]; cbn; congruence.

Lemma updateTVSEpisode_facts (t : TVSScraper) (provider : ProviderRef) (seasons : list Z)
    (p : string) (idshow : Z) :
  emits (updateTVSEpisode t provider seasons p idshow)
    (fun tr _ =>
       collect known_seasons_of tr = []
       /\ collect registered_id_of tr `sublist_of` collect created_episode_id_of tr
       /\ (t_AddUnknown t = false ->
             collect added_episode_of tr `sublist_of` collect provided_episode_of tr)
       /\ only (fun c => negb (touches_show c)) tr).
Proof.
  unfold updateTVSEpisode. exec;
    (split; [reflexivity|]; split; [first [apply sublist_nil_l | reflexivity]|];
     split; [first [congruence | intros _; first [apply sublist_nil_l | reflexivity]]|];
     repeat constructor).
Qed.

Lemma updateTVSEpisodes_pass `{Runtime} (t : TVSScraper) (data : ListShowRow) :
  emits (updateTVSEpisodes t data) (fun tr _ => episodes_pass t tr).
Proof.
  assert (Hq1 : forall e, season_refresh (call_of e) = true -> known_seasons_of e = [])
    by quiet_event.
  assert (Hq2 : forall e, season_refresh (call_of e) = true -> added_season_of e = [])
    by quiet_event.
  assert (Hq3 : forall e, season_refresh (call_of e) = true -> registered_id_of e = [])
    by quiet_event.
  assert (Hq4 : forall e, season_refresh (call_of e) = true -> added_episode_of e = [])
    by quiet_event.
  assert (Hq5 : forall c, season_refresh c = true -> negb (touches_show c) = true).
  { intros [[]|? []| | | | | | | | |]; cbn; congruence. }
  unfold updateTVSEpisodes. cbn [emits bind logf perform]. intros [].
  destruct (getProviderFromName t (row_ScraperName data)) as [provider|e].
  2:{ cbn. split; [intros _; constructor|]. split; [reflexivity|].
      split; [intros _; reflexivity|]. repeat constructor. }
  cbn [emits bind perform]. intros []. apply emits_bind.
  eapply emits_mono; [|apply updateTVSSeasons_shape].
  cbn beta. intros tr0 [seasons err] (seasonData & e & tr' & -> & Hshape).
  destruct e as [x|].
  { destruct Hshape as ([= -> ->] & ->). cbn.
    split; [intros _; constructor|]. split; [reflexivity|].
    split; [intros _; reflexivity|]. repeat constructor. }
  destruct Hshape as ([= -> ->] & Hsub & Honly).
  cbn [emits bind perform]. intros files. apply emits_bind.
  set (known := map sr_Season seasonData).
  eapply emits_mono;
    [|apply (emits_fold_each_hist
               (fun _ tr seasons =>
                  collect known_seasons_of tr = known
                  /\ seasons = known ++ collect added_season_of tr
                  /\ (NoDup known -> NoDup seasons)
                  /\ collect registered_id_of tr `sublist_of` collect created_episode_id_of tr
                  /\ (t_AddUnknown t = false ->
                        collect added_episode_of tr
                        `sublist_of` collect provided_episode_of tr)
                  /\ only (fun c => negb (touches_show c)) tr)
               files _)
        with (pre := [])
             (tr0 := Ev (Log (mkLogEntry LTrace
                                (fields_tvs "updateTVSEpisodes" (AStr (row_Title data)))
                                "processing episodes in: %s"
                                [AStr (filepath_Join (t_LibPath t) (row_Path data))])) tt
                     :: Ev (Provider provider
                              (Configure (row_ScraperID data) (row_ScraperData data))) tt
                     :: Ev (DB (ListShowSeason 0 (row_ID data))) (seasonData, None)
                     :: tr' ++ [Ev (ListFiles (filepath_Join (t_LibPath t) (row_Path data))
                                      true) files])
             (acc := known)].
  - cbn beta. intros tr seasons (Hk & -> & Hnd & Hreg & Hau & Hon). cbn [emits].
    match goal with
    | |- episodes_pass t ?X =>
        match type of Hk with
        | collect _ ?Y = _ =>
            replace X with Y by (cbn [app]; now rewrite <- app_assoc, app_nil_r)
        end
    end.
    unfold episodes_pass. rewrite Hk. auto.
  - clear Hsub. intros _ i tr seasons _ (Hk & -> & Hnd & Hreg & Hau & Hon).
    cbn [emits bind logf perform]. intros [] isVideo. destruct isVideo.
    + eapply emits_mono;
        [|apply (emits_and _ _ _
                   (updateTVSEpisode_added t provider
                      (known ++ collect added_season_of tr)
                      (filepath_Join (row_Path data) i) (row_ID data))
                   (updateTVSEpisode_facts t provider
                      (known ++ collect added_season_of tr)
                      (filepath_Join (row_Path data) i) (row_ID data)))].
      cbn beta. intros tr1 seasons' ((added & -> & Hadd & Hcase) & Hk1 & Hreg1 & Hau1 & Hon1).
      rewrite !collect_app.
      repeat match goal with
             | |- context [collect ?f (?e1 :: ?e2 :: tr1)] =>
                 change (collect f (e1 :: e2 :: tr1)) with (collect f tr1)
             end.
      rewrite Hk1, app_nil_r, Hadd.
      split; [exact Hk|]. split; [now rewrite app_assoc|]. split; [|split; [|split]].
      * intros Hn. specialize (Hnd Hn).
        destruct Hcase as [->|(season & episode & _ & Hc & ->)];
          [now rewrite app_nil_r|].
        apply NoDup_app. split; [exact Hnd|]. split; [|apply NoDup_singleton].
        intros y Hy Hy'. apply list_elem_of_singleton in Hy'. subst y.
        now apply Contains_false in Hc.
      * now apply sublist_app.
      * intros Hu. apply sublist_app; auto.
      * apply only_app; [exact Hon|]. repeat (constructor; [reflexivity|]). exact Hon1.
    + cbn [emits]. rewrite !collect_app.
      repeat match goal with
             | |- context [collect ?f [?e1; ?e2]] =>
                 change (collect f [e1; e2]) with (@nil Z) ||
                 change (collect f [e1; e2]) with (@nil (Z * Z))
             end.
      rewrite !app_nil_r.
      split; [exact Hk|]. split; [reflexivity|]. split; [exact Hnd|].
      split; [exact Hreg|]. split; [exact Hau|].
      apply only_app; [exact Hon|]. repeat constructor.
  - rewrite !collect_cons, !collect_app. cbn [collect map concat app].
    rewrite (collect_only _ _ _ Hq1 Honly), (collect_only _ _ _ Hq2 Honly),
      (collect_only _ _ _ Hq3 Honly), (collect_only _ _ _ Hq4 Honly).
    cbn. rewrite !app_nil_r.
    split; [reflexivity|]. split; [reflexivity|]. split; [auto|].
    split; [apply sublist_nil_l|]. split; [intros _; apply sublist_nil_l|].
    repeat (constructor; [reflexivity|]).
    apply (only_app (fun c => negb (touches_show c))); [|repeat constructor].
    eapply only_mono; [exact Hq5 | exact Honly].
Qed.

(** X17: the episodes pass of a show, [updateTVSEpisodes], always
    returns.  When the store listed no season twice, no season is created
    twice and none that the store listed is created again; every video
    file is registered under the id of an episode row created in the same
    pass; with unknown episodes not wanted, every episode row is created
    with data the provider gave for that season and episode; and the pass
    makes no call on the show itself, its binding, its candidates, its
    tags or its people. *)
Theorem updateTVSEpisodes_keeps `{Runtime} (h : environment) (w : trace) (t : TVSScraper)
    (data : ListShowRow) :
  exists tr err,
    run h (updateTVSEpisodes t data) w = Done err (w ++ tr) /\ episodes_pass t tr.
Proof. apply emits_run, updateTVSEpisodes_pass. Qed.

Lemma updateTVSEpisode_known_file (t : TVSScraper) (provider : ProviderRef)
    (seasons : list Z) (p : string) (idshow : Z) :
  emits (updateTVSEpisode t provider seasons p idshow)
    (fun tr seasons' =>
       collect found_file_of tr <> [] ->
       seasons' = seasons
       /\ only (fun c => negb (creates_entry c)) tr
       /\ forall row err,
            collect episode_read_of tr = [(row, err)] ->
            err <> None \/ er_UpdateMode row <= 0 -> only looks_up tr).
Proof.
  unfold updateTVSEpisode. exec;
    (first
       [ match goal with Hf : collect found_file_of _ <> [] |- _ => now contradiction Hf end
       | split; [reflexivity|]; split; [repeat constructor|];
         intros row err Hread Hmode;
         first
           [ solve [repeat constructor]
           | exfalso; injection Hread as -> ->;
             match goal with
             | Hb : bool_decide _ && _ = true |- _ =>
                 apply andb_true_iff in Hb; destruct Hb as [Hb1 Hb2];
                 apply bool_decide_eq_true_1 in Hb1; apply Z.ltb_lt in Hb2;
                 destruct Hmode; [congruence | lia]
             end ] ]).
Qed.

(** X18: for a file the store already knows, [updateTVSEpisode] leaves
    the list of seasons as it is and creates no season, episode or video
    file entry; and when the episode of the file cannot be read or its
    update mode is not positive, it makes no call but reads of the store
    and log lines: the episode is not rewritten, the provider is not
    asked, the file is not probed again. *)
Theorem updateTVSEpisode_known_file_kept (h : environment) (w : trace) (t : TVSScraper)
    (provider : ProviderRef) (seasons : list Z) (p : string) (idshow : Z) :
  exists tr seasons',
    run h (updateTVSEpisode t provider seasons p idshow) w = Done seasons' (w ++ tr)
    /\ (collect found_file_of tr <> [] ->
        seasons' = seasons
        /\ only (fun c => negb (creates_entry c)) tr
        /\ forall row err,
             collect episode_read_of tr = [(row, err)] ->
             err <> None \/ er_UpdateMode row <= 0 -> only looks_up tr).
Proof. apply emits_run, updateTVSEpisode_known_file. Qed.

(** ** Numbers taken from a file name *)








(** ** One entry of the library *)

Lemma updateTVSEpisodes_calls `{Runtime} (t : TVSScraper) (data : ListShowRow) :
  calls_only (fun c => negb (touches_show c)) (updateTVSEpisodes t data).
Proof.
  eapply emits_mono; [|apply updateTVSEpisodes_pass].
  cbn beta. intros tr _ (_ & _ & _ & Ho). exact Ho.
Qed.

Ltac classify :=
  let c := fresh "c" in
  intros c; destruct c as [[]|? []| | | | | | | | |]; cbn;
  first [ congruence
        | match goal with |- context [?a <? ?b] => destruct (a <? b) end; cbn; congruence ].

Lemma processItemScan_manual `{Runtime} (t : TVSScraper) (i : DirEntry)
    (tvsPaths : list string) (tvsData : list ListShowRow) :
  loaded t -> (length tvsPaths <= length tvsData)%nat -> t_AutoAdd t = false ->
  calls_only (fun c => negb (rebinds c)) (processItemScan t i tvsPaths tvsData).
Proof.
  intros Ht Hlen Hauto.
  assert (Hadd : forall data, calls_only (fun c => negb (rebinds c)) (addTVS t data)).
  { intros data. eapply emits_mono; [|apply (addTVS_manual t data Ht Hauto)].
    cbn beta. intros tr _ [Ho _]. eapply only_mono; [|exact Ho]. classify. }
  assert (Hupd : forall data, calls_only (fun c => negb (rebinds c)) (updateTVS t data)).
  { intros data. eapply calls_only_mono; [|apply updateTVS_calls]. classify. }
  assert (Hep : forall data,
            calls_only (fun c => negb (rebinds c)) (updateTVSEpisodes t data)).
  { intros data. eapply calls_only_mono; [|apply updateTVSEpisodes_calls]. classify. }
  unfold processItemScan. destruct (de_IsDir i); [|apply calls_only_ret].
  apply calls_only_bind; [|intros ?; only_all]. unfold reconcileItem.
  apply calls_only_bind; [apply calls_only_perform; reflexivity|intros _].
  apply calls_only_bind.
  - destruct (-1 <? Index tvsPaths (de_Name i)) eqn:E.
    + apply calls_only_bind; [apply calls_only_perform; reflexivity|intros _].
      pose proof (Index_range tvsPaths (de_Name i)) as Hr.
      destruct (slice_index_in_range tvsData (Index tvsPaths (de_Name i))) as (x & -> & _);
        [lia|].
      cbn [lift bind]. only_all; auto.
    + only_all. auto.
  - intros [data err]. only_all. auto.
Qed.

(** X20: with automatic selection off, the processing of an entry of
    the library never binds a show to a provider and never purges what
    hangs on a binding: no show row is written with a positive update mode,
    the seasons and episodes of no show are reset, and no tag or person
    link is deleted. *)
Theorem processItemScan_without_auto_select `{Runtime} (h : environment) (w : trace)
    (t : TVSScraper) (i : DirEntry) (tvsPaths : list string) (tvsData : list ListShowRow) :
  loaded t -> (length tvsPaths <= length tvsData)%nat -> t_AutoAdd t = false ->
  exists tr,
    run h (processItemScan t i tvsPaths tvsData) w = Done tt (w ++ tr)
    /\ only (fun c => negb (rebinds c)) tr.
Proof.
  intros Ht Hlen Hauto.
  destruct (calls_only_run _ _ h w (processItemScan_manual t i tvsPaths tvsData Ht Hlen Hauto))
    as (tr & [] & Hr & Ho).
  exists tr. auto.
Qed.

Lemma processItemScan_without_auto_select_witness :
  loaded bare_scraper /\ (length (@nil string) <= length (@nil ListShowRow))%nat
  /\ t_AutoAdd bare_scraper = false
  /\ exists tr,
       @run _ quiet_env
         (@processItemScan example_runtime bare_scraper (mkDirEntry "Foo" true) [] []) []
       = Done tt tr
       /\ only (fun c => negb (rebinds c)) tr.
Proof.
  assert (Hl : loaded bare_scraper).
  { split; [|split]; [|reflexivity..]. intros name Hn. inversion Hn. }
  split; [exact Hl|]. split; [reflexivity|]. split; [reflexivity|].
  exact (@processItemScan_without_auto_select example_runtime quiet_env [] bare_scraper
           (mkDirEntry "Foo" true) [] [] Hl (le_n _) eq_refl).
Defined.

Lemma reconcileItem_existing `{Runtime} (t : TVSScraper) (i : DirEntry)
    (tvsPaths : list string) (tvsData : list ListShowRow) (data : ListShowRow) :
  de_Name i ∈ tvsPaths ->
  tvsData !! Z.to_nat (Index tvsPaths (de_Name i)) = Some data ->
  reconcileItem t i tvsPaths tvsData
  = let logF := fields_tvs "Scan" (AStr (de_Name i)) in
    bind (logf LDebug logF "processing tvs: %q" [AStr (de_Name i)]) (fun _ =>
    bind (bind (logm LTrace logF "tvs already in database") (fun _ =>
            if 0 <? row_UpdateMode data then
              if String.eqb (row_ScraperID data) "" || String.eqb (row_ScraperName data) ""
                 || String.eqb (row_ScraperName data) " "
              then bind (logm LTrace logF "add tvs") (fun _ => addTVS t data)
              else bind (logm LTrace logF "update tvs") (fun _ => updateTVS t data)
            else bind (logm LTrace logF "no update needed") (fun _ => Ret (data, None))))
      (fun '(data, err) =>
         if bool_decide (err = None) && negb (String.eqb (row_ScraperID data) "") then
           bind (logm LTrace logF "update episodes") (fun _ => updateTVSEpisodes t data)
         else Ret err)).
Proof.
  intros Hin Hl. unfold reconcileItem.
  destruct (Index_found tvsPaths (de_Name i) Hin) as [Hr _].
  replace (-1 <? Index tvsPaths (de_Name i)) with true by lia.
  rewrite (slice_index_lookup _ _ _ (proj1 Hr) Hl). reflexivity.
Qed.

Lemma processItemScan_frozen `{Runtime} (t : TVSScraper) (i : DirEntry)
    (tvsPaths : list string) (tvsData : list ListShowRow) (data : ListShowRow) :
  de_Name i ∈ tvsPaths ->
  tvsData !! Z.to_nat (Index tvsPaths (de_Name i)) = Some data ->
  row_UpdateMode data <= 0 ->
  emits (processItemScan t i tvsPaths tvsData)
    (fun tr _ => only (fun c => negb (touches_show c)) tr
                 /\ (row_ScraperID data = "" -> only is_log tr)).
Proof.
  intros Hin Hl Hmode. unfold processItemScan.
  destruct (de_IsDir i); [|cbn; split; [constructor | intros _; constructor]].
  rewrite (reconcileItem_existing t i tvsPaths tvsData data Hin Hl). cbv zeta.
  replace (0 <? row_UpdateMode data) with false by lia.
  cbn [emits bind logf logm perform]. intros [] [] [].
  rewrite (bool_decide_eq_true_2 (None = None)) by reflexivity. cbn [andb].
  destruct (String.eqb_spec (row_ScraperID data) "") as [Hid|Hid]; cbn [negb emits bind].
  - split; [repeat constructor | intros _; repeat constructor].
  - cbn [emits bind logf logm perform]. intros []. apply emits_bind.
    eapply emits_mono; [|apply (updateTVSEpisodes_calls t data)].
    cbn beta. intros tr [e|] Ho; cbn [emits logm logf perform].
    + intros []. split; [|intros Hx; now contradiction Hid].
      repeat (constructor; [reflexivity|]).
      apply (only_app (fun c => negb (touches_show c))); [exact Ho | repeat constructor].
    + split; [|intros Hx; now contradiction Hid].
      repeat (constructor; [reflexivity|]). rewrite app_nil_r. exact Ho.
Qed.

(** X21: a folder whose show is in the catalog with an update mode that
    is not positive is neither searched nor refreshed: the processing of
    the entry makes no call on the show itself, its binding, its
    candidates, its tags or its people; only the episodes pass is run, and
    when the row has no provider id not even that: the entry is only
    logged. *)
Theorem processItemScan_frozen_show `{Runtime} (h : environment) (w : trace)
    (t : TVSScraper) (i : DirEntry) (tvsPaths : list string) (tvsData : list ListShowRow)
    (data : ListShowRow) :
  de_Name i ∈ tvsPaths ->
  tvsData !! Z.to_nat (Index tvsPaths (de_Name i)) = Some data ->
  row_UpdateMode data <= 0 ->
  exists tr,
    run h (processItemScan t i tvsPaths tvsData) w = Done tt (w ++ tr)
    /\ only (fun c => negb (touches_show c)) tr
    /\ (row_ScraperID data = "" -> only is_log tr).
Proof.
  intros Hin Hl Hmode.
  destruct (emits_run _ _ (processItemScan_frozen t i tvsPaths tvsData data Hin Hl Hmode) h w)
    as (tr & [] & Hr & Ho).
  exists tr. auto.
Qed.

Lemma processItemScan_frozen_show_witness :
  de_Name (mkDirEntry "Dark" true) ∈ ["Dark"]
  /\ [mkListShowRow 5 "Dark" "Dark" 0 "" "" "" 0]
       !! Z.to_nat (Index ["Dark"] (de_Name (mkDirEntry "Dark" true)))
     = Some (mkListShowRow 5 "Dark" "Dark" 0 "" "" "" 0)
  /\ row_UpdateMode (mkListShowRow 5 "Dark" "Dark" 0 "" "" "" 0) <= 0
  /\ exists tr,
       @run _ dark_env
         (@processItemScan example_runtime tmdb_scraper (mkDirEntry "Dark" true) ["Dark"]
            [mkListShowRow 5 "Dark" "Dark" 0 "" "" "" 0]) []
       = Done tt tr
       /\ only is_log tr.
Proof.
  assert (Hin : de_Name (mkDirEntry "Dark" true) ∈ ["Dark"]) by (cbn; left).
  assert (Hmode : row_UpdateMode (mkListShowRow 5 "Dark" "Dark" 0 "" "" "" 0) <= 0)
    by (cbn; lia).
  split; [exact Hin|]. split; [reflexivity|]. split; [exact Hmode|].
  destruct (@processItemScan_frozen_show example_runtime dark_env [] tmdb_scraper
              (mkDirEntry "Dark" true) ["Dark"] [mkListShowRow 5 "Dark" "Dark" 0 "" "" "" 0]
              (mkListShowRow 5 "Dark" "Dark" 0 "" "" "" 0) Hin eq_refl Hmode)
    as (tr & Hr & _ & Hlog).
  exists tr. split; [exact Hr | apply Hlog; reflexivity].
Defined.

Lemma processItemScan_bound `{Runtime} (t : TVSScraper) (i : DirEntry)
    (tvsPaths : list string) (tvsData : list ListShowRow) (data : ListShowRow) :
  de_Name i ∈ tvsPaths ->
  tvsData !! Z.to_nat (Index tvsPaths (de_Name i)) = Some data ->
  bound data = true ->
  calls_only (fun c => negb (searches_show c)) (processItemScan t i tvsPaths tvsData).
Proof.
  intros Hin Hl Hb. unfold bound in Hb. apply negb_true_iff in Hb.
  unfold processItemScan. destruct (de_IsDir i); [|apply calls_only_ret].
  rewrite (reconcileItem_existing t i tvsPaths tvsData data Hin Hl). cbv zeta.
  rewrite Hb. only_all.
  - eapply calls_only_mono; [|apply updateTVS_calls]. classify.
  - eapply calls_only_mono; [|apply updateTVSEpisodes_calls]. classify.
Qed.

(** X22: a folder whose show is in the catalog and bound to a provider
    (a provider id, and a provider name that is neither empty nor a single
    space) is never searched again: whatever its update mode, the
    processing of the entry asks no provider for candidates, creates no
    show row and leaves the stored candidate batch alone. *)
Theorem processItemScan_bound_show `{Runtime} (h : environment) (w : trace)
    (t : TVSScraper) (i : DirEntry) (tvsPaths : list string) (tvsData : list ListShowRow)
    (data : ListShowRow) :
  de_Name i ∈ tvsPaths ->
  tvsData !! Z.to_nat (Index tvsPaths (de_Name i)) = Some data ->
  bound data = true ->
  exists tr,
    run h (processItemScan t i tvsPaths tvsData) w = Done tt (w ++ tr)
    /\ only (fun c => negb (searches_show c)) tr.
Proof.
  intros Hin Hl Hb.
  destruct (calls_only_run _ _ h w (processItemScan_bound t i tvsPaths tvsData data Hin Hl Hb))
    as (tr & [] & Hr & Ho).
  exists tr. auto.
Qed.

Lemma processItemScan_bound_show_witness :
  de_Name (mkDirEntry "Dark" true) ∈ ["Dark"]
  /\ [mkListShowRow 5 "Dark" "Dark" 1 "70523" "tmdb" "" 0]
       !! Z.to_nat (Index ["Dark"] (de_Name (mkDirEntry "Dark" true)))
     = Some (mkListShowRow 5 "Dark" "Dark" 1 "70523" "tmdb" "" 0)
  /\ bound (mkListShowRow 5 "Dark" "Dark" 1 "70523" "tmdb" "" 0) = true
  /\ exists tr,
       @run _ dark_env
         (@processItemScan example_runtime tmdb_scraper (mkDirEntry "Dark" true) ["Dark"]
            [mkListShowRow 5 "Dark" "Dark" 1 "70523" "tmdb" "" 0]) []
       = Done tt tr
       /\ only (fun c => negb (searches_show c)) tr.
Proof.
  assert (Hin : de_Name (mkDirEntry "Dark" true) ∈ ["Dark"]) by (cbn; left).
  split; [exact Hin|]. split; [reflexivity|]. split; [reflexivity|].
  exact (@processItemScan_bound_show example_runtime dark_env [] tmdb_scraper
           (mkDirEntry "Dark" true) ["Dark"]
           [mkListShowRow 5 "Dark" "Dark" 1 "70523" "tmdb" "" 0]
           (mkListShowRow 5 "Dark" "Dark" 1 "70523" "tmdb" "" 0) Hin eq_refl eq_refl).
Defined.

(** ** The entries of a scan *)

(** X23: below two concurrent scans, the entries of the library that
    are not folders play no part: the scan of the entries runs as the scan
    of the folders among them, with the same history and the same
    outcome. *)
Theorem Scan_entries_skips_files `{Runtime} (h : environment) (w : trace) (t : TVSScraper)
    (conf : ScraperScanConfig) (items : list DirEntry) (tvsPaths : list string)
    (tvsData : list ListShowRow) :
  MaxConcurrentScans conf < 2 ->
  run h (Scan_entries t conf items tvsPaths tvsData) w
  = run h (Scan_entries t conf (filter (fun i => de_IsDir i = true) items) tvsPaths tvsData) w.
Proof.
  intros Hn. unfold Scan_entries. replace (MaxConcurrentScans conf <? 2) with true by lia.
  revert w. induction items as [|i items IH]; intros w; [reflexivity|].
  destruct (de_IsDir i) eqn:Ed.
  - rewrite filter_cons_True by exact Ed. cbn [for_each]. rewrite !run_bind.
    destruct (run h (processItemScan t i tvsPaths tvsData) w); auto.
  - rewrite filter_cons_False by (rewrite Ed; discriminate).
    cbn [for_each]. rewrite run_bind. unfold processItemScan at 1. rewrite Ed.
    cbn [run]. apply IH.
Qed.

Lemma Scan_entries_skips_files_witness :
  MaxConcurrentScans (mkScraperScanConfig false true false 1) < 2
  /\ @run _ quiet_env
       (@Scan_entries example_runtime bare_scraper (mkScraperScanConfig false true false 1)
          [mkDirEntry "notes.txt" false; mkDirEntry "Foo" true] [] []) []
     = @run _ quiet_env
         (@Scan_entries example_runtime bare_scraper (mkScraperScanConfig false true false 1)
            [mkDirEntry "Foo" true] [] []) [].
Proof.
  assert (Hn : MaxConcurrentScans (mkScraperScanConfig false true false 1) < 2)
    by (cbn; lia).
  split; [exact Hn|].
  exact (@Scan_entries_skips_files example_runtime quiet_env [] bare_scraper
           (mkScraperScanConfig false true false 1)
           [mkDirEntry "notes.txt" false; mkDirEntry "Foo" true] [] [] Hn).
Defined.

(** ** The candidate selected *)

(** X24: the candidate [SelectBestItem] returns is one of those it
    considered, and none of them scores higher against the title than it
    does ([fuzzy.ExtractOne] returning a top-scoring choice). *)
Theorem SelectBestItem_best `{Runtime} (items : list SearchData) (title : string) (year : Z)
    (it : SearchData) :
  SelectBestItem items title year = Normal (it, None) ->
  it ∈ considered items year
  /\ forall it', it' ∈ considered items year ->
       fuzzy_score title (sd_Title it') <= fuzzy_score title (sd_Title it).
Proof.
  intros Hit.
  destruct (considered items year) as [|c cs] eqn:E.
  { rewrite (SelectBestItem_none items title year E) in Hit. discriminate. }
  destruct (SelectBestItem_some items title year) as (m & _ & Hsc & Hmax & _ & Hc);
    [rewrite E; discriminate|].
  destruct (85 <? Score m); [|rewrite Hc in Hit; discriminate].
  destruct Hc as (it0 & H1 & H2 & H3). rewrite H1 in Hit. injection Hit as <-.
  rewrite E in H2, Hmax. split; [exact H2|].
  intros it' Hin. rewrite H3, <- Hsc. now apply Hmax.
Qed.

Lemma SelectBestItem_best_witness :
  @SelectBestItem example_runtime [example_candidate] "Dark" 0
  = Normal (example_candidate, None)
  /\ example_candidate ∈ @considered example_runtime [example_candidate] 0.
Proof.
  assert (Hs : @SelectBestItem example_runtime [example_candidate] "Dark" 0
               = Normal (example_candidate, None)) by reflexivity.
  split; [exact Hs|].
  exact (proj1 (@SelectBestItem_best example_runtime [example_candidate] "Dark" 0
                  example_candidate Hs)).
Defined.

(** ** The scraper a scan leaves *)

(** X25: below two concurrent scans [Scan] always returns, and the
    scraper it leaves is the one it was called on with the library id, the
    automatic selection and the unknown-shows option of the call; its
    providers and their order are untouched, and its library path is the
    path of the library once that was read.  The 3D option of the
    configuration is never looked at. *)
Theorem Scan_configures `{Runtime} (h : environment) (w : trace) (t : TVSScraper)
    (idlib : Z) (conf : ScraperScanConfig) :
  loaded t -> MaxConcurrentScans conf < 2 ->
  (exists t' err w',
     run h (Scan t idlib conf) w = Done (t', err) w'
     /\ t_IDLib t' = idlib /\ t_AutoAdd t' = AutoAdd conf
     /\ t_AddUnknown t' = AddUnknown conf
     /\ t_Providers t' = t_Providers t /\ t_ProviderNames t' = t_ProviderNames t
     /\ (snd (h (DB (GetLibrary idlib)) w) = None ->
         t_LibPath t' = lib_Path (fst (h (DB (GetLibrary idlib)) w))))
  /\ forall flag,
       Scan t idlib conf
       = Scan t idlib (mkScraperScanConfig (AutoAdd conf) (AddUnknown conf) flag
                         (MaxConcurrentScans conf)).
Proof.
  intros Ht Hn. split; [|reflexivity].
  rewrite Scan_run.
  pose proof (prescan_loaded h t idlib conf w Ht) as Ht'.
  assert (Hf : let t' := snd (fst (prescan h t idlib conf w)) in
               t_IDLib t' = idlib /\ t_AutoAdd t' = AutoAdd conf
               /\ t_AddUnknown t' = AddUnknown conf
               /\ t_Providers t' = t_Providers t /\ t_ProviderNames t' = t_ProviderNames t
               /\ (snd (h (DB (GetLibrary idlib)) w) = None ->
                   t_LibPath t' = lib_Path (fst (h (DB (GetLibrary idlib)) w)))).
  { unfold prescan. destruct (snd (h (DB (GetLibrary idlib)) w)) eqn:E1.
    { cbn. repeat split. discriminate. }
    destruct (snd (h (DB (ListShow 0)) _)); [cbn; repeat split|].
    destruct (snd (h (ReadDir _) _)); cbn; repeat split. }
  destruct (prescan h t idlib conf w) as [[w' t'] [e|[tvsData items]]]; cbn [fst snd] in *.
  - exists t', (Some e), w'. split; [reflexivity | exact Hf].
  - assert (Hlen : (length (map row_Path tvsData) <= length tvsData)%nat)
      by (rewrite length_map; lia).
    destruct (returns_run _ h w'
                (returns_sequential t' conf items _ tvsData Ht' Hlen Hn)) as (tr & [] & Hs).
    exists t', None, (w' ++ tr). split; [|exact Hf].
    rewrite run_bind, Hs. reflexivity.
Qed.

Lemma Scan_configures_witness :
  loaded bare_scraper /\ MaxConcurrentScans (mkScraperScanConfig true false false 1) < 2
  /\ exists t' err w',
       @run _ one_folder_env
         (@Scan example_runtime bare_scraper 3 (mkScraperScanConfig true false false 1)) []
       = Done (t', err) w'
       /\ t_IDLib t' = 3 /\ t_AutoAdd t' = true /\ t_AddUnknown t' = false.
Proof.
  assert (Hl : loaded bare_scraper).
  { split; [|split]; [|reflexivity..]. intros name Hn. inversion Hn. }
  assert (Hn : MaxConcurrentScans (mkScraperScanConfig true false false 1) < 2)
    by (cbn; lia).
  split; [exact Hl|]. split; [exact Hn|].
  destruct (@Scan_configures example_runtime one_folder_env [] bare_scraper 3
              (mkScraperScanConfig true false false 1) Hl Hn)
    as [(t' & err & w' & Hr & H1 & H2 & H3 & _) _].
  exists t', err, w'. auto.
Defined.

(** ** Update modes written by a scan *)

Lemma processItemScan_modes `{Runtime} (t : TVSScraper) (i : DirEntry)
    (tvsPaths : list string) (tvsData : list ListShowRow) :
  loaded t -> (length tvsPaths <= length tvsData)%nat ->
  calls_only marks_done (processItemScan t i tvsPaths tvsData).
Proof.
  intros Ht Hlen.
  assert (Hupd : forall data, calls_only marks_done (updateTVS t data)).
  { intros data. unfold updateTVS. only_all. }
  assert (Hadd : forall data, calls_only marks_done (addTVS t data)).
  { intros data. unfold addTVS.
    apply calls_only_bind; [now apply calls_only_searchProviders|].
    intros res. destruct (_ && _); [apply calls_only_ret|].
    apply calls_only_bind; [only_all|]. intros [data' [e|]]; [apply calls_only_ret|].
    unfold selectOrStore. only_all; [apply calls_only_lift_SelectBestItem | apply Hupd]. }
  assert (Hep : forall data, calls_only marks_done (updateTVSEpisodes t data)).
  { intros data. unfold updateTVSEpisodes. only_all. }
  unfold processItemScan. destruct (de_IsDir i); [|apply calls_only_ret].
  apply calls_only_bind; [|intros ?; only_all]. unfold reconcileItem.
  apply calls_only_bind; [apply calls_only_perform; reflexivity|intros _].
  apply calls_only_bind.
  - destruct (-1 <? Index tvsPaths (de_Name i)) eqn:E.
    + apply calls_only_bind; [apply calls_only_perform; reflexivity|intros _].
      pose proof (Index_range tvsPaths (de_Name i)) as Hr.
      destruct (slice_index_in_range tvsData (Index tvsPaths (de_Name i))) as (x & -> & _);
        [lia|].
      cbn [lift bind]. only_all; auto.
    + only_all. auto.
  - intros [data err]. only_all. auto.
Qed.

(** X29: every season or episode row the processing of an entry creates
    or rewrites is written with the update mode -1; every write of a show
    row carries the update mode -1 (a refresh) or 1 (a binding); and the
    resets of all seasons and all episodes of a show carry the update
    mode 1. *)
Theorem processItemScan_update_modes `{Runtime} (h : environment) (w : trace)
    (t : TVSScraper) (i : DirEntry) (tvsPaths : list string) (tvsData : list ListShowRow) :
  loaded t -> (length tvsPaths <= length tvsData)%nat ->
  exists tr,
    run h (processItemScan t i tvsPaths tvsData) w = Done tt (w ++ tr)
    /\ only marks_done tr.
Proof.
  intros Ht Hlen.
  destruct (calls_only_run _ _ h w (processItemScan_modes t i tvsPaths tvsData Ht Hlen))
    as (tr & [] & Hr & Ho).
  exists tr. auto.
Qed.

Lemma processItemScan_update_modes_witness :
  loaded tmdb_scraper /\ (length (@nil string) <= length (@nil ListShowRow))%nat
  /\ exists tr,
       @run _ dark_env
         (@processItemScan example_runtime tmdb_scraper (mkDirEntry "Dark" true) [] []) []
       = Done tt tr
       /\ only marks_done tr.
Proof.
  assert (Hl : loaded tmdb_scraper).
  { split; [|split; reflexivity]. intros name Hn.
    apply list_elem_of_singleton in Hn. subst. now exists 7. }
  split; [exact Hl|]. split; [reflexivity|].
  exact (@processItemScan_update_modes example_runtime dark_env [] tmdb_scraper
           (mkDirEntry "Dark" true) [] [] Hl (le_n _)).
Defined.

(** ** HTTP helpers *)


(** ** Errors that end a step, and errors that are dropped *)

Lemma addTVS_manual_error `{Runtime} (t : TVSScraper) (data : ListShowRow) :
  loaded t -> t_AutoAdd t = false ->
  emits (addTVS t data)
    (fun tr ret =>
       forall e, snd ret = Some e ->
         (e = "no data avaiable for show " +:+ row_Title data
          /\ only (fun c => negb (store_write c)) tr)
         \/ exists tr' ev, tr = tr' ++ [ev] /\ is_AddShow (call_of ev) = true
                           /\ event_error ev = Some e).
Proof.
  intros Ht Hauto. unfold addTVS. apply emits_bind.
  eapply emits_mono;
    [|apply (calls_only_searchProviders (fun c => negb (store_write c)) t
               (row_Title data) Ht); reflexivity].
  cbn beta. intros tr res Htr. destruct (_ && _).
  { cbn. rewrite app_nil_r. intros e [= <-]. left. split; [reflexivity | exact Htr]. }
  unfold createShow. destruct (row_ID data =? 0) eqn:Eid.
  - cbn [emits bind perform]. intros now [id [e|]]; cbn [emits bind].
    + cbn [snd]. intros e' [= <-]. right. exists (tr ++ [Ev Now now]). eexists.
      split; [now rewrite <- app_assoc|]. split; reflexivity.
    + unfold selectOrStore. cbn [t_AutoAdd] in *. rewrite Hauto.
      cbn [emits bind perform logm logf]. intros [].
      apply emits_bind.
      eapply emits_mono;
        [|apply (returns_AddMultipleResults MediaTypeTvs (row_ID (set_ID data id)) res
                   (row_Title (set_ID data id)))].
      cbn beta. intros tr' a _. cbn [emits snd]. discriminate.
  - cbn [emits bind]. unfold selectOrStore. rewrite Hauto.
    cbn [emits bind perform logm logf]. intros [].
    apply emits_bind.
    eapply emits_mono;
      [|apply (returns_AddMultipleResults MediaTypeTvs (row_ID data) res (row_Title data))].
    cbn beta. intros tr' a _. cbn [emits snd]. discriminate.
Qed.

(** X27: without automatic selection, an error of [addTVS] is either
    the one that gives an unknown show up, and then no store write was
    attempted, or the error of the creation of the show row, which is then
    the last call: an error of the replacement of the candidate batch is
    dropped, and the search is reported as a success. *)
Theorem addTVS_store_errors_dropped `{Runtime} (h : environment) (w : trace)
    (t : TVSScraper) (data : ListShowRow) :
  loaded t -> t_AutoAdd t = false ->
  exists tr ret,
    run h (addTVS t data) w = Done ret (w ++ tr)
    /\ forall e, snd ret = Some e ->
         (e = "no data avaiable for show " +:+ row_Title data
          /\ only (fun c => negb (store_write c)) tr)
         \/ exists tr' ev, tr = tr' ++ [ev] /\ is_AddShow (call_of ev) = true
                           /\ event_error ev = Some e.
Proof. intros Ht Hauto. now apply emits_run, addTVS_manual_error. Qed.

Lemma addTVS_store_errors_dropped_witness :
  loaded bare_scraper /\ t_AutoAdd bare_scraper = false
  /\ exists tr ret,
       @run _ quiet_env
         (@addTVS example_runtime bare_scraper (set_Title ListShowRow_zero "Foo")) []
       = Done ret tr
       /\ snd ret = None.
Proof.
  assert (Hl : loaded bare_scraper).
  { split; [|split]; [|reflexivity..]. intros name Hn. inversion Hn. }
  split; [exact Hl|]. split; [reflexivity|].
  destruct (@addTVS_store_errors_dropped example_runtime quiet_env [] bare_scraper
              (set_Title ListShowRow_zero "Foo") Hl eq_refl) as (tr & ret & Hr & _).
  exists tr, ret. split; [exact Hr|].
  vm_compute in Hr. injection Hr as <- _. reflexivity.
Defined.

Lemma updateTVSEpisodes_error `{Runtime} (t : TVSScraper) (data : ListShowRow) :
  emits (updateTVSEpisodes t data)
    (fun tr ret =>
       forall e, ret = Some e ->
         getProviderFromName t (row_ScraperName data) = inr e
         \/ exists tr' seasonData,
              tr = tr' ++ [Ev (DB (ListShowSeason 0 (row_ID data))) (seasonData, Some e)]).
Proof.
  unfold updateTVSEpisodes. cbn [emits bind logf perform]. intros [].
  destruct (getProviderFromName t (row_ScraperName data)) as [provider|e].
  2:{ cbn. intros e' [= <-]. now left. }
  cbn [emits bind perform]. intros []. apply emits_bind.
  eapply emits_mono; [|apply updateTVSSeasons_shape].
  cbn beta. intros tr0 [seasons err] (seasonData & e & tr' & -> & Hshape).
  destruct e as [x|].
  { destruct Hshape as ([= -> ->] & ->). cbn. intros e' [= <-]. right.
    eexists [_; _]. exists seasonData. reflexivity. }
  destruct Hshape as ([= -> ->] & _).
  cbn [emits bind perform]. intros files. apply emits_bind.
  eapply emits_mono with (Q := fun _ _ => True).
  - cbn beta. intros tr a _. cbn. discriminate.
  - apply returns_fold_each. intros acc i. unfold returns.
    cbn [emits bind logf perform]. intros [] [|]; [apply returns_updateTVSEpisode | exact I].
Qed.

(** X28: an error of the episodes pass of a show is the missing provider
    of the name the row is bound to, or the error of the read of the
    seasons from the store, which then is the last call: whatever fails
    for one file (a season or an episode that cannot be read or written,
    a file that cannot be registered) never makes the pass fail. *)
Theorem updateTVSEpisodes_errors `{Runtime} (h : environment) (w : trace)
    (t : TVSScraper) (data : ListShowRow) :
  exists tr ret,
    run h (updateTVSEpisodes t data) w = Done ret (w ++ tr)
    /\ forall e, ret = Some e ->
         getProviderFromName t (row_ScraperName data) = inr e
         \/ exists tr' seasonData,
              tr = tr' ++ [Ev (DB (ListShowSeason 0 (row_ID data))) (seasonData, Some e)].
Proof. apply emits_run, updateTVSEpisodes_error. Qed.

(** ** Binding and refresh *)






(** ** Errors and the log *)

Lemma reported_quiet (ret : option error) (ev : event) (tr : trace) :
  failure_of ev = None -> reported ret (ev :: tr) = reported ret tr.
Proof. intros Hq. cbn [reported]. now rewrite Hq. Qed.

Lemma reported_last (e : error) (ev : event) :
  failure_of ev = Some e -> reported (Some e) [ev] = true.
Proof. intros Hf. cbn [reported]. rewrite Hf. apply String.eqb_refl. Qed.

Lemma reported_next (ret : option error) (e : error) (ev l : event) (tr : trace) :
  failure_of ev = Some e -> reports (call_of ev) e l = true ->
  reported ret (l :: tr) = true -> reported ret (ev :: l :: tr) = true.
Proof.
  intros Hf Hl Htr. change (reported ret (ev :: l :: tr))
    with (match failure_of ev with
          | None => reported ret (l :: tr)
          | Some e => reports (call_of ev) e l && reported ret (l :: tr)
          end).
  now rewrite Hf, Hl, Htr.
Qed.

Lemma error_line_quiet (e : error) (l : event) : error_line e l = true -> failure_of l = None.
Proof.
  destruct l as [c r]. unfold error_line, failure_of. cbn [call_of projT1].
  destruct c; try discriminate. reflexivity.
Qed.

Lemma reports_error (c : call) (e : error) fields args :
  reports c e (Ev (Log (mkLogEntry LError fields e args)) tt) = true.
Proof. unfold reports, error_line. cbn. now rewrite String.eqb_refl. Qed.

Lemma reports_warning (p : ProviderRef) (s ep : Z) (e : error) fields msg args :
  reports (Provider p (GetTVSEpisode s ep)) e (Ev (Log (mkLogEntry LWarn fields msg args)) tt)
  = true.
Proof. reflexivity. Qed.

(** Histories are put together: what the first part returned is passed
    on by the second. *)
Lemma reported_app (p1 p2 : option error) (tr1 tr2 : trace) :
  reported p1 tr1 = true -> reported p2 tr2 = true ->
  (forall e, p1 = Some e ->
     (tr2 = [] /\ p2 = Some e) \/ exists l tr', tr2 = l :: tr' /\ error_line e l = true) ->
  reported p2 (tr1 ++ tr2) = true.
Proof.
  intros H1 H2 Hp. induction tr1 as [|ev rest IH]; [exact H2|].
  cbn [app]. cbn [reported] in H1 |- *.
  destruct (failure_of ev) as [e|] eqn:Ef; [|now apply IH].
  destruct rest as [|l rest'].
  - destruct p1 as [e'|]; [|discriminate]. apply String.eqb_eq in H1. subst e'.
    cbn [app]. destruct (Hp e eq_refl) as [[-> ->]|(l & tr' & -> & Hl)].
    + apply String.eqb_refl.
    + unfold reports. now rewrite Hl, H2.
  - apply andb_true_iff in H1. destruct H1 as [Hl Hrest].
    cbn [app]. rewrite Hl. cbn [andb]. now apply IH.
Qed.

Lemma reported_app_none (p : option error) (tr1 tr2 : trace) :
  reported None tr1 = true -> reported p tr2 = true -> reported p (tr1 ++ tr2) = true.
Proof. intros H1 H2. apply (reported_app None p); [exact H1 | exact H2 | discriminate]. Qed.

(** A history without such a call has nothing to report. *)
Lemma reported_only (p : option error) (tr : trace) :
  only (fun c => negb (reported_call c)) tr -> reported p tr = true.
Proof.
  induction 1 as [|ev tr Hev _ IH]; [reflexivity|].
  rewrite reported_quiet; [exact IH|]. unfold failure_of.
  now apply negb_true_iff in Hev as ->.
Qed.

Lemma reports_to_quiet {A} (f : A -> option error) (p : Prog A) :
  calls_only (fun c => negb (reported_call c)) p -> reports_to f p.
Proof. apply emits_mono. intros tr a. apply reported_only. Qed.

Lemma reports_to_bind {A B} (fA : A -> option error) (fB : B -> option error)
    (m : Prog A) (k : A -> Prog B) :
  reports_to fA m ->
  (forall a, fA a = None -> reports_to fB (k a)) ->
  (forall a e, fA a = Some e -> emits (k a) (passes_on e fB)) ->
  reports_to fB (bind m k).
Proof.
  intros Hm Hnone Hsome. apply emits_bind. eapply emits_mono; [|exact Hm].
  cbn beta. intros tr a Htr. destruct (fA a) as [e|] eqn:Ea.
  - eapply emits_mono; [|apply (Hsome a e Ea)].
    cbn beta. intros tr' b [[-> Hb]|(l & tr'' & -> & Hl & Hrest)].
    + rewrite app_nil_r, Hb. exact Htr.
    + apply (reported_app (Some e)); [exact Htr | | ].
      * rewrite reported_quiet; [exact Hrest | now apply (error_line_quiet e)].
      * intros e' [= <-]. right. eauto.
  - eapply emits_mono; [|apply (Hnone a Ea)].
    cbn beta. intros tr' b Htr'. now apply reported_app_none.
Qed.

Lemma reports_to_bind_none {A B} (fB : B -> option error) (m : Prog A) (k : A -> Prog B) :
  reports_to (fun _ => None) m -> (forall a, reports_to fB (k a)) ->
  reports_to fB (bind m k).
Proof.
  intros Hm Hk. apply (reports_to_bind (fun _ => None)); [exact Hm | auto | discriminate].
Qed.

Lemma reports_to_for_each {A} (xs : list A) (body : A -> Prog unit) :
  (forall x, reports_to (fun _ => None) (body x)) ->
  reports_to (fun _ => None) (for_each xs body).
Proof.
  intros Hb. induction xs as [|x xs IH]; [reflexivity|].
  cbn [for_each]. apply reports_to_bind_none; auto.
Qed.

Lemma reports_to_fold_each {A S} (xs : list A) (acc : S) (body : S -> A -> Prog S) :
  (forall acc x, x ∈ xs -> reports_to (fun _ => None) (body acc x)) ->
  reports_to (fun _ => None) (fold_each xs acc body).
Proof.
  revert acc. induction xs as [|x xs IH]; intros acc Hb; [reflexivity|].
  cbn [fold_each]. apply reports_to_bind_none.
  - apply Hb. left.
  - intros a. apply IH. intros acc' y Hy. apply Hb. now right.
Qed.

(** The event at the head of a history is let go: it did not fail, or
    the line after it reports it. *)
Lemma emits_reported_quiet {A} (p : Prog A) (f : A -> option error) (ev : event) :
  failure_of ev = None ->
  emits p (fun tr a => reported (f a) tr = true) ->
  emits p (fun tr a => reported (f a) (ev :: tr) = true).
Proof.
  intros Hq. apply emits_mono. intros tr a Htr. now rewrite reported_quiet.
Qed.

Lemma emits_reported_next {A} (p : Prog A) (f : A -> option error) (e : error)
    (ev l : event) :
  failure_of ev = Some e -> reports (call_of ev) e l = true ->
  emits p (fun tr a => reported (f a) (l :: tr) = true) ->
  emits p (fun tr a => reported (f a) (ev :: l :: tr) = true).
Proof.
  intros Hf Hl. apply emits_mono. intros tr a Htr. now apply (reported_next _ e).
Qed.

(** Splits the answer of a call into success and failure. *)
Ltac split_answer r :=
  cbn [resp query_resp provider_resp] in r; unfold goret in r;
  lazymatch type of r with
  | (_ * option _)%type => destruct r as [? [?|]]
  | option _ => destruct r as [?|]
  | unit => destruct r
  | _ => idtac
  end.

Lemma emits_op {A} (c : call) (k : resp c -> Prog A) (Q : trace -> A -> Prop) :
  (forall r, emits (k r) (fun tr a => Q (Ev c r :: tr) a)) -> emits (Op c k) Q.
Proof. exact (fun H => H). Qed.

Lemma emits_ret {A} (a : A) (Q : trace -> A -> Prop) : Q [] a -> emits (Ret a) Q.
Proof. exact (fun H => H). Qed.

(** Runs a program symbolically, one call at a time, and lets go of
    every event as soon as it is accounted for. *)
Ltac rep :=
  repeat first
    [ apply emits_reported_quiet; [reflexivity|]
    | eapply emits_reported_next;
        [reflexivity | first [apply reports_error | apply reports_warning] |]
    | match goal with
      | |- reported _ [] = true => reflexivity
      | |- reported (Some _) [_] = true => apply reported_last; reflexivity
      | |- reported _ [_] = true => reflexivity
      | |- reports_to _ _ => unfold reports_to
      end
    | progress cbn [bind perform logm logf registerEpisodeFile fst snd]
    | match goal with
      | |- emits (Op _ _) _ =>
          let r := fresh "r" in apply emits_op; intros r; split_answer r; cbn beta
      | |- emits (Ret _) _ => apply emits_ret; cbn beta
      | |- emits (match ?x with _ => _ end) _ => destruct x eqn:?
      | |- emits (bind (match ?x with _ => _ end) _) _ => destruct x eqn:?
      | |- emits (bind (bind (match ?x with _ => _ end) _) _) _ => destruct x eqn:?
      end ].

Lemma reports_to_updateTVS (t : TVSScraper) (data : ListShowRow) :
  reports_to snd (updateTVS t data).
Proof.
  unfold updateTVS. destruct (getProviderFromName t (row_ScraperName data)) as [prov|e];
    [|reflexivity].
  rep.
  apply reports_to_bind_none.
  { apply reports_to_for_each. intros i. apply reports_to_quiet. only_all. }
  intros _. rep.
  apply reports_to_bind_none.
  { apply reports_to_for_each. intros i. apply reports_to_quiet. only_all. }
  intros _. rep.
Qed.

Lemma reports_to_createShow (t : TVSScraper) (data : ListShowRow) :
  reports_to snd (createShow t data).
Proof. unfold createShow. rep. Qed.

Lemma reports_to_selectOrStore `{Runtime} (t : TVSScraper) (data : ListShowRow)
    (res : list SearchData) :
  reports_to snd (selectOrStore t data res).
Proof.
  unfold selectOrStore. destruct (t_AutoAdd t).
  - apply reports_to_bind_none.
    { apply reports_to_quiet, calls_only_lift_SelectBestItem. }
    intros [selected [e|]].
    + rep. apply reports_to_bind_none; [apply reports_to_quiet; only_all|].
      intros _. reflexivity.
    + rep. apply reports_to_bind_none; [apply reports_to_quiet; only_all|].
      intros _. apply reports_to_updateTVS.
  - rep. apply reports_to_bind_none; [apply reports_to_quiet; only_all|].
    intros _. reflexivity.
Qed.

Lemma reports_to_addTVS `{Runtime} (t : TVSScraper) (data : ListShowRow) :
  loaded t -> reports_to snd (addTVS t data).
Proof.
  intros Ht. unfold addTVS. apply reports_to_bind_none.
  { apply reports_to_quiet. apply calls_only_searchProviders; [exact Ht | reflexivity]. }
  intros res. destruct (_ && _); [reflexivity|].
  apply (reports_to_bind snd); [apply reports_to_createShow | |].
  - intros [d err] Herr. cbn in Herr. subst err. apply reports_to_selectOrStore.
  - intros [d err] e Herr. cbn in Herr. subst err. left. split; reflexivity.
Qed.

Lemma reports_to_updateTVSSeasons (t : TVSScraper) (provider : ProviderRef) (idshow : Z) :
  reports_to snd (updateTVSSeasons t provider idshow).
Proof.
  unfold updateTVSSeasons. rep.
  apply reports_to_bind_none; [|intros seasons; rep].
  apply reports_to_fold_each. intros acc x _. rep.
Qed.

Lemma reports_to_updateTVSEpisode (t : TVSScraper) (provider : ProviderRef)
    (seasons : list Z) (p : string) (idshow : Z) :
  reports_to (fun _ => None) (updateTVSEpisode t provider seasons p idshow).
Proof. unfold updateTVSEpisode. rep. Qed.

Lemma reports_to_updateTVSEpisodes `{Runtime} (t : TVSScraper) (data : ListShowRow) :
  reports_to (fun err => err) (updateTVSEpisodes t data).
Proof.
  unfold updateTVSEpisodes. cbv zeta.
  apply reports_to_bind_none; [apply reports_to_quiet; only_all|]. intros _.
  destruct (getProviderFromName t (row_ScraperName data)) as [provider|e]; [|reflexivity].
  apply reports_to_bind_none; [apply reports_to_quiet; only_all|]. intros _.
  apply (reports_to_bind snd); [apply reports_to_updateTVSSeasons | |].
  - intros [seasons err] Herr. cbn in Herr. subst err.
    apply reports_to_bind_none; [apply reports_to_quiet; only_all|]. intros files.
    apply reports_to_bind_none; [|intros; reflexivity].
    apply reports_to_fold_each. intros acc x _.
    apply reports_to_bind_none; [apply reports_to_quiet; only_all|]. intros _.
    apply reports_to_bind_none; [apply reports_to_quiet; only_all|]. intros [|].
    + apply reports_to_updateTVSEpisode.
    + reflexivity.
  - intros [seasons err] e Herr. cbn in Herr. subst err. left. split; reflexivity.
Qed.

Lemma reports_to_reconcileItem `{Runtime} (t : TVSScraper) (i : DirEntry)
    (tvsPaths : list string) (tvsData : list ListShowRow) :
  loaded t -> (length tvsPaths <= length tvsData)%nat ->
  reports_to (fun err => err) (reconcileItem t i tvsPaths tvsData).
Proof.
  intros Ht Hlen. unfold reconcileItem. cbv zeta.
  apply reports_to_bind_none; [apply reports_to_quiet; only_all|]. intros _.
  apply (reports_to_bind snd).
  - destruct (-1 <? Index tvsPaths (de_Name i)) eqn:E.
    + apply reports_to_bind_none; [apply reports_to_quiet; only_all|]. intros _.
      pose proof (Index_range tvsPaths (de_Name i)) as Hr.
      destruct (slice_index_in_range tvsData (Index tvsPaths (de_Name i))) as (x & -> & _);
        [lia|].
      cbn [lift bind].
      destruct (0 <? row_UpdateMode x); [destruct (_ || _)|];
        (apply reports_to_bind_none; [apply reports_to_quiet; only_all | intros _]).
      * now apply reports_to_addTVS.
      * apply reports_to_updateTVS.
      * reflexivity.
    + apply reports_to_bind_none; [apply reports_to_quiet; only_all|]. intros _.
      now apply reports_to_addTVS.
  - intros [d err] Herr. cbn in Herr. subst err.
    destruct (_ && _); [|reflexivity].
    apply reports_to_bind_none; [apply reports_to_quiet; only_all|]. intros _.
    apply reports_to_updateTVSEpisodes.
  - intros [d err] e Herr. cbn in Herr. subst err.
    rewrite bool_decide_eq_false_2 by discriminate. left. split; reflexivity.
Qed.

(** An entry accounts for its failures: the error the reconciliation
    ends with goes to the log, like those reported on the way. *)
Lemma reports_to_processItemScan `{Runtime} (t : TVSScraper) (i : DirEntry)
    (tvsPaths : list string) (tvsData : list ListShowRow) :
  loaded t -> (length tvsPaths <= length tvsData)%nat ->
  reports_to (fun _ => None) (processItemScan t i tvsPaths tvsData).
Proof.
  intros Ht Hlen. unfold processItemScan. destruct (de_IsDir i); [|reflexivity].
  apply (reports_to_bind (fun err => err)); [now apply reports_to_reconcileItem | |].
  - intros a ->. reflexivity.
  - intros a e ->. intros []. right. eexists _, []. split; [reflexivity|].
    split; [apply String.eqb_refl | reflexivity].
Qed.

Lemma reports_to_sequential `{Runtime} (t : TVSScraper) (conf : ScraperScanConfig)
    (items : list DirEntry) (tvsPaths : list string) (tvsData : list ListShowRow) :
  loaded t -> (length tvsPaths <= length tvsData)%nat -> MaxConcurrentScans conf < 2 ->
  reports_to (fun _ => None) (Scan_entries t conf items tvsPaths tvsData).
Proof.
  intros Ht Hlen Hn. unfold Scan_entries.
  replace (MaxConcurrentScans conf <? 2) with true by lia.
  apply reports_to_for_each. intros i. now apply reports_to_processItemScan.
Qed.

(** ** The error policy of [Scan] *)

(** C3: [Scan] returns an error exactly when the library lookup, the
    read of the show list or the directory listing fails, and then its
    history ends with that step: no goroutine is started, no entry
    touched.  Once these three steps are through it returns success,
    below two concurrent scans and from two on alike (there every run is
    finite, never stuck, and ends with success).  The error an entry ends
    with is written to the log by [processItemScan], which returns
    nothing; and whatever the environment answers, in the history of the
    calls of an entry every failed call among [reported_call] (creation of
    the show row, reads from the provider other than the search, write of
    the show row by the refresh, listing of the seasons, creation of an
    episode row, registration of a video file) is followed at once by an
    error line with its error (for the read of an episode from the
    provider, by that or a warning); below two concurrent scans this holds
    of the whole history of the entries.  The errors of the other calls
    are dropped by the code and are not part of this. *)
Theorem Scan_error_policy `{Runtime} (h : environment) (w : trace) (t : TVSScraper)
    (idlib : Z) (conf : ScraperScanConfig) :
  loaded t ->
  (exists tr, fst (fst (prescan h t idlib conf w)) = w ++ tr
              /\ Forall (fun ev => prescan_call (call_of ev) = true) tr)
  /\ match prescan h t idlib conf w with
     | (w', t', inl e) =>
         run h (Scan t idlib conf) w = Done (t', Some e) w'
         /\ (forall cf, steps h (start (Scan t idlib conf) w) cf ->
               cf_workers cf = []
               /\ forall r, cf_main cf = Ret r -> r = (t', Some e) /\ cf_trace cf = w')
     | (w', t', inr (tvsData, items)) =>
         let tvsPaths := map row_Path tvsData in
         (MaxConcurrentScans conf < 2 ->
            exists tr, run h (Scan t idlib conf) w = Done (t', None) (w' ++ tr)
                       /\ reported None tr = true)
         /\ (2 <= MaxConcurrentScans conf ->
             forall cf, steps h (start (Scan t idlib conf) w) cf ->
               (forall r, cf_main cf = Ret r -> r = (t', None))
               /\ ((forall r, cf_main cf <> Ret r) -> exists cf', step h cf cf')
               /\ Acc (fun cf' cf => step h cf cf') cf)
         /\ (forall i w0, de_IsDir i = true ->
               exists err w1,
                 run h (reconcileItem t' i tvsPaths tvsData) w0 = Done err w1
                 /\ run h (processItemScan t' i tvsPaths tvsData) w0
                    = Done tt (w1 ++ match err with
                                     | Some e =>
                                         [Ev (Log (mkLogEntry LError
                                                     (fields_tvs "Scan" (AStr (de_Name i))) e [])) tt]
                                     | None => []
                                     end))
         /\ (forall i, emits (processItemScan t' i tvsPaths tvsData)
                         (fun tr _ => reported None tr = true))
     end.
Proof.
  intros Ht. split; [apply prescan_history|].
  pose proof (Scan_run h w t idlib conf) as Hrun.
  pose proof (Scan_steps h w t idlib conf) as Hsteps.
  pose proof (prescan_loaded h t idlib conf w Ht) as Ht'.
  destruct (prescan h t idlib conf w) as [[w' t'] [e|[tvsData items]]]; cbn [fst snd] in Ht'.
  - split; [exact Hrun|]. intros cf Hs. destruct (Hsteps cf Hs) as [[Hw (c & k & Hm)]| ->].
    + split; [exact Hw|]. intros r Hr. rewrite Hm in Hr. discriminate.
    + split; [reflexivity|]. intros r [= <-]. auto.
  - assert (Hlen : (length (map row_Path tvsData) <= length tvsData)%nat)
      by (rewrite length_map; lia).
    cbv zeta. split; [|split; [|split]].
    + intros Hn. rewrite Hrun, run_bind.
      destruct (emits_run _ _ (reports_to_sequential t' conf items (map row_Path tvsData)
                                 tvsData Ht' Hlen Hn) h w')
        as (tr & [] & -> & Htr).
      exists tr. split; [reflexivity | exact Htr].
    + intros Hn cf Hs.
      pose proof (acc_steps h _ cf (Scan_terminates h w t idlib conf Ht Hn) Hs) as Hacc.
      destruct (Hsteps cf Hs) as [[Hw (c & k & Hm)]|Hs'].
      * split; [intros r Hr; rewrite Hm in Hr; discriminate|]. split; [|exact Hacc].
        intros _. destruct cf as [m ws sz cur wg w0]. cbn in Hm. subst m.
        eexists. left. reflexivity.
      * destruct (Scan_entries_reachable h w' t' conf items _ tvsData (t', @None error) cf
                    Ht' Hlen Hn Hs') as (_ & Hret & Hprog & _).
        split; [|split; [exact Hprog | exact Hacc]].
        intros r Hr. now destruct (Hret r Hr).
    + intros i w0 Hdir. now apply processItemScan_logs.
    + intros i. now apply reports_to_processItemScan.
Qed.

Lemma Scan_error_policy_witness :
  loaded bare_scraper
  /\ exists t' w' tr,
       @run _ one_folder_env
         (@Scan example_runtime bare_scraper 1 (mkScraperScanConfig false true false 1)) []
       = Done (t', None) (w' ++ tr)
       /\ reported None tr = true.
Proof.
  assert (Hl : loaded bare_scraper).
  { split; [|split]; [|reflexivity..]. intros name Hn. inversion Hn. }
  split; [exact Hl|].
  pose proof (@Scan_error_policy example_runtime one_folder_env [] bare_scraper 1
                (mkScraperScanConfig false true false 1) Hl) as [_ Hthm].
  destruct (prescan one_folder_env bare_scraper 1 (mkScraperScanConfig false true false 1) [])
    as [[w' t'] [e|[tvsData items]]] eqn:Ep; vm_compute in Ep; [discriminate|].
  destruct Hthm as (Hseq & _). exists t', w'. apply Hseq. reflexivity.
Defined.

(** Not every error of an entry is logged: the store refuses to delete
    the candidates of the one folder, the error is dropped with the result
    of [AddMultipleResults], and [Scan] returns success with a log that
    holds no line at warning or error level. *)
Lemma Scan_drops_store_error :
  exists t' w',
    @run _ lossy_env
      (@Scan example_runtime bare_scraper 1 (mkScraperScanConfig false true false 1)) []
    = Done (t', None) w'
    /\ Ev (DB (DeleteMultipleResultsByMedia (mkMediaKey MediaTypeTvs 1)))
          (Some "database is locked") ∈ w'
    /\ collect alarm_of w' = [].
Proof.
  eexists. eexists.
  split; [vm_compute; reflexivity|].
  split; [repeat constructor | reflexivity].
Qed.
